(** * Tape-ticker reader: the playback engine and its pointer mapper

    A shallow embedding of the RSVP reader engine of [src/App.tsx] (the
    same code in the two revisions under [src/unnamed])
    ([ReaderView]: [loop], [stopPlayback], [startPlayback],
    [handlePointerDown], [handlePointerUp], [handlePointerMove]) and of the
    dwell-weight function [getWordWeight].

    Numbers.  A JavaScript [number] that the code only ever assigns integer
    values to (word indices, the WPM fields, the font size) is a [Z].  The
    fractional quantities (timestamps in milliseconds, pointer coordinates,
    easing factors, dwell times) are exact rationals [Q]: the arithmetic of
    the source is carried out without the rounding of IEEE doubles.

    Effects.  The engine object [engine.current], the drag session
    [dragRef.current], the React state cells written by the engine and the
    calls of the [onUpdateProgress] prop are the fields of one record
    [Reader], passed explicitly.  [performance.now()] is an argument. *)

From Stdlib Require Import ZArith QArith Qround Qpower Qminmax.
From Stdlib Require Import List String Ascii Bool Sorted Lia Lqa.
From Stdlib Require Decimal DecimalString DecimalNat.
Import ListNotations.

Open Scope Z_scope.

(** ** The JavaScript primitives the engine uses *)

Module JS.

(** [Math.floor] and [Math.round] (round half up). *)
Definition Math_floor (x : Q) : Z := Qfloor x.
Definition Math_round (x : Q) : Z := Qfloor (x + 0.5)%Q.

(** [Math.min] and [Math.max] on fractional values. *)
Definition Math_min (x y : Q) : Q := Qmin x y.
Definition Math_max (x y : Q) : Q := Qmax x y.

(** [!x] on a number: true for zero. *)
Definition falsy (x : Q) : bool := Qeq_bool x 0.

(** Strict comparison [x < y] of two fractional values. *)
Definition Qltb (x y : Q) : bool := negb (Qle_bool y x).

(** [s.slice(-1)]: the last character as a string, empty for [""]. *)
Fixpoint slice_last (s : string) : string :=
  match s with
  | EmptyString => EmptyString
  | String c EmptyString => String c EmptyString
  | String _ rest => slice_last rest
  end.

(** [arr.includes(x)] on an array of strings. *)
Definition includes (arr : list string) (x : string) : bool :=
  existsb (String.eqb x) arr.

(** [s.replace(/[^...]/g, '')]: keep the characters of the class. *)
Fixpoint replace_not_in (keep : ascii -> bool) (s : string) : string :=
  match s with
  | EmptyString => EmptyString
  | String c rest =>
      if keep c then String c (replace_not_in keep rest)
      else replace_not_in keep rest
  end.

(** [arr[i]] for a numeric index: [undefined] out of range. *)
Definition index {A} (arr : list A) (i : Z) : option A :=
  if i <? 0 then None else nth_error arr (Z.to_nat i).

End JS.

(** ** constants.ts and the physics constants of App.tsx *)

Definition MIN_WPM : Z := 100.
Definition MAX_WPM : Z := 1500.
Definition MIN_FONT_SIZE : Z := 32.
Definition MAX_FONT_SIZE : Z := 128.
Definition RAMP_UP_DURATION_MS : Z := 1500.
Definition REWIND_COUNT : Z := 3.
Definition INITIAL_wpm : Z := 400.
Definition INITIAL_fontSize : Z := 64.
Definition AUTO_REV_DELAY_MS : Z := 2000.
Definition AUTO_REV_DURATION_MS : Z := 3000.

(** ** getWordWeight *)

(** The character class [a-zA-Z0-9.,!?;:] of the regular expression.  A
    character outside ASCII is outside the class, whatever its encoding. *)
Definition in_class (c : ascii) : bool :=
  let n := nat_of_ascii c in
  ((97 <=? n) && (n <=? 122))%nat
  || ((65 <=? n) && (n <=? 90))%nat
  || ((48 <=? n) && (n <=? 57))%nat
  || existsb (Ascii.eqb c) ["."; ","; "!"; "?"; ";"; ":"]%char.

(** The argument is [None] for [undefined] (a word read past the end of
    [words]). *)
Definition getWordWeight (word : option string) : Q :=
  match word with
  | None => 1
  | Some EmptyString => 1
  | Some word =>
      let cleanWord := JS.replace_not_in in_class word in
      let lastChar := JS.slice_last word in
      if JS.includes ["."; "!"; "?"]%string lastChar then 2.2
      else if JS.includes [","; ";"; ":"]%string lastChar then 1.5
      else if (String.length cleanWord <? 4)%nat then 0.8
      else if (8 <? String.length cleanWord)%nat then 1.1
      else 1
  end%Q.

(** ** The reader's state *)

Record AppSettings := mkSettings {
  cadence : bool;
  fixation : bool;
  deadman : bool;
  autoRev : bool;
  southpaw : bool
}.

(** The object held by the [engine] ref. *)
Record Engine := mkEngine {
  isPlaying : bool;
  startTime : Q;
  accumulatedTime : Q;
  lastFrameTime : Q;
  wordIndex : Z;
  targetWPM : Z;
  currentWPM : Z;
  isDragging : bool;
  lastDragTime : Q;
  dragStartWPM : Z
}.

(** The object held by [dragRef] while a drag session is open. *)
Record DragSession := mkDrag {
  startX : Q;
  startY : Q;
  startWPM : Z;
  startFontSize : Z
}.

(** Everything [ReaderView] owns or writes: the two refs, the React state
    cells, and the calls made so far to [onUpdateProgress], oldest first. *)
Record Reader := mkReader {
  engine : Engine;
  dragRef : option DragSession;
  ui_wordIndex : Z;
  ui_isPlaying : bool;
  showSettings : bool;
  displayWPM : Z;
  fontSize : Z;
  isBraking : bool;
  progressCalls : list (string * Z)
}.

(** Field assignments [state.f = v]. *)
Definition set_isPlaying v (e : Engine) :=
  mkEngine v (startTime e) (accumulatedTime e) (lastFrameTime e) (wordIndex e)
    (targetWPM e) (currentWPM e) (isDragging e) (lastDragTime e) (dragStartWPM e).
Definition set_startTime v (e : Engine) :=
  mkEngine (isPlaying e) v (accumulatedTime e) (lastFrameTime e) (wordIndex e)
    (targetWPM e) (currentWPM e) (isDragging e) (lastDragTime e) (dragStartWPM e).
Definition set_accumulatedTime v (e : Engine) :=
  mkEngine (isPlaying e) (startTime e) v (lastFrameTime e) (wordIndex e)
    (targetWPM e) (currentWPM e) (isDragging e) (lastDragTime e) (dragStartWPM e).
Definition set_lastFrameTime v (e : Engine) :=
  mkEngine (isPlaying e) (startTime e) (accumulatedTime e) v (wordIndex e)
    (targetWPM e) (currentWPM e) (isDragging e) (lastDragTime e) (dragStartWPM e).
Definition set_wordIndex v (e : Engine) :=
  mkEngine (isPlaying e) (startTime e) (accumulatedTime e) (lastFrameTime e) v
    (targetWPM e) (currentWPM e) (isDragging e) (lastDragTime e) (dragStartWPM e).
Definition set_targetWPM v (e : Engine) :=
  mkEngine (isPlaying e) (startTime e) (accumulatedTime e) (lastFrameTime e)
    (wordIndex e) v (currentWPM e) (isDragging e) (lastDragTime e) (dragStartWPM e).
Definition set_currentWPM v (e : Engine) :=
  mkEngine (isPlaying e) (startTime e) (accumulatedTime e) (lastFrameTime e)
    (wordIndex e) (targetWPM e) v (isDragging e) (lastDragTime e) (dragStartWPM e).
Definition set_isDragging v (e : Engine) :=
  mkEngine (isPlaying e) (startTime e) (accumulatedTime e) (lastFrameTime e)
    (wordIndex e) (targetWPM e) (currentWPM e) v (lastDragTime e) (dragStartWPM e).
Definition set_lastDragTime v (e : Engine) :=
  mkEngine (isPlaying e) (startTime e) (accumulatedTime e) (lastFrameTime e)
    (wordIndex e) (targetWPM e) (currentWPM e) (isDragging e) v (dragStartWPM e).
Definition set_dragStartWPM v (e : Engine) :=
  mkEngine (isPlaying e) (startTime e) (accumulatedTime e) (lastFrameTime e)
    (wordIndex e) (targetWPM e) (currentWPM e) (isDragging e) (lastDragTime e) v.

Definition with_engine (e : Engine) (r : Reader) :=
  mkReader e (dragRef r) (ui_wordIndex r) (ui_isPlaying r) (showSettings r)
    (displayWPM r) (fontSize r) (isBraking r) (progressCalls r).
Definition with_dragRef d (r : Reader) :=
  mkReader (engine r) d (ui_wordIndex r) (ui_isPlaying r) (showSettings r)
    (displayWPM r) (fontSize r) (isBraking r) (progressCalls r).
Definition setWordIndex v (r : Reader) :=
  mkReader (engine r) (dragRef r) v (ui_isPlaying r) (showSettings r)
    (displayWPM r) (fontSize r) (isBraking r) (progressCalls r).
Definition setIsPlaying v (r : Reader) :=
  mkReader (engine r) (dragRef r) (ui_wordIndex r) v (showSettings r)
    (displayWPM r) (fontSize r) (isBraking r) (progressCalls r).
Definition setDisplayWPM v (r : Reader) :=
  mkReader (engine r) (dragRef r) (ui_wordIndex r) (ui_isPlaying r)
    (showSettings r) v (fontSize r) (isBraking r) (progressCalls r).
Definition setFontSize v (r : Reader) :=
  mkReader (engine r) (dragRef r) (ui_wordIndex r) (ui_isPlaying r)
    (showSettings r) (displayWPM r) v (isBraking r) (progressCalls r).
Definition setIsBraking v (r : Reader) :=
  mkReader (engine r) (dragRef r) (ui_wordIndex r) (ui_isPlaying r)
    (showSettings r) (displayWPM r) (fontSize r) v (progressCalls r).
Definition onUpdateProgress (id : string) (i : Z) (r : Reader) :=
  mkReader (engine r) (dragRef r) (ui_wordIndex r) (ui_isPlaying r)
    (showSettings r) (displayWPM r) (fontSize r) (isBraking r)
    (progressCalls r ++ [(id, i)]).

(** The reader as [ReaderView] first renders it for a book whose saved
    position is [progressIndex]. *)
Definition initial_engine (progressIndex : Z) : Engine :=
  mkEngine false 0 0 0 progressIndex INITIAL_wpm 0 false 0 0.

Definition initial_reader (progressIndex : Z) : Reader :=
  mkReader (initial_engine progressIndex) None progressIndex false false
    INITIAL_wpm INITIAL_fontSize false [].

(** ** The engine of ReaderView *)

Section ReaderView.

(** The props of the component: [book.id], [words], [settings]. *)
Variable book_id : string.
Variable words : list string.
Variable settings : AppSettings.

Definition words_length : Z := Z.of_nat (List.length words).

(** [stopPlayback]. *)
Definition stopPlayback (r : Reader) : Reader :=
  let state := engine r in
  if negb (isPlaying state) then r
  else
    let state := set_isPlaying false state in
    let newIndex := Z.max 0 (wordIndex state - REWIND_COUNT) in
    let state := set_wordIndex newIndex state in
    let r := setWordIndex newIndex (with_engine state r) in
    let r := onUpdateProgress book_id newIndex r in
    setIsPlaying false r.

(** [startPlayback(clientX, clientY)]; [now] is what [performance.now()]
    returns, taken to be the same reading in the two consecutive calls. *)
Definition startPlayback (now clientX clientY : Q) (r : Reader) : Reader :=
  let state := engine r in
  let r :=
    if words_length - 1 <=? wordIndex state
    then setWordIndex 0 (with_engine (set_wordIndex 0 state) r)
    else r in
  let state := engine r in
  let state := set_isPlaying true state in
  let state := set_startTime now state in
  let state := set_lastFrameTime now state in
  let state := set_accumulatedTime 0%Q state in
  let state := set_dragStartWPM (targetWPM state) state in
  let r := with_engine state r in
  let r := with_dragRef
             (Some (mkDrag clientX clientY (targetWPM state) (fontSize r))) r in
  setIsPlaying true r.

(** The block "2. AUTO-REV LOGIC" of [loop]: the effective target of the
    frame, and the engine after the snap of [targetWPM] (if any). *)
Definition autoRevBlock (timestamp : Q) (state : Engine) : Q * Engine :=
  let effectiveTarget := inject_Z (targetWPM state) in
  if autoRev settings && negb (isDragging state)
     && (targetWPM state <? dragStartWPM state)
  then
    let timeSinceDrag := (timestamp - lastDragTime state)%Q in
    if JS.Qltb (inject_Z AUTO_REV_DELAY_MS) timeSinceDrag then
      let revProgress :=
        JS.Math_min ((timeSinceDrag - inject_Z AUTO_REV_DELAY_MS)
                     / inject_Z AUTO_REV_DURATION_MS) 1 in
      let revEase := (1 - (1 - revProgress) ^ 3)%Q in
      let effectiveTarget :=
        (inject_Z (targetWPM state)
         + inject_Z (dragStartWPM state - targetWPM state) * revEase)%Q in
      if Qle_bool 0.99 revProgress
      then (effectiveTarget, set_targetWPM (dragStartWPM state) state)
      else (effectiveTarget, state)
    else (effectiveTarget, state)
  else (effectiveTarget, state).

(** The factor [rampEase] of [loop] (EaseOutQuart on the time since Start). *)
Definition rampEase (timestamp : Q) (state : Engine) : Q :=
  let elapsed := (timestamp - startTime state)%Q in
  let rampProgress :=
    JS.Math_min (elapsed / inject_Z RAMP_UP_DURATION_MS) 1 in
  (1 - (1 - rampProgress) ^ 4)%Q.

(** The dwell of the current word at the current speed. *)
Definition msForThisWord (state : Engine) : Q :=
  let currentWord := JS.index words (wordIndex state) in
  let ms := (60000 / inject_Z (currentWPM state))%Q in
  if cadence settings then (ms * getWordWeight currentWord)%Q else ms.

(** [loop(timestamp)], one animation frame (the rescheduling through
    [requestAnimationFrame] is the caller's [frames] below).  The guarded
    [if (isBraking !== x) setIsBraking(x)] leaves the cell at [x] either
    way and is the plain assignment here. *)
Definition loop (timestamp : Q) (r : Reader) : Reader :=
  let state := engine r in
  let state :=
    if JS.falsy (lastFrameTime state)
    then set_lastFrameTime timestamp state else state in
  let deltaTime := (timestamp - lastFrameTime state)%Q in
  let state := set_lastFrameTime timestamp state in
  if isPlaying state then
    let ease := rampEase timestamp state in
    let '(effectiveTarget, state) := autoRevBlock timestamp state in
    let finalWPM := JS.Math_floor (effectiveTarget * ease) in
    let state := set_currentWPM finalWPM state in
    let r := setDisplayWPM finalWPM (with_engine state r) in
    let isRevvingOrBraking :=
      (0 <? dragStartWPM state)
      && JS.Qltb effectiveTarget (inject_Z (dragStartWPM state)) in
    let r := setIsBraking isRevvingOrBraking r in
    if 0 <? currentWPM state then
      let ms := msForThisWord state in
      let state := set_accumulatedTime (accumulatedTime state + deltaTime)%Q state in
      if Qle_bool ms (accumulatedTime state) then
        let state := set_accumulatedTime (accumulatedTime state - ms)%Q state in
        let nextIndex := wordIndex state + 1 in
        if words_length <=? nextIndex
        then stopPlayback (with_engine state r)
        else setWordIndex nextIndex
               (with_engine (set_wordIndex nextIndex state) r)
      else with_engine state r
    else r
  else
    let state := set_lastFrameTime 0%Q state in
    let state := set_currentWPM 0 state in
    let r := setDisplayWPM (targetWPM state) (with_engine state r) in
    setIsBraking false r.

(** Successive frames, one per timestamp. *)
Fixpoint frames (timestamps : list Q) (r : Reader) : Reader :=
  match timestamps with
  | [] => r
  | t :: rest => frames rest (loop t r)
  end.

(** The readers seen after each of the successive frames. *)
Fixpoint trace (timestamps : list Q) (r : Reader) : list Reader :=
  match timestamps with
  | [] => []
  | t :: rest => loop t r :: trace rest (loop t r)
  end.

(** [handlePointerDown(e)]. *)
Definition handlePointerDown (now clientX clientY : Q) (r : Reader) : Reader :=
  if showSettings r then r
  else if deadman settings then startPlayback now clientX clientY r
  else if isPlaying (engine r) then stopPlayback r
  else startPlayback now clientX clientY r.

(** [handlePointerUp()], also bound to [onPointerLeave]. *)
Definition handlePointerUp (now : Q) (r : Reader) : Reader :=
  let r := if deadman settings then stopPlayback r else r in
  let state := engine r in
  let state := set_isDragging false state in
  let state := set_lastDragTime now state in
  with_dragRef None (with_engine state r).

(** [handlePointerMove(e)]. *)
Definition handlePointerMove (now clientX clientY : Q) (r : Reader) : Reader :=
  let state := engine r in
  match dragRef r with
  | None => r
  | Some drag =>
      if negb (isPlaying state) then r
      else
        let state := set_isDragging true state in
        let state := set_lastDragTime now state in
        let dx := (clientX - startX drag)%Q in
        let dy := (clientY - startY drag)%Q in
        let newWPM := (inject_Z (startWPM drag) + dx * 2)%Q in
        let newWPM :=
          JS.Math_min (JS.Math_max newWPM (inject_Z MIN_WPM)) (inject_Z MAX_WPM) in
        let newFont := (inject_Z (startFontSize drag) - dy * 0.5)%Q in
        let newFont :=
          JS.Math_min (JS.Math_max newFont (inject_Z MIN_FONT_SIZE))
            (inject_Z MAX_FONT_SIZE) in
        let r := setFontSize (JS.Math_round newFont) r in
        if JS.Qltb (inject_Z (startWPM drag)) newWPM then
          let state := set_targetWPM (JS.Math_round newWPM) state in
          let state := set_dragStartWPM (targetWPM state) state in
          with_engine state r
        else
          let state := set_targetWPM (JS.Math_round newWPM) state in
          with_engine state r
  end.

(** The operations of the engine, as events. *)
Inductive event :=
| Start (now clientX clientY : Q)
| Stop
| Frame (timestamp : Q)
| PointerDown (now clientX clientY : Q)
| PointerUp (now : Q)
| PointerMove (now clientX clientY : Q).

Definition step (ev : event) (r : Reader) : Reader :=
  match ev with
  | Start now x y => startPlayback now x y r
  | Stop => stopPlayback r
  | Frame t => loop t r
  | PointerDown now x y => handlePointerDown now x y r
  | PointerUp now => handlePointerUp now r
  | PointerMove now x y => handlePointerMove now x y r
  end.

Definition run (evs : list event) (r : Reader) : Reader :=
  fold_left (fun acc ev => step ev acc) evs r.

End ReaderView.

(** ** The cadence weight as the specification words it

    A second definition, written from the prose of the specification and
    not from the code, to compare [getWordWeight] with. *)

Module CadenceSpec.

Definition is_letter (c : ascii) : bool :=
  let n := N_of_ascii c in
  (((97 <=? n) && (n <=? 122)) || ((65 <=? n) && (n <=? 90)))%N.

Definition is_digit (c : ascii) : bool :=
  let n := N_of_ascii c in ((48 <=? n) && (n <=? 57))%N.

(** [. ! ?] *)
Definition is_sentence_end (c : ascii) : bool :=
  Ascii.eqb c "." || Ascii.eqb c "!" || Ascii.eqb c "?".

(** [, ; :] *)
Definition is_pause (c : ascii) : bool :=
  Ascii.eqb c "," || Ascii.eqb c ";" || Ascii.eqb c ":".

(** The stripped form keeps letters, digits and [. , ! ? ; :]. *)
Definition stripped (token : string) : list ascii :=
  filter (fun c => is_letter c || is_digit c || is_sentence_end c || is_pause c)
    (list_ascii_of_string token).

Definition last_char (token : string) : option ascii :=
  List.last (map Some (list_ascii_of_string token)) None.

(** [None] is the undefined token. *)
Definition cadenceWeight (token : option string) : Q :=
  match token with
  | None => 1
  | Some token =>
      match last_char token with
      | None => 1
      | Some c =>
          if is_sentence_end c then 2.2
          else if is_pause c then 1.5
          else if (List.length (stripped token) <? 4)%nat then 0.8
          else if (8 <? List.length (stripped token))%nat then 1.1
          else 1
      end
  end%Q.

End CadenceSpec.

(** ** Sample inputs *)

Definition sample_book : string := "book-1".

Definition sample_words : list string :=
  ["The"; "sky"; "above"; "the"; "port"; "was"; "the"; "color"; "of";
   "television,"; "tuned"; "to"; "a"; "dead"; "channel."]%string.

Definition sample_settings : AppSettings :=
  mkSettings false false false true false.

(** A reader in mid-playback: started at 1000 ms, last frame at 5000 ms,
    75 ms accumulated, on word 7 at 400 WPM. *)
Definition sample_playing : Reader :=
  mkReader (mkEngine true 1000 75 5000 7 400 400 false 0 400)
    (Some (mkDrag 200 300 400 64)) 7 true false 400 64 false [].

(** A reader braked from its cruise speed 500 down to 300, released at
    10000 ms. *)
Definition sample_braked : Reader :=
  mkReader (mkEngine true 1000 0 10000 7 300 300 false 10000 500)
    None 7 true false 300 64 true [].

(** The last word is on screen and a whole dwell is about to elapse. *)
Definition sample_at_end : Reader :=
  mkReader (mkEngine true 1000 100 5000 14 400 400 false 0 400)
    None 14 true false 400 64 false [].

(** ** Predicates and observations used by the statements *)

(** The invariant on the word index. *)
Definition wordIndex_in_range (words : list string) (r : Reader) : Prop :=
  0 <= wordIndex (engine r) < words_length words.

(** Running since [t0] at the fixed target [T], with no braking pending. *)
Definition cruising (T : Z) (t0 : Q) (r : Reader) : Prop :=
  isPlaying (engine r) = true /\ startTime (engine r) = t0
  /\ targetWPM (engine r) = T /\ dragStartWPM (engine r) = T.

(** The effective target a frame at [timestamp] computes. *)
Definition effectiveTarget (settings : AppSettings) (timestamp : Q) (r : Reader) : Q :=
  fst (autoRevBlock settings timestamp (engine r)).

(** The time a frame at [timestamp] adds to [accumulatedTime]. *)
Definition deltaTime (timestamp : Q) (r : Reader) : Q :=
  if JS.falsy (lastFrameTime (engine r)) then (timestamp - timestamp)%Q
  else (timestamp - lastFrameTime (engine r))%Q.

(** [clamp (x, 0, 1)] and the rev progress of the specification. *)
Definition clamp01 (x : Q) : Q := Qmin (Qmax x 0) 1.

Definition revProgress (timeSinceDrag : Q) : Q :=
  clamp01 ((timeSinceDrag - inject_Z AUTO_REV_DELAY_MS)
           / inject_Z AUTO_REV_DURATION_MS).

(** The number of whole dwells contained in an accumulated time. *)
Definition wholeDwells (accumulated dwell : Q) : Z := Qfloor (accumulated / dwell).

(** What any frame makes of a stopped reader. *)
Definition idle (r : Reader) : Reader :=
  setIsBraking false
    (setDisplayWPM (targetWPM (engine r))
       (with_engine (set_currentWPM 0 (set_lastFrameTime 0%Q (engine r))) r)).

(** A stopped reader, as a Stop leaves [sample_playing]. *)
Definition sample_stopped : Reader :=
  mkReader (mkEngine false 1000 75 5000 4 400 400 false 0 400)
    None 4 false false 400 64 false [("book-1"%string, 4)].

(** [rampProgress] as a function of the frame's timestamp, for a Start at
    [t0]. *)
Definition progress (t0 t : Q) : Q :=
  JS.Math_min ((t - t0) / inject_Z RAMP_UP_DURATION_MS) 1.

(** The speed of the ramp at time [t], for a Start at [t0] and a fixed
    target [T]. *)
Definition easeOutQuart (p : Q) : Q := (1 - (1 - p) ^ 4)%Q.

Definition rampSpeed (T : Z) (t0 t : Q) : Z :=
  JS.Math_floor
    (inject_Z T
     * easeOutQuart
         (JS.Math_min ((t - t0) / inject_Z RAMP_UP_DURATION_MS) 1))%Q.

(** The speeds a run of frames goes through. *)
Definition speeds (rs : list Reader) : list Z :=
  map (fun r => currentWPM (engine r)) rs.

Definition all_playing (rs : list Reader) : Prop :=
  Forall (fun r => isPlaying (engine r) = true) rs.

(** The cubic ease-out of the auto-rev. *)
Definition easeOutCubic (p : Q) : Q := (1 - (1 - p) ^ 3)%Q.

(** [revProgress] of [loop], on the time since the last drag. *)
Definition revProgressOf (since : Q) : Q :=
  JS.Math_min ((since - inject_Z AUTO_REV_DELAY_MS)
               / inject_Z AUTO_REV_DURATION_MS) 1.

(** The effective targets the successive frames compute, one for each
    timestamp. *)
Fixpoint effectiveTargets (book_id : string) (words : list string)
    (settings : AppSettings) (timestamps : list Q) (r : Reader) : list Q :=
  match timestamps with
  | [] => []
  | t :: rest =>
      effectiveTarget settings t r
      :: effectiveTargets book_id words settings rest
           (loop book_id words settings t r)
  end.

(** The effective target of the specification for a brake from 500 to 300,
    as a function of the time since the drag. *)
Definition revTarget (timeSinceDrag : Q) : Q :=
  if Qle_bool timeSinceDrag (inject_Z AUTO_REV_DELAY_MS) then 300%Q
  else (300 + 200 * (1 - (1 - revProgress timeSinceDrag) ^ 3))%Q.

(** A frame at [timestamp] sees [revProgress >= 0.99], for a drag that
    ended at [released]. *)
Definition revDone (released timestamp : Q) : bool :=
  Qle_bool 0.99 (revProgress (timestamp - released)).

(** The effective targets of the specification along successive frames:
    the ease-out up to the first frame that sees [revProgress >= 0.99],
    the cruise setpoint 500 after it. *)
Fixpoint revTargets (released : Q) (timestamps : list Q) : list Q :=
  match timestamps with
  | [] => []
  | t :: rest =>
      revTarget (t - released)
      :: (if revDone released t then map (fun _ => 500%Q) rest
          else revTargets released rest)
  end.

(** The speed of a frame at timestamp [fst p] whose effective target is
    [snd p], for the engine state [e] the ramp started from. *)
Definition scaledSpeed (e : Engine) (p : Q * Q) : Z :=
  JS.Math_floor (snd p * rampEase (fst p) e)%Q.

(** ** Limits and mirrors kept by the engine *)

(** The speeds are within the limits of constants.ts; while playing the
    target is at most the cruise setpoint, and the cruise setpoint is at
    least the speed at which the open drag session started. *)
Definition speeds_ok (r : Reader) : Prop :=
  MIN_WPM <= targetWPM (engine r) <= MAX_WPM
  /\ (isPlaying (engine r) = true ->
      targetWPM (engine r) <= dragStartWPM (engine r) <= MAX_WPM
      /\ forall d, dragRef r = Some d -> startWPM d <= dragStartWPM (engine r)).

Definition font_ok (r : Reader) : Prop :=
  MIN_FONT_SIZE <= fontSize r <= MAX_FONT_SIZE.

(** The React cells [wordIndex] and [isPlaying] show what the engine holds. *)
Definition ui_mirrors_engine (r : Reader) : Prop :=
  ui_wordIndex r = wordIndex (engine r)
  /\ ui_isPlaying r = isPlaying (engine r).

(** The call of the progress callback an operation owes: one when it took
    the reader from playing to stopped, none otherwise. *)
Definition owed_call (book_id : string) (before after : Reader)
  : list (string * Z) :=
  if isPlaying (engine before) && negb (isPlaying (engine after))
  then [(book_id, wordIndex (engine after))] else [].

(** An operation reports progress as it should: the calls it adds are the
    one owed, and a reader it stops is rewound. *)
Definition reports (book_id : string) (before after : Reader) : Prop :=
  progressCalls after = progressCalls before ++ owed_call book_id before after
  /\ (isPlaying (engine before) = true -> isPlaying (engine after) = false ->
      wordIndex (engine after)
      = Z.max 0 (wordIndex (engine before) - REWIND_COUNT)).

(** The last position a Stop can save for a sequence of [n] words. *)
Definition last_saved_index (n : Z) : Z := Z.max 0 (n - 1 - REWIND_COUNT).

(** ** The controller: App, its library and the key-value store

    The state cells of [App] and the [idb-keyval] store [db] are one record
    [App]; each handler is carried out as a whole, its [await]ed store
    operations taken to succeed. *)

Module Controller.

Record BookMeta := mkBook {
  id : string;
  title : string;
  wordCount : Z;
  progressIndex : Z;
  dateAdded : Z;
  themeColor : option string
}.

Inductive ViewState := ONBOARDING | LIBRARY | READER.

(** What the store holds under a key. *)
Inductive Value :=
| VSettings (s : AppSettings)
| VBool (b : bool)
| VLibrary (books : list BookMeta)
| VWords (words : list string).

(** The store, most recently set key first, each key at most once. *)
Definition Store := list (string * Value).

Definition db_del (key : string) (db : Store) : Store :=
  filter (fun kv => negb (String.eqb (fst kv) key)) db.

Definition db_set (key : string) (v : Value) (db : Store) : Store :=
  (key, v) :: db_del key db.

Definition db_get (key : string) (db : Store) : option Value :=
  match find (fun kv => String.eqb (fst kv) key) db with
  | Some kv => Some (snd kv)
  | None => None
  end.

(** The key [`content_${id}`]. *)
Definition content_key (id : string) : string := ("content_" ++ id)%string.

Record App := mkApp {
  view : ViewState;
  library : list BookMeta;
  activeBookId : option string;
  activeWords : list string;
  loading : bool;
  settings : AppSettings;
  db : Store
}.

Definition setView v (a : App) :=
  mkApp v (library a) (activeBookId a) (activeWords a) (loading a)
    (settings a) (db a).
Definition setLibrary l (a : App) :=
  mkApp (view a) l (activeBookId a) (activeWords a) (loading a)
    (settings a) (db a).
Definition setActiveBookId i (a : App) :=
  mkApp (view a) (library a) i (activeWords a) (loading a)
    (settings a) (db a).
Definition setActiveWords w (a : App) :=
  mkApp (view a) (library a) (activeBookId a) w (loading a)
    (settings a) (db a).
Definition with_db d (a : App) :=
  mkApp (view a) (library a) (activeBookId a) (activeWords a) (loading a)
    (settings a) d.

(** [{ ...b, progressIndex: index }]. *)
Definition with_progressIndex (index : Z) (b : BookMeta) : BookMeta :=
  mkBook (id b) (title b) (wordCount b) index (dateAdded b) (themeColor b).

(** [handleOnboardingComplete]. *)
Definition handleOnboardingComplete (a : App) : App :=
  let a := with_db (db_set "has_visited" (VBool true) (db a)) a in
  setView LIBRARY a.

(** [handleUpdateProgress(id, index)]. *)
Definition handleUpdateProgress (i : string) (index : Z) (a : App) : App :=
  let prev := library a in
  let next :=
    map (fun b => if String.eqb (id b) i then with_progressIndex index b else b)
      prev in
  let a := with_db (db_set "library" (VLibrary next) (db a)) a in
  setLibrary next a.

(** [handleDelete(id)]; [confirmed] is the answer to [confirm(...)]. *)
Definition handleDelete (confirmed : bool) (i : string) (a : App) : App :=
  if negb confirmed then a
  else
    let newLib := filter (fun b => negb (String.eqb (id b) i)) (library a) in
    let a := setLibrary newLib a in
    let a := with_db (db_set "library" (VLibrary newLib) (db a)) a in
    with_db (db_del (content_key i) (db a)) a.

(** [handleSelectBook(book)]; the alert of the other branch shows nothing
    in the state. *)
Definition handleSelectBook (book : BookMeta) (a : App) : App :=
  match db_get (content_key (id book)) (db a) with
  | Some (VWords words) =>
      let a := setActiveWords words a in
      let a := setActiveBookId (Some (id book)) a in
      setView READER a
  | _ => a
  end.

(** The [onBack] prop of the reader. *)
Definition onBack (a : App) : App := setView LIBRARY a.

(** The props [book] and [words] that [App] renders [ReaderView] with:
    none unless the view is the reader, an active book id is set and not
    empty, and the library has a book with that id. *)
Definition reader_props (a : App) : option (BookMeta * list string) :=
  match view a, activeBookId a with
  | READER, Some i =>
      if (String.length i =? 0)%nat then None
      else
        match find (fun b => String.eqb (id b) i) (library a) with
        | Some book => Some (book, activeWords a)
        | None => None
        end
  | _, _ => None
  end.

(** The reader as [ReaderView] first renders it for these props. *)
Definition open_reader (a : App) : option Reader :=
  match reader_props a with
  | Some (book, _) => Some (initial_reader (progressIndex book))
  | None => None
  end.

(** The calls of [onUpdateProgress] a reader made, handed to
    [handleUpdateProgress] in their order. *)
Definition deliver (calls : list (string * Z)) (a : App) : App :=
  fold_left (fun acc call => handleUpdateProgress (fst call) (snd call) acc)
    calls a.

(** The stored copy of the library is the one on screen. *)
Definition library_saved (a : App) : Prop :=
  db_get "library" (db a) = Some (VLibrary (library a)).

(** The book of the library with the given id, as [Array.find] sees it. *)
Definition find_book (i : string) (books : list BookMeta) : option BookMeta :=
  find (fun b => String.eqb (id b) i) books.

(** The progress update of [handleUpdateProgress] on one book. *)
Definition with_progress (i : string) (index : Z) (b : BookMeta) : BookMeta :=
  if String.eqb (id b) i then with_progressIndex index b else b.

(** The index of the last of a list of calls, [start] if there is none. *)
Definition last_index (calls : list (string * Z)) (start : Z) : Z :=
  fold_left (fun _ call => snd call) calls start.

(** A library of two books with their contents in the store, the reader
    open on the first. *)
Definition sample_library : list BookMeta :=
  [mkBook "demo" "Neuromancer (Excerpt)" 15 0 0
     (Some "from-cyan-900 to-slate-900"%string);
   mkBook "book_1_0" "Notes" 3 2 5 None].

Definition sample_store : Store :=
  [("library"%string, VLibrary sample_library);
   ("content_demo"%string, VWords sample_words);
   ("content_book_1_0"%string, VWords ["a"; "b"; "c"]%string)].

Definition sample_app : App :=
  mkApp READER sample_library (Some "demo"%string) sample_words false
    sample_settings sample_store.

End Controller.

(** ** getRandomGradient

    The hash is computed on integers: [hash << 5] wraps to 32 bits, the
    subtraction and the addition around it do not. *)

Definition ToInt32 (x : Z) : Z := (x + 2 ^ 31) mod 2 ^ 32 - 2 ^ 31.

(** [x << n] for a shift count below 32. *)
Definition shiftLeft (x n : Z) : Z := ToInt32 (ToInt32 x * 2 ^ n).

(** [s.charCodeAt(i)] for each index in turn. *)
Definition charCodes (s : string) : list Z :=
  map (fun c => Z.of_nat (nat_of_ascii c)) (list_ascii_of_string s).

Definition colors : list string :=
  ["from-blue-900 to-slate-900";
   "from-emerald-900 to-slate-900";
   "from-purple-900 to-slate-900";
   "from-rose-900 to-slate-900";
   "from-amber-900 to-slate-900";
   "from-cyan-900 to-slate-900"]%string.

(** One turn of the loop: [hash = id.charCodeAt(i) + ((hash << 5) - hash)]. *)
Definition hash_step (hash code : Z) : Z := code + (shiftLeft hash 5 - hash).

Definition hash_of (id : string) : Z := fold_left hash_step (charCodes id) 0.

(** [None] is [undefined]. *)
Definition getRandomGradient (id : string) : option string :=
  let hash := hash_of id in
  JS.index colors (Z.rem (Z.abs hash) (Z.of_nat (List.length colors))).

(** ** cleanText

    A text is the string of its code units below 256, so that the class
    [\s] is tab, line feed, vertical tab, form feed, carriage return, space
    and no-break space. *)

Definition is_space (c : ascii) : bool :=
  let n := nat_of_ascii c in
  ((9 <=? n) && (n <=? 13))%nat || (n =? 32)%nat || (n =? 160)%nat.

Definition lt_sign : ascii := "<"%char.
Definition gt_sign : ascii := ">"%char.
Definition line_feed : ascii := ascii_of_nat 10.

(** Is there a [>] in the string? *)
Fixpoint has_gt (s : string) : bool :=
  match s with
  | EmptyString => false
  | String c rest => Ascii.eqb c gt_sign || has_gt rest
  end.

(** [s.replace(/<[^>]*>/g, ' ')], scanning from the left.  Outside a match,
    a [<] starts one exactly when a [>] follows somewhere; the match then
    runs to the first [>] and is replaced by one space. *)
Fixpoint replace_tags_from (in_tag : bool) (s : string) : string :=
  match s with
  | EmptyString => EmptyString
  | String c rest =>
      if in_tag then
        if Ascii.eqb c gt_sign
        then String " " (replace_tags_from false rest)
        else replace_tags_from true rest
      else if Ascii.eqb c lt_sign && has_gt rest
      then replace_tags_from true rest
      else String c (replace_tags_from false rest)
  end.

Definition replace_tags (s : string) : string := replace_tags_from false s.

(** [s.replace(/\n/g, ' \n ')]. *)
Fixpoint replace_newlines (s : string) : string :=
  match s with
  | EmptyString => EmptyString
  | String c rest =>
      if Ascii.eqb c line_feed
      then String " " (String line_feed (String " " (replace_newlines rest)))
      else String c (replace_newlines rest)
  end.

(** [s.split(/\s+/)]: the pieces between the maximal runs of white space,
    an empty piece before a leading run and after a trailing one.  [piece]
    holds the piece being read, last character first; [in_run] tells that
    the last character was white space. *)
Fixpoint split_from (piece : list ascii) (in_run : bool) (s : string)
  : list string :=
  match s with
  | EmptyString => [string_of_list_ascii (rev piece)]
  | String c rest =>
      if is_space c then
        if in_run then split_from [] true rest
        else string_of_list_ascii (rev piece) :: split_from [] true rest
      else split_from (c :: piece) false rest
  end.

Definition split_spaces (s : string) : list string := split_from [] false s.

Definition cleanText (text : string) : list string :=
  let stripped := replace_tags text in
  let lines := replace_newlines stripped in
  filter (fun w => (0 <? String.length w)%nat) (split_spaces lines).

(** A [<] with a [>] somewhere after it. *)
Fixpoint has_tag (s : string) : bool :=
  match s with
  | EmptyString => false
  | String c rest => (Ascii.eqb c lt_sign && has_gt rest) || has_tag rest
  end.

(** The characters of a string that are not white space. *)
Definition visible (s : string) : list ascii :=
  filter (fun c => negb (is_space c)) (list_ascii_of_string s).

(** ** renderWord

    The element [renderWord] returns, by what it shows: one span with the
    word, or the two spans of the fixation anchor. *)

Inductive Element :=
| Span (color : string) (dimmed : bool) (text : string)
| Anchored (color : string) (boldPart lightPart : string).

(** [s.slice(0, k)] and [s.slice(k)] for [0 <= k]. *)
Definition slice_to (k : nat) (s : string) : string :=
  string_of_list_ascii (firstn k (list_ascii_of_string s)).
Definition slice_from (k : nat) (s : string) : string :=
  string_of_list_ascii (skipn k (list_ascii_of_string s)).

(** [/^[A-Z]/.test(word)]. *)
Definition starts_with_capital (word : string) : bool :=
  match word with
  | EmptyString => false
  | String c _ =>
      let n := nat_of_ascii c in ((65 <=? n) && (n <=? 90))%nat
  end.

(** [/[.?!]$/.test(prevWord)]; [undefined] is tested as the string
    ["undefined"]. *)
Definition ends_sentence (prevWord : option string) : bool :=
  match prevWord with
  | None => false
  | Some w => JS.includes ["."; "?"; "!"]%string (JS.slice_last w)
  end.

(** [Math.ceil(n / 2)] for a length [n]. *)
Definition half_up (n : nat) : nat := Nat.div2 (S n).

Definition renderWord (settings : AppSettings) (words : list string)
    (word : option string) (index : Z) (isFocused : bool) : option Element :=
  match word with
  | None => None
  | Some EmptyString => None
  | Some word =>
      let mainColor :=
        if fixation settings && isFocused
        then
          if starts_with_capital word && (0 <? index)
          then
            let prevWord := JS.index words (index - 1) in
            if negb (ends_sentence prevWord)
            then "text-cyan-600"%string else "text-stone-900"%string
          else "text-stone-900"%string
        else "text-stone-900"%string in
      if negb (fixation settings) || negb isFocused
      then Some (Span mainColor (negb isFocused) word)
      else
        let splitIndex := half_up (String.length word) in
        let boldPart := slice_to splitIndex word in
        let lightPart := slice_from splitIndex word in
        Some (Anchored mainColor boldPart lightPart)
  end.

(** The text an element shows. *)
Definition shown (e : Element) : string :=
  match e with
  | Span _ _ text => text
  | Anchored _ boldPart lightPart => (boldPart ++ lightPart)%string
  end.

(** ** Importing files and opening the vault

    [parseFile] reads a file and unpacks archives, which stays outside the
    model: what it returned for a file is given, with the two readings of
    [Date.now()] taken for that file. *)

Module Vault.

Import Controller.

Record ImportedFile := mkFile {
  parsed : option (string * list string);  (* [None]: [parseFile] threw *)
  id_clock : Z;
  added_clock : Z
}.

(** A number in a template string. *)
Definition number_to_string (n : Z) : string :=
  DecimalString.NilZero.string_of_int (Z.to_int n).

(** The id [`book_${Date.now()}_${i}`]. *)
Definition new_book_id (now : Z) (i : nat) : string :=
  ("book_" ++ number_to_string now ++ "_"
   ++ DecimalString.NilZero.string_of_uint (Nat.to_uint i))%string.

(** [title || 'Untitled']. *)
Definition title_or_untitled (t : string) : string :=
  match t with
  | EmptyString => "Untitled"%string
  | _ => t
  end.

Definition new_book (f : ImportedFile) (i : nat) (t : string)
    (words : list string) : BookMeta :=
  let id := new_book_id (id_clock f) i in
  mkBook id (title_or_untitled t) (Z.of_nat (List.length words)) 0
    (added_clock f) (getRandomGradient id).

(** The loop of [handleImport], from the file of index [i] on. *)
Fixpoint import_from (i : nat) (files : list ImportedFile)
    (newBooks : list BookMeta) (store : Store) : list BookMeta * Store :=
  match files with
  | [] => (newBooks, store)
  | f :: rest =>
      match parsed f with
      | Some (t, words) =>
          let meta := new_book f i t words in
          let store := db_set (content_key (id meta)) (VWords words) store in
          import_from (S i) rest (newBooks ++ [meta]) store
      | None => import_from (S i) rest newBooks store
      end
  end.

(** [handleImport(files)]. *)
Definition handleImport (files : list ImportedFile) (a : App) : App :=
  let '(newBooks, store) := import_from 0 files (library a) (db a) in
  let a := with_db (db_set "library" (VLibrary newBooks) store) a in
  setLibrary newBooks a.

(** The books the loop adds, from the file of index [i] on. *)
Fixpoint imported_from (i : nat) (files : list ImportedFile) : list BookMeta :=
  match files with
  | [] => []
  | f :: rest =>
      match parsed f with
      | Some (t, words) => new_book f i t words :: imported_from (S i) rest
      | None => imported_from (S i) rest
      end
  end.

(** The state [App] starts from, over a given store. *)
Definition initial_app (store : Store) : App :=
  mkApp LIBRARY [] None [] true (mkSettings true true true true false) store.

Definition demo_book (demoWords : list string) (now : Z) : BookMeta :=
  mkBook "demo" "Neuromancer (Excerpt)" (Z.of_nat (List.length demoWords)) 0
    now (Some "from-cyan-900 to-slate-900"%string).

(** The effect that loads the settings and the library; [DEMO_TEXT] is the
    constant of constants.ts, [now] the reading of [Date.now()]. *)
Definition init (DEMO_TEXT : string) (now : Z) (a : App) : App :=
  let a :=
    match db_get "user_settings" (db a) with
    | Some (VSettings saved) =>
        mkApp (view a) (library a) (activeBookId a) (activeWords a)
          (loading a) saved (db a)
    | _ => a
    end in
  let a :=
    match db_get "has_visited" (db a) with
    | Some (VBool true) => a
    | _ => setView ONBOARDING a
    end in
  let storedLib :=
    match db_get "library" (db a) with
    | Some (VLibrary books) => Some books
    | _ => None
    end in
  let a :=
    match storedLib with
    | Some books => setLibrary books a
    | None => a
    end in
  let a :=
    match storedLib with
    | Some (_ :: _) => a
    | _ =>
        let demoWords := cleanText DEMO_TEXT in
        let demoBook := demo_book demoWords now in
        let a := with_db (db_set "library" (VLibrary [demoBook]) (db a)) a in
        let a := with_db (db_set "content_demo" (VWords demoWords) (db a)) a in
        setLibrary [demoBook] a
    end in
  mkApp (view a) (library a) (activeBookId a) (activeWords a) false
    (settings a) (db a).

End Vault.

(** ** When the auto-rev can engage *)

(** While playing, either a drag is under way or the target is the cruise
    setpoint: the auto-rev block has nothing to do. *)
Definition no_rev_pending (r : Reader) : Prop :=
  isPlaying (engine r) = true ->
  isDragging (engine r) = true
  \/ targetWPM (engine r) = dragStartWPM (engine r).

(** The time since the last drag from which [revProgress] is at least
    0.99: the delay and 99 hundredths of the duration. *)
Definition rev_complete_after : Q :=
  (inject_Z AUTO_REV_DELAY_MS + 0.99 * inject_Z AUTO_REV_DURATION_MS)%Q.

(** ** Proof automation for the case analysis of a frame *)

(** Reduce the field accesses on the records the operations build. *)
Ltac fields :=
  unfold set_isPlaying, set_startTime, set_accumulatedTime, set_lastFrameTime,
    set_wordIndex, set_targetWPM, set_currentWPM, set_isDragging,
    set_lastDragTime, set_dragStartWPM, with_engine, with_dragRef,
    setWordIndex, setIsPlaying, setDisplayWPM, setFontSize, setIsBraking,
    onUpdateProgress in *;
  cbn [engine dragRef ui_wordIndex ui_isPlaying showSettings displayWPM
       fontSize isBraking progressCalls isPlaying startTime accumulatedTime
       lastFrameTime wordIndex targetWPM currentWPM isDragging lastDragTime
       dragStartWPM startX startY startWPM startFontSize fst snd] in *.

(** Evaluate the operations on a reader given by its fields: assignments
    are carried out innermost first, so that no record is copied. *)
Ltac evaluate :=
  cbv beta iota zeta delta
    [loop stopPlayback startPlayback msForThisWord rampEase deltaTime idle
     effectiveTarget
     set_isPlaying set_startTime set_accumulatedTime set_lastFrameTime
     set_wordIndex set_targetWPM set_currentWPM set_isDragging
     set_lastDragTime set_dragStartWPM with_engine with_dragRef
     setWordIndex setIsPlaying setDisplayWPM setFontSize setIsBraking
     onUpdateProgress
     engine dragRef ui_wordIndex ui_isPlaying showSettings displayWPM
     fontSize isBraking progressCalls isPlaying startTime accumulatedTime
     lastFrameTime wordIndex targetWPM currentWPM isDragging lastDragTime
     dragStartWPM].

(** Split on every test that is left. *)
Ltac branches :=
  repeat match goal with
         | |- context [if ?c then _ else _] => destruct c eqn:?; evaluate
         end.

(** Name the fields of a reader. *)
Ltac open_reader r :=
  let e := fresh "e" in
  destruct r as [e ? ? ? ? ? ? ? ?]; destruct e;
  cbn [engine isPlaying startTime accumulatedTime lastFrameTime wordIndex
       targetWPM currentWPM isDragging lastDragTime dragStartWPM
       progressCalls] in *.

(** The auto-rev block of the frame at hand, with what it keeps. *)
Ltac auto_rev_result A :=
  match goal with
  | |- context [autoRevBlock ?s ?t ?e] =>
      let eff := fresh "eff" in
      let e' := fresh "e'" in
      specialize (A e);
      destruct (autoRevBlock s t e) as [eff e'];
      destruct e'; cbn [fst snd isPlaying startTime accumulatedTime
                        lastFrameTime wordIndex targetWPM currentWPM
                        isDragging lastDragTime dragStartWPM] in A;
      destruct A as (? & ? & ? & ? & ? & ? & ? & ? & ? & ?); subst; evaluate
  end.

(** ** Properties of getWordWeight *)

Section CadenceFacts.

Import CadenceSpec.

Lemma in_class_spec (c : ascii) :
  in_class c = is_letter c || is_digit c || is_sentence_end c || is_pause c.
Proof. destruct c as [[] [] [] [] [] [] [] []]; reflexivity. Qed.

Lemma replace_not_in_length (token : string) :
  String.length (JS.replace_not_in in_class token)
  = List.length (stripped token).
Proof.
  unfold stripped.
  induction token as [|c rest IH]; simpl; [reflexivity|].
  rewrite <- in_class_spec.
  destruct (in_class c); simpl; rewrite IH; reflexivity.
Qed.

Lemma slice_last_spec (token : string) :
  JS.slice_last token
  = match last_char token with
    | None => EmptyString
    | Some c => String c EmptyString
    end.
Proof.
  unfold last_char.
  induction token as [|c rest IH]; [reflexivity|].
  destruct rest as [|d rest']; [reflexivity|].
  change (JS.slice_last (String c (String d rest')))
    with (JS.slice_last (String d rest')).
  rewrite IH. reflexivity.
Qed.

Lemma includes_sentence_end (c : ascii) :
  JS.includes ["."; "!"; "?"]%string (String c EmptyString)
  = is_sentence_end c.
Proof. destruct c as [[] [] [] [] [] [] [] []]; reflexivity. Qed.

Lemma includes_pause (c : ascii) :
  JS.includes [","; ";"; ":"]%string (String c EmptyString) = is_pause c.
Proof. destruct c as [[] [] [] [] [] [] [] []]; reflexivity. Qed.

Lemma getWordWeight_refines (token : option string) :
  getWordWeight token = cadenceWeight token.
Proof.
  destruct token as [[|c rest]|]; [reflexivity| |reflexivity].
  unfold getWordWeight, cadenceWeight.
  rewrite slice_last_spec, replace_not_in_length.
  destruct (last_char (String c rest)) as [l|] eqn:Hl.
  - rewrite includes_sentence_end, includes_pause. reflexivity.
  - exfalso. unfold last_char in Hl. simpl in Hl.
    clear -Hl. revert c Hl.
    induction rest as [|d rest IH]; intros c Hl; simpl in Hl;
      [discriminate | eauto].
Qed.

End CadenceFacts.

(** C8. The cadence weight is a pure function of the token: 2.2 when the
    token's last character is one of [. ! ?], 1.5 when it is one of
    [, ; :], otherwise 0.8, 1.1 or 1.0 as the stripped form is shorter than
    4, longer than 8 or neither, and 1.0 for the empty or undefined token;
    with the five sample tokens of the specification. *)
Theorem getWordWeight_cadence :
  (forall token, getWordWeight token = CadenceSpec.cadenceWeight token)
  /\ getWordWeight None = 1%Q
  /\ getWordWeight (Some ""%string) = 1%Q
  /\ getWordWeight (Some "Hello."%string) = 2.2%Q
  /\ getWordWeight (Some "cat,"%string) = 1.5%Q
  /\ getWordWeight (Some "the"%string) = 0.8%Q
  /\ getWordWeight (Some "information"%string) = 1.1%Q
  /\ getWordWeight (Some "table"%string) = 1%Q.
Proof.
  split; [exact getWordWeight_refines|].
  repeat split; reflexivity.
Qed.

(** ** Properties of Stop *)

Section StopFacts.

Variable book_id : string.
Variable words : list string.
Variable settings : AppSettings.

Lemma stopPlayback_stopped (r : Reader) :
  isPlaying (engine r) = false -> stopPlayback book_id r = r.
Proof. intros H. unfold stopPlayback. rewrite H. reflexivity. Qed.

Lemma stopPlayback_playing (r : Reader) :
  isPlaying (engine r) = true ->
  let newIndex := Z.max 0 (wordIndex (engine r) - REWIND_COUNT) in
  stopPlayback book_id r
  = setIsPlaying false
      (onUpdateProgress book_id newIndex
         (setWordIndex newIndex
            (with_engine
               (set_wordIndex newIndex (set_isPlaying false (engine r))) r))).
Proof. intros H. unfold stopPlayback. rewrite H. reflexivity. Qed.

Lemma stopPlayback_not_playing (r : Reader) :
  isPlaying (engine (stopPlayback book_id r)) = false.
Proof.
  destruct (isPlaying (engine r)) eqn:H.
  - rewrite stopPlayback_playing by assumption. reflexivity.
  - rewrite stopPlayback_stopped; assumption.
Qed.

(** Stop touches neither of the two timing fields. *)
Lemma stopPlayback_timing (r : Reader) :
  accumulatedTime (engine (stopPlayback book_id r)) = accumulatedTime (engine r)
  /\ lastFrameTime (engine (stopPlayback book_id r)) = lastFrameTime (engine r)
  /\ startTime (engine (stopPlayback book_id r)) = startTime (engine r).
Proof.
  unfold stopPlayback. destruct (isPlaying (engine r)); simpl; auto.
Qed.

(** What a Start writes. *)
Lemma startPlayback_fields (now x y : Q) (r : Reader) :
  let r' := startPlayback words now x y r in
  isPlaying (engine r') = true
  /\ startTime (engine r') = now
  /\ lastFrameTime (engine r') = now
  /\ accumulatedTime (engine r') = 0%Q
  /\ targetWPM (engine r') = targetWPM (engine r)
  /\ dragStartWPM (engine r') = targetWPM (engine r)
  /\ wordIndex (engine r')
     = (if words_length words - 1 <=? wordIndex (engine r)
        then 0 else wordIndex (engine r))
  /\ dragRef r' = Some (mkDrag x y (targetWPM (engine r)) (fontSize r)).
Proof.
  open_reader r. evaluate.
  destruct (words_length words - 1 <=? wordIndex0); repeat split.
Qed.

(** A frame on a stopped reader, whatever its timestamp. *)
Lemma loop_stopped (t : Q) (r : Reader) :
  isPlaying (engine r) = false ->
  loop book_id words settings t r
  = setIsBraking false
      (setDisplayWPM (targetWPM (engine r))
         (with_engine (set_currentWPM 0 (set_lastFrameTime 0%Q (engine r))) r)).
Proof.
  intros H. open_reader r. subst. evaluate.
  destruct (JS.falsy lastFrameTime0); reflexivity.
Qed.

End StopFacts.

(** C6. Stop is idempotent: on a stopped reader it changes nothing (no
    field of the engine, no call of the progress callback), so two Stops
    in succession leave the reader as one Stop does. *)
Theorem stopPlayback_idempotent (book_id : string) (r : Reader) :
  (isPlaying (engine r) = false ->
   stopPlayback book_id r = r
   /\ progressCalls (stopPlayback book_id r) = progressCalls r)
  /\ stopPlayback book_id (stopPlayback book_id r) = stopPlayback book_id r.
Proof.
  split.
  - intros H. rewrite stopPlayback_stopped by assumption. split; reflexivity.
  - apply stopPlayback_stopped, stopPlayback_not_playing.
Qed.

Lemma stopPlayback_idempotent_witness :
  let r := stopPlayback sample_book sample_playing in
  isPlaying (engine r) = false
  /\ stopPlayback sample_book r = r
  /\ progressCalls r = [(sample_book, 4)]
  /\ stopPlayback sample_book (stopPlayback sample_book sample_playing) = r.
Proof.
  pose proof (stopPlayback_idempotent sample_book
                (stopPlayback sample_book sample_playing)) as [H _].
  pose proof (stopPlayback_idempotent sample_book sample_playing) as [_ H2].
  specialize (H eq_refl). destruct H as [H1 _].
  intros r. split; [reflexivity|].
  split; [exact H1|]. split; [reflexivity | exact H2].
Defined.

(** C3, as the claim states it, fails: Stop on a playing reader with 75 ms
    accumulated and the last frame at 5000 ms leaves both values in place. *)
Lemma stopPlayback_resets_timing_counterexample :
  isPlaying (engine sample_playing) = true
  /\ accumulatedTime (engine (stopPlayback sample_book sample_playing)) = 75%Q
  /\ lastFrameTime (engine (stopPlayback sample_book sample_playing)) = 5000%Q
  /\ ~ (accumulatedTime (engine (stopPlayback sample_book sample_playing)) == 0
        /\ lastFrameTime (engine (stopPlayback sample_book sample_playing)) == 0)%Q.
Proof.
  repeat split. intros [H _]. vm_compute in H. discriminate.
Qed.

(** C3, amended. Stop leaves [accumulatedTime] and [lastFrameTime] as they
    are; the residue is cleared later: the next frame of a stopped reader
    sets [lastFrameTime] to 0, and the next Start sets [accumulatedTime] to
    0 and [lastFrameTime] to the time of the Start. *)
Theorem stopPlayback_keeps_timing
    (book_id : string) (words : list string) (settings : AppSettings)
    (r : Reader) :
  let stopped := stopPlayback book_id r in
  accumulatedTime (engine stopped) = accumulatedTime (engine r)
  /\ lastFrameTime (engine stopped) = lastFrameTime (engine r)
  /\ (forall t, lastFrameTime (engine (loop book_id words settings t stopped)) = 0%Q)
  /\ (forall now x y,
        accumulatedTime (engine (startPlayback words now x y stopped)) = 0%Q
        /\ lastFrameTime (engine (startPlayback words now x y stopped)) = now).
Proof.
  intros stopped.
  destruct (stopPlayback_timing book_id r) as (Ha & Hl & _).
  split; [exact Ha|]. split; [exact Hl|]. split.
  - intros t. unfold stopped.
    rewrite loop_stopped by apply stopPlayback_not_playing. reflexivity.
  - intros now x y.
    destruct (startPlayback_fields words now x y stopped)
      as (_ & _ & Hlast & Hacc & _).
    split; assumption.
Qed.

(** ** Case analysis of a frame *)

Section FrameFacts.

Variable book_id : string.
Variable words : list string.
Variable settings : AppSettings.

(** The block changes [targetWPM] at most. *)
Lemma autoRevBlock_frame (t : Q) (e : Engine) :
  let e' := snd (autoRevBlock settings t e) in
  isPlaying e' = isPlaying e /\ startTime e' = startTime e
  /\ accumulatedTime e' = accumulatedTime e
  /\ lastFrameTime e' = lastFrameTime e /\ wordIndex e' = wordIndex e
  /\ currentWPM e' = currentWPM e /\ isDragging e' = isDragging e
  /\ lastDragTime e' = lastDragTime e /\ dragStartWPM e' = dragStartWPM e
  /\ (targetWPM e' = targetWPM e \/ targetWPM e' = dragStartWPM e).
Proof.
  unfold autoRevBlock.
  repeat match goal with
         | |- context [if ?c then _ else _] => destruct c
         end; cbn [snd]; unfold set_targetWPM;
    cbn [isPlaying startTime accumulatedTime lastFrameTime wordIndex
         targetWPM currentWPM isDragging lastDragTime dragStartWPM];
    repeat split; auto.
Qed.

(** A frame that finds the reader playing either leaves it playing,
    without a call of the progress callback and with the word index kept
    or advanced by one, or stops it through [stopPlayback]. *)
Lemma loop_playing_cases (t : Q) (r : Reader) :
  isPlaying (engine r) = true ->
  let r' := loop book_id words settings t r in
  (isPlaying (engine r') = true
   /\ progressCalls r' = progressCalls r
   /\ (wordIndex (engine r') = wordIndex (engine r)
       \/ (wordIndex (engine r') = wordIndex (engine r) + 1
           /\ wordIndex (engine r) + 1 < words_length words)))
  \/ (isPlaying (engine r') = false
      /\ words_length words <= wordIndex (engine r) + 1
      /\ wordIndex (engine r')
         = Z.max 0 (wordIndex (engine r) - REWIND_COUNT)
      /\ progressCalls r'
         = progressCalls r
             ++ [(book_id, Z.max 0 (wordIndex (engine r) - REWIND_COUNT))]).
Proof.
  intros H r'. subst r'. open_reader r. subst. evaluate.
  pose proof (autoRevBlock_frame t) as A.
  destruct (JS.falsy lastFrameTime0); evaluate; auto_rev_result A;
    branches.
  all: try (left; repeat split; auto; fail).
  all: try (right; repeat split; auto;
            match goal with H : (_ <=? _) = true |- _ =>
              apply Z.leb_le in H; exact H end).
  all: left; repeat split; auto; right; split; auto;
    match goal with H : (_ <=? _) = false |- _ =>
      apply Z.leb_gt in H; lia end.
Qed.

End FrameFacts.

(** C5. Every Stop that takes effect, the explicit one and the one a frame
    triggers at the end of the word sequence, sets [isPlaying] to false,
    rewinds [wordIndex] to [max 0 (wordIndex - REWIND_COUNT)] and calls the
    progress callback exactly once, with the book id and the rewound index;
    a frame that does not stop calls nothing. *)
Theorem stop_transition_effect
    (book_id : string) (words : list string) (settings : AppSettings)
    (r : Reader) :
  isPlaying (engine r) = true ->
  let rewound := Z.max 0 (wordIndex (engine r) - REWIND_COUNT) in
  (let r' := stopPlayback book_id r in
   isPlaying (engine r') = false
   /\ wordIndex (engine r') = rewound
   /\ progressCalls r' = progressCalls r ++ [(book_id, rewound)])
  /\ (forall t,
        let r' := loop book_id words settings t r in
        (isPlaying (engine r') = false ->
         wordIndex (engine r') = rewound
         /\ progressCalls r' = progressCalls r ++ [(book_id, rewound)])
        /\ (isPlaying (engine r') = true ->
            progressCalls r' = progressCalls r)).
Proof.
  intros H rewound. split.
  - rewrite stopPlayback_playing by assumption. fields. repeat split.
  - intros t r'.
    destruct (loop_playing_cases book_id words settings t r H)
      as [(Hp & Hc & _) | (Hp & _ & Hw & Hc)]; fold r' in Hp, Hc.
    + split; intros Hq; [congruence | assumption].
    + fold r' in Hw. split; intros Hq; [split; assumption | congruence].
Qed.

Lemma stop_transition_effect_witness :
  isPlaying (engine sample_at_end) = true
  /\ progressCalls (stopPlayback sample_book sample_at_end) = [(sample_book, 11)]
  /\ isPlaying
       (engine (loop sample_book sample_words sample_settings 5100 sample_at_end))
     = false
  /\ wordIndex
       (engine (loop sample_book sample_words sample_settings 5100 sample_at_end))
     = 11
  /\ progressCalls
       (loop sample_book sample_words sample_settings 5100 sample_at_end)
     = [(sample_book, 11)].
Proof.
  pose proof (stop_transition_effect sample_book sample_words sample_settings
                sample_at_end eq_refl) as [(_ & _ & Hc) Hf].
  destruct (Hf 5100%Q) as [Hstop _].
  assert (Hq : isPlaying
                 (engine (loop sample_book sample_words sample_settings 5100
                            sample_at_end)) = false)
    by (vm_compute; reflexivity).
  destruct (Hstop Hq) as [Hw Hl].
  split; [reflexivity|]. split; [exact Hc|]. split; [exact Hq|].
  split; [exact Hw | exact Hl].
Defined.

(** C2, as the claim states it, fails: with 75 ms accumulated, a frame
    400 ms after the last one at 400 WPM has three whole dwells of 150 ms
    at hand, and advances one word only, leaving 325 ms accumulated. *)
Lemma loop_advances_per_dwell_counterexample :
  let r := sample_playing in
  let r' := loop sample_book sample_words sample_settings 5400 r in
  currentWPM (engine r') = 400
  /\ (msForThisWord sample_words sample_settings (engine r') == 150)%Q
  /\ wholeDwells (accumulatedTime (engine r) + deltaTime 5400 r) 150 = 3
  /\ wordIndex (engine r') = wordIndex (engine r) + 1
  /\ wordIndex (engine r')
     <> wordIndex (engine r)
        + wholeDwells (accumulatedTime (engine r) + deltaTime 5400 r) 150
  /\ (accumulatedTime (engine r') == 325)%Q.
Proof.
  vm_compute. repeat split; try reflexivity; discriminate.
Qed.

(** C2, amended. One frame advances [wordIndex] at most once. In a frame
    with [currentWPM > 0] the time of the frame is added to
    [accumulatedTime]; when the sum holds at least one dwell of the current
    word, exactly one dwell is subtracted and the index moves by exactly
    one, or playback stops when that was the last word; what remains, whole
    dwells included, stays in [accumulatedTime] for later frames. When the
    sum holds no whole dwell it is kept and the index does not move, and a
    frame with no speed leaves both as they were. An index that moved by
    one tells that the dwell was due and was subtracted. *)
Theorem loop_advances_at_most_once
    (book_id : string) (words : list string) (settings : AppSettings)
    (t : Q) (r : Reader) :
  let r' := loop book_id words settings t r in
  let dwell :=
    msForThisWord words settings
      (set_currentWPM (currentWPM (engine r')) (engine r)) in
  let total := (accumulatedTime (engine r) + deltaTime t r)%Q in
  wordIndex (engine r') <= wordIndex (engine r) + 1
  /\ (wordIndex (engine r') = wordIndex (engine r) + 1 ->
      0 < currentWPM (engine r')
      /\ (dwell <= total)%Q
      /\ accumulatedTime (engine r') = (total - dwell)%Q)
  /\ (0 < currentWPM (engine r') -> (dwell <= total)%Q ->
      isPlaying (engine r) = true
      /\ accumulatedTime (engine r') = (total - dwell)%Q
      /\ (wordIndex (engine r) + 1 < words_length words ->
          isPlaying (engine r') = true
          /\ wordIndex (engine r') = wordIndex (engine r) + 1)
      /\ (words_length words <= wordIndex (engine r) + 1 ->
          isPlaying (engine r') = false
          /\ wordIndex (engine r')
             = Z.max 0 (wordIndex (engine r) - REWIND_COUNT)))
  /\ (0 < currentWPM (engine r') -> ~ (dwell <= total)%Q ->
      isPlaying (engine r') = true
      /\ accumulatedTime (engine r') = total
      /\ wordIndex (engine r') = wordIndex (engine r))
  /\ (currentWPM (engine r') <= 0 ->
      accumulatedTime (engine r') = accumulatedTime (engine r)
      /\ wordIndex (engine r') = wordIndex (engine r)).
Proof.
  intros r' dwell total. subst r' dwell total.
  pose proof (autoRevBlock_frame settings t) as A.
  open_reader r. evaluate.
  destruct isPlaying0; destruct (JS.falsy lastFrameTime0); evaluate;
    try (repeat split; intros; try lia; fail);
    auto_rev_result A; branches.
  all: unfold REWIND_COUNT, words_length in *.
  all: repeat match goal with
         | H : (_ <=? _) = true |- _ => apply Z.leb_le in H
         | H : (_ <=? _) = false |- _ => apply Z.leb_gt in H
         | H : (_ <? _) = true |- _ => apply Z.ltb_lt in H
         | H : (_ <? _) = false |- _ => apply Z.ltb_ge in H
         | H : Qle_bool _ _ = true |- _ => apply Qle_bool_iff in H
         | H : Qle_bool ?x ?y = false |- _ =>
             assert (~ (x <= y)%Q)
               by (intros Hle; apply Qle_bool_iff in Hle; congruence);
             clear H
         end.
  all: repeat split; intros; auto; try lia; try contradiction.
Qed.

Lemma loop_advances_at_most_once_witness :
  let r' := loop sample_book sample_words sample_settings 5400 sample_playing in
  let e' := loop sample_book sample_words sample_settings 5100 sample_at_end in
  wordIndex (engine r') = wordIndex (engine sample_playing) + 1
  /\ isPlaying (engine r') = true
  /\ (accumulatedTime (engine r') == 325)%Q
  /\ isPlaying (engine e') = false
  /\ wordIndex (engine e') = 11
  /\ (accumulatedTime (engine e') == 50)%Q.
Proof.
  intros r' e'.
  destruct (loop_advances_at_most_once sample_book sample_words sample_settings
              5400 sample_playing) as (_ & _ & H & _).
  destruct H as (_ & Hacc & Hmove & _);
    [vm_compute; reflexivity | vm_compute; discriminate |].
  destruct Hmove as [Hp Hadv]; [vm_compute; reflexivity|].
  destruct (loop_advances_at_most_once sample_book sample_words sample_settings
              5100 sample_at_end) as (_ & _ & H & _).
  destruct H as (_ & Hacc' & _ & Hstop);
    [vm_compute; reflexivity | vm_compute; discriminate |].
  destruct Hstop as [Hp' Hw']; [vm_compute; discriminate|].
  fold r' in Hacc, Hp, Hadv. fold e' in Hacc', Hp', Hw'.
  split; [exact Hadv|]. split; [exact Hp|].
  split; [rewrite Hacc; vm_compute; reflexivity|].
  split; [exact Hp'|]. split; [exact Hw'|].
  rewrite Hacc'. vm_compute. reflexivity.
Defined.

(** ** The word index stays in range *)

Section IndexFacts.

Variable book_id : string.
Variable words : list string.
Variable settings : AppSettings.

Lemma startPlayback_index (now x y : Q) (r : Reader) :
  words <> [] -> wordIndex_in_range words r ->
  wordIndex_in_range words (startPlayback words now x y r).
Proof.
  unfold wordIndex_in_range. intros Hne Hr.
  destruct (startPlayback_fields words now x y r)
    as (_ & _ & _ & _ & _ & _ & Hw & _).
  rewrite Hw.
  destruct (Z.leb_spec (words_length words - 1) (wordIndex (engine r))); lia.
Qed.

Lemma stopPlayback_index (r : Reader) :
  wordIndex_in_range words r ->
  wordIndex_in_range words (stopPlayback book_id r).
Proof.
  unfold wordIndex_in_range. intros Hr.
  destruct (isPlaying (engine r)) eqn:Hp.
  - rewrite stopPlayback_playing by assumption. fields.
    unfold REWIND_COUNT. lia.
  - rewrite stopPlayback_stopped by assumption. exact Hr.
Qed.

Lemma loop_index (t : Q) (r : Reader) :
  wordIndex_in_range words r ->
  wordIndex_in_range words (loop book_id words settings t r).
Proof.
  unfold wordIndex_in_range. intros Hr.
  destruct (isPlaying (engine r)) eqn:Hp.
  - destruct (loop_playing_cases book_id words settings t r Hp)
      as [(_ & _ & [Hw | [Hw Hlt]]) | (_ & _ & Hw & _)];
      rewrite Hw; unfold REWIND_COUNT; lia.
  - rewrite loop_stopped by assumption. fields. exact Hr.
Qed.

Lemma handlePointerMove_index (now x y : Q) (r : Reader) :
  wordIndex (engine (handlePointerMove now x y r)) = wordIndex (engine r).
Proof.
  unfold handlePointerMove.
  destruct (dragRef r); [|reflexivity].
  destruct (negb (isPlaying (engine r))); [reflexivity|].
  destruct (JS.Qltb _ _); reflexivity.
Qed.

Lemma handlePointerUp_index (now : Q) (r : Reader) :
  wordIndex_in_range words r ->
  wordIndex_in_range words (handlePointerUp book_id settings now r).
Proof.
  intros Hr. unfold handlePointerUp.
  destruct (deadman settings);
    [apply stopPlayback_index in Hr|]; unfold wordIndex_in_range in *;
    fields; exact Hr.
Qed.

End IndexFacts.

Lemma step_index
    (book_id : string) (words : list string) (settings : AppSettings)
    (ev : event) (r : Reader) :
  words <> [] ->
  wordIndex_in_range words r ->
  wordIndex_in_range words (step book_id words settings ev r).
Proof.
  intros Hne Hr. destruct ev as [now x y| |t|now x y|now|now x y]; simpl.
  - apply startPlayback_index; assumption.
  - apply stopPlayback_index; assumption.
  - apply loop_index; assumption.
  - unfold handlePointerDown.
    destruct (showSettings r); [assumption|].
    destruct (deadman settings); [apply startPlayback_index; assumption|].
    destruct (isPlaying (engine r));
      [apply stopPlayback_index | apply startPlayback_index]; assumption.
  - apply handlePointerUp_index; assumption.
  - unfold wordIndex_in_range. rewrite handlePointerMove_index. exact Hr.
Qed.

(** C9. For a non-empty word sequence the invariant
    [0 <= wordIndex < wordCount] is kept by every operation of the engine:
    Start, Stop, a frame, and the three pointer handlers; hence by every
    sequence of them. *)
Theorem wordIndex_invariant
    (book_id : string) (words : list string) (settings : AppSettings)
    (r : Reader) :
  words <> [] ->
  wordIndex_in_range words r ->
  (forall ev, wordIndex_in_range words (step book_id words settings ev r))
  /\ (forall evs, wordIndex_in_range words (run book_id words settings evs r)).
Proof.
  intros Hne Hr. split.
  - intros ev. apply step_index; assumption.
  - intros evs. revert r Hr. unfold run.
    induction evs as [|ev evs IH]; intros r Hr; simpl; [exact Hr|].
    apply IH. apply step_index; assumption.
Qed.

Lemma wordIndex_invariant_witness :
  wordIndex_in_range sample_words sample_at_end
  /\ wordIndex_in_range sample_words
       (step sample_book sample_words sample_settings (Frame 5100) sample_at_end)
  /\ wordIndex_in_range sample_words
       (run sample_book sample_words sample_settings
          [Frame 5100; Start 9000 10 10; Frame 9016; PointerMove 9020 30 10;
           PointerUp 9500; Stop]
          sample_at_end).
Proof.
  assert (Hne : sample_words <> []) by discriminate.
  assert (Hr : wordIndex_in_range sample_words sample_at_end)
    by (unfold wordIndex_in_range; vm_compute; split; [discriminate | reflexivity]).
  destruct (wordIndex_invariant sample_book sample_words sample_settings
              sample_at_end Hne Hr) as [Hstep Hrun].
  split; [exact Hr|]. split; [apply Hstep | apply Hrun].
Defined.

(** ** Frames of a stopped reader *)

Section StoppedFacts.

Variable book_id : string.
Variable words : list string.
Variable settings : AppSettings.

Lemma frames_stopped (ts : list Q) (r : Reader) :
  isPlaying (engine r) = false ->
  frames book_id words settings ts r = r
  \/ frames book_id words settings ts r = idle r.
Proof.
  revert r. induction ts as [|t ts IH]; intros r H; [left; reflexivity|].
  simpl. rewrite loop_stopped by assumption. fold (idle r).
  destruct (IH (idle r) H) as [E | E]; rewrite E; right; reflexivity.
Qed.

(** A Start followed by a frame forgets what the idle frames wrote. *)
Lemma start_frame_after_idle (now x y t : Q) (r : Reader) :
  loop book_id words settings t (startPlayback words now x y (idle r))
  = loop book_id words settings t (startPlayback words now x y r).
Proof.
  open_reader r. evaluate.
  destruct (words_length words - 1 <=? wordIndex0);
    destruct (JS.falsy now); evaluate;
    unfold autoRevBlock; evaluate; rewrite Z.ltb_irrefl, andb_false_r;
    reflexivity.
Qed.

End StoppedFacts.

(** C10. A frame of a stopped reader leaves [wordIndex], [accumulatedTime],
    [targetWPM] and the cruise setpoint as they are and sets [lastFrameTime]
    and [currentWPM] to 0.  So the time that passes while stopped reaches
    neither [deltaTime] nor [accumulatedTime] after the next Start: the
    first frame after a Start gives the same reader whatever frames ran
    while stopped, and its [deltaTime] counts from the Start. *)
Theorem loop_while_stopped
    (book_id : string) (words : list string) (settings : AppSettings)
    (t : Q) (r : Reader) :
  isPlaying (engine r) = false ->
  let r' := loop book_id words settings t r in
  wordIndex (engine r') = wordIndex (engine r)
  /\ accumulatedTime (engine r') = accumulatedTime (engine r)
  /\ targetWPM (engine r') = targetWPM (engine r)
  /\ dragStartWPM (engine r') = dragStartWPM (engine r)
  /\ lastFrameTime (engine r') = 0%Q
  /\ currentWPM (engine r') = 0
  /\ isPlaying (engine r') = false
  /\ (forall idle_frames now x y t',
        let restarted :=
          startPlayback words now x y
            (frames book_id words settings idle_frames r) in
        loop book_id words settings t' restarted
        = loop book_id words settings t' (startPlayback words now x y r)
        /\ accumulatedTime (engine restarted) = 0%Q
        /\ (JS.falsy now = false -> deltaTime t' restarted = (t' - now)%Q)).
Proof.
  intros H r'. subst r'. rewrite loop_stopped by assumption. fields.
  do 7 (split; [first [reflexivity | assumption]|]).
  intros fs now x y t'.
  destruct (frames_stopped book_id words settings fs r H) as [E | E];
    rewrite E; clear E.
  - split; [reflexivity|].
    destruct (startPlayback_fields words now x y r)
      as (_ & _ & Hlast & Hacc & _).
    split; [exact Hacc|]. intros Hn. unfold deltaTime.
    rewrite Hlast, Hn. reflexivity.
  - rewrite start_frame_after_idle. split; [reflexivity|].
    destruct (startPlayback_fields words now x y (idle r))
      as (_ & _ & Hlast & Hacc & _).
    split; [exact Hacc|]. intros Hn. unfold deltaTime.
    rewrite Hlast, Hn. reflexivity.
Qed.

Lemma loop_while_stopped_witness :
  let r' := loop sample_book sample_words sample_settings 60000 sample_stopped in
  isPlaying (engine sample_stopped) = false
  /\ wordIndex (engine r') = 4
  /\ accumulatedTime (engine r') = 75%Q
  /\ lastFrameTime (engine r') = 0%Q
  /\ currentWPM (engine r') = 0
  /\ deltaTime 90016
       (startPlayback sample_words 90000 10 10
          (frames sample_book sample_words sample_settings [60000; 75000]%Q
             sample_stopped))
     = (90016 - 90000)%Q.
Proof.
  pose proof (loop_while_stopped sample_book sample_words sample_settings
                60000 sample_stopped eq_refl)
    as (Hw & Ha & _ & _ & Hl & Hc & _ & Hrest).
  destruct (Hrest [60000; 75000]%Q 90000%Q 10%Q 10%Q 90016%Q) as (_ & _ & Hd).
  intros r'. split; [reflexivity|].
  split; [exact Hw|]. split; [exact Ha|]. split; [exact Hl|].
  split; [exact Hc|]. exact (Hd eq_refl).
Defined.

(** ** The pointer mapper *)

Section MapperFacts.

Lemma Qfloor_unique (x : Q) (z : Z) :
  (inject_Z z <= x)%Q -> (x < inject_Z (z + 1))%Q -> Qfloor x = z.
Proof.
  intros Hlo Hhi.
  apply Qfloor_resp_le in Hlo. rewrite Qfloor_Z in Hlo.
  pose proof (Qfloor_le x) as Hf.
  assert (Hlt : (inject_Z (Qfloor x) < inject_Z (z + 1))%Q)
    by (eapply Qle_lt_trans; eassumption).
  rewrite <- Zlt_Qlt in Hlt. lia.
Qed.

Lemma Math_round_Z (x : Q) (z : Z) :
  (x == inject_Z z)%Q -> JS.Math_round x = z.
Proof.
  intros E. unfold JS.Math_round. rewrite E.
  apply Qfloor_unique; rewrite ?inject_Z_plus;
    change (inject_Z 1) with 1%Q; lra.
Qed.

(** The clamp of [handlePointerMove] on a value already in range. *)
Lemma clamp_WPM_in_range (x : Q) (z : Z) :
  (x == inject_Z z)%Q -> MIN_WPM <= z <= MAX_WPM ->
  (JS.Math_min (JS.Math_max x (inject_Z MIN_WPM)) (inject_Z MAX_WPM)
   == inject_Z z)%Q.
Proof.
  intros E [Hlo Hhi]. unfold JS.Math_min, JS.Math_max.
  rewrite Zle_Qle in Hlo, Hhi.
  rewrite Q.max_l by (rewrite E; exact Hlo).
  rewrite Q.min_l by (rewrite E; exact Hhi).
  exact E.
Qed.

(** What a drag-move does to the two speeds of a playing reader with an
    open drag session. *)
Lemma handlePointerMove_speeds (now x y : Q) (r : Reader) (d : DragSession) :
  dragRef r = Some d -> isPlaying (engine r) = true ->
  let newWPM :=
    JS.Math_min
      (JS.Math_max (inject_Z (startWPM d) + (x - startX d) * 2)%Q
         (inject_Z MIN_WPM)) (inject_Z MAX_WPM) in
  let r' := handlePointerMove now x y r in
  targetWPM (engine r') = JS.Math_round newWPM
  /\ dragStartWPM (engine r')
     = (if JS.Qltb (inject_Z (startWPM d)) newWPM
        then JS.Math_round newWPM else dragStartWPM (engine r))
  /\ dragRef r' = Some d
  /\ isPlaying (engine r') = true.
Proof.
  intros Hd Hp newWPM r'. subst r' newWPM. unfold handlePointerMove.
  rewrite Hd, Hp. fields.
  destruct (JS.Qltb _ _); fields; repeat split; assumption.
Qed.

(** The same, for a move that lands on the whole speed [z]. *)
Lemma handlePointerMove_to (now x y : Q) (r : Reader) (d : DragSession) (z : Z) :
  dragRef r = Some d -> isPlaying (engine r) = true ->
  (inject_Z (startWPM d) + (x - startX d) * 2 == inject_Z z)%Q ->
  MIN_WPM <= z <= MAX_WPM ->
  let r' := handlePointerMove now x y r in
  targetWPM (engine r') = z
  /\ dragStartWPM (engine r')
     = (if startWPM d <? z then z else dragStartWPM (engine r))
  /\ dragRef r' = Some d
  /\ isPlaying (engine r') = true.
Proof.
  intros Hd Hp E Hz.
  destruct (handlePointerMove_speeds now x y r d Hd Hp) as (Ht & Hc & Hrest).
  pose proof (clamp_WPM_in_range _ z E Hz) as Hclamp.
  rewrite (Math_round_Z _ z Hclamp) in Ht, Hc.
  split; [exact Ht|]. split; [|exact Hrest].
  rewrite Hc. unfold JS.Qltb. rewrite Hclamp.
  destruct (Z.ltb_spec (startWPM d) z) as [Hlt | Hge].
  - destruct (Qle_bool (inject_Z z) (inject_Z (startWPM d))) eqn:Hb;
      [|reflexivity].
    apply Qle_bool_iff in Hb. rewrite <- Zle_Qle in Hb. lia.
  - rewrite Zle_Qle in Hge. apply Qle_bool_iff in Hge. rewrite Hge.
    reflexivity.
Qed.

End MapperFacts.

(** C1, as the claim states it, fails: in the session started at 400 WPM
    with the pointer at x = 200, the move to x = 250 gives 500 and 500, and
    the move back to x = 220 gives the target 440 and the cruise setpoint
    440, not 500. *)
Lemma drag_session_cruise_counterexample :
  let r0 := initial_reader 0 in
  let r1 := startPlayback sample_words 1000 200 300 r0 in
  let r2 := handlePointerMove 1100 250 300 r1 in
  let r3 := handlePointerMove 1200 220 300 r2 in
  targetWPM (engine r0) = 400
  /\ targetWPM (engine r2) = 500 /\ dragStartWPM (engine r2) = 500
  /\ targetWPM (engine r3) = 440 /\ dragStartWPM (engine r3) = 440
  /\ ~ (targetWPM (engine r3) = 440 /\ dragStartWPM (engine r3) = 500).
Proof.
  vm_compute. repeat split; try reflexivity. intros [_ H]. discriminate.
Qed.

(** C1, amended. In a drag session started at [targetWPM] = 400, a move
    with dx = +50 sets the target and the cruise setpoint to 500, and a
    later move with net dx = +20 sets both to 440: the new speed is
    compared with the speed at the start of the session, and 440 exceeds
    400.  A move that ends at or below the starting speed brakes
    elastically: net dx = -30 sets the target to 340 and leaves the cruise
    setpoint at 500. *)
Theorem drag_session_speeds
    (words : list string) (now x0 y0 t1 y1 t2 y2 : Q) (r : Reader) :
  targetWPM (engine r) = 400 ->
  let r1 := startPlayback words now x0 y0 r in
  let r2 := handlePointerMove t1 (x0 + 50) y1 r1 in
  let r3 := handlePointerMove t2 (x0 + 20) y2 r2 in
  let r3' := handlePointerMove t2 (x0 - 30) y2 r2 in
  targetWPM (engine r2) = 500 /\ dragStartWPM (engine r2) = 500
  /\ targetWPM (engine r3) = 440 /\ dragStartWPM (engine r3) = 440
  /\ targetWPM (engine r3') = 340 /\ dragStartWPM (engine r3') = 500.
Proof.
  intros H. cbv zeta.
  set (d := mkDrag x0 y0 400 (fontSize r)).
  destruct (startPlayback_fields words now x0 y0 r)
    as (Hp1 & _ & _ & _ & _ & _ & _ & Hd1).
  rewrite H in Hd1. fold d in Hd1.
  generalize dependent (startPlayback words now x0 y0 r).
  intros r1 Hp1 Hd1.
  destruct (handlePointerMove_to t1 (x0 + 50) y1 r1 d 500 Hd1 Hp1)
    as (Ht2 & Hc2 & Hd2 & Hp2);
    [subst d; cbn [startWPM startX]; ring | unfold MIN_WPM, MAX_WPM; lia |].
  change (startWPM d <? 500) with true in Hc2. cbv iota in Hc2.
  generalize dependent (handlePointerMove t1 (x0 + 50) y1 r1).
  intros r2 Ht2 Hc2 Hd2 Hp2.
  destruct (handlePointerMove_to t2 (x0 + 20) y2 r2 d 440 Hd2 Hp2)
    as (Ht3 & Hc3 & _);
    [subst d; cbn [startWPM startX]; ring | unfold MIN_WPM, MAX_WPM; lia |].
  change (startWPM d <? 440) with true in Hc3. cbv iota in Hc3.
  destruct (handlePointerMove_to t2 (x0 - 30) y2 r2 d 340 Hd2 Hp2)
    as (Ht3' & Hc3' & _);
    [subst d; cbn [startWPM startX]; ring | unfold MIN_WPM, MAX_WPM; lia |].
  change (startWPM d <? 340) with false in Hc3'. cbv iota in Hc3'.
  repeat split; congruence.
Qed.

Lemma drag_session_speeds_witness :
  let r1 := startPlayback sample_words 1000 200 300 (initial_reader 0) in
  let r2 := handlePointerMove 1100 (200 + 50) 300 r1 in
  targetWPM (engine (initial_reader 0)) = 400
  /\ targetWPM (engine (handlePointerMove 1200 (200 + 20) 300 r2)) = 440
  /\ dragStartWPM (engine (handlePointerMove 1200 (200 + 20) 300 r2)) = 440
  /\ dragStartWPM (engine (handlePointerMove 1200 (200 - 30) 300 r2)) = 500.
Proof.
  pose proof (drag_session_speeds sample_words 1000 200 300 1100 300 1200 300
                (initial_reader 0) eq_refl) as (_ & _ & Ht & Hc & _ & Hb).
  intros r1 r2. split; [reflexivity|].
  split; [exact Ht|]. split; [exact Hc | exact Hb].
Defined.

(** ** The ramp after Start *)

Section RampFacts.

Open Scope Q_scope.

Lemma quart_le (a b : Q) : 0 <= b -> b <= a -> b ^ 4 <= a ^ 4.
Proof.
  intros Hb Hab.
  assert (H2 : b * b <= a * a) by nra.
  assert (H0 : 0 <= b * b) by nra.
  change (b ^ 4) with ((b * b) * (b * b)).
  change (a ^ 4) with ((a * a) * (a * a)).
  nra.
Qed.

Lemma easeOutQuart_le (p q : Q) :
  p <= q -> q <= 1 -> easeOutQuart p <= easeOutQuart q.
Proof.
  intros Hpq Hq. unfold easeOutQuart.
  assert ((1 - q) ^ 4 <= (1 - p) ^ 4) by (apply quart_le; lra).
  lra.
Qed.

Lemma easeOutQuart_le_1 (p : Q) : easeOutQuart p <= 1.
Proof.
  unfold easeOutQuart.
  change ((1 - p) ^ 4) with (((1 - p) * (1 - p)) * ((1 - p) * (1 - p))).
  assert (H : forall a : Q, 0 <= a * a) by (intros a; nra).
  pose proof (H (1 - p)). pose proof (H ((1 - p) * (1 - p))). lra.
Qed.

Lemma easeOutQuart_0 (p : Q) : p == 0 -> easeOutQuart p == 0.
Proof. intros E. unfold easeOutQuart. rewrite E. reflexivity. Qed.

Lemma easeOutQuart_1 (p : Q) : p == 1 -> easeOutQuart p == 1.
Proof. intros E. unfold easeOutQuart. rewrite E. reflexivity. Qed.

Lemma progress_le (t0 t1 t2 : Q) :
  t1 <= t2 -> progress t0 t1 <= progress t0 t2.
Proof.
  intros H. unfold progress, JS.Math_min. apply Q.min_le_compat_r.
  unfold Qdiv, RAMP_UP_DURATION_MS, inject_Z.
  change (/ (1500 # 1)) with (1 # 1500). lra.
Qed.

Lemma progress_le_1 (t0 t : Q) : progress t0 t <= 1.
Proof. unfold progress, JS.Math_min. apply Q.le_min_r. Qed.

Lemma progress_start (t0 t : Q) : t == t0 -> progress t0 t == 0.
Proof.
  intros E. unfold progress, JS.Math_min. rewrite Q.min_l.
  - rewrite E. unfold Qdiv. ring.
  - rewrite E. unfold Qdiv. ring_simplify. discriminate.
Qed.

Lemma progress_full (t0 t : Q) :
  t0 + inject_Z RAMP_UP_DURATION_MS <= t -> progress t0 t == 1.
Proof.
  intros H. unfold progress, JS.Math_min. apply Q.min_r.
  unfold Qdiv, RAMP_UP_DURATION_MS, inject_Z in *.
  change (/ (1500 # 1)) with (1 # 1500). lra.
Qed.

Variable T : Z.
Hypothesis T_nonneg : (0 <= T)%Z.

Lemma T_nonneg_Q : 0 <= inject_Z T.
Proof. change 0 with (inject_Z 0). rewrite <- Zle_Qle. exact T_nonneg. Qed.

Lemma rampSpeed_le (t0 t1 t2 : Q) :
  t1 <= t2 -> (rampSpeed T t0 t1 <= rampSpeed T t0 t2)%Z.
Proof.
  intros H. unfold rampSpeed, JS.Math_floor. apply Qfloor_resp_le.
  fold (progress t0 t1). fold (progress t0 t2).
  pose proof T_nonneg_Q.
  pose proof (easeOutQuart_le _ _ (progress_le t0 _ _ H) (progress_le_1 t0 t2)).
  nra.
Qed.

Lemma rampSpeed_upper (t0 t : Q) : (rampSpeed T t0 t <= T)%Z.
Proof.
  unfold rampSpeed, JS.Math_floor. fold (progress t0 t).
  rewrite <- (Qfloor_Z T) at 2. apply Qfloor_resp_le.
  pose proof T_nonneg_Q. pose proof (easeOutQuart_le_1 (progress t0 t)).
  nra.
Qed.

Lemma rampSpeed_start (t0 t : Q) : t == t0 -> rampSpeed T t0 t = 0%Z.
Proof.
  intros E. unfold rampSpeed, JS.Math_floor. fold (progress t0 t).
  rewrite (easeOutQuart_0 _ (progress_start _ _ E)).
  rewrite Qmult_0_r. reflexivity.
Qed.

Lemma rampSpeed_lower (t0 t : Q) : t0 <= t -> (0 <= rampSpeed T t0 t)%Z.
Proof.
  intros H. rewrite <- (rampSpeed_start t0 t0) by reflexivity.
  apply rampSpeed_le. exact H.
Qed.

Lemma rampSpeed_full (t0 t : Q) :
  t0 + inject_Z RAMP_UP_DURATION_MS <= t -> rampSpeed T t0 t = T.
Proof.
  intros H. unfold rampSpeed, JS.Math_floor. fold (progress t0 t).
  rewrite (easeOutQuart_1 _ (progress_full _ _ H)).
  rewrite Qmult_1_r. apply Qfloor_Z.
Qed.

End RampFacts.

Section CruisingFacts.

Variable book_id : string.
Variable words : list string.
Variable settings : AppSettings.

Lemma startPlayback_cruising (now x y : Q) (r : Reader) :
  cruising (targetWPM (engine r)) now (startPlayback words now x y r).
Proof.
  destruct (startPlayback_fields words now x y r)
    as (Hp & Hs & _ & _ & Ht & Hd & _).
  unfold cruising. repeat split; assumption.
Qed.

(** At a fixed target with no braking pending, the speed of a frame is
    the ramp's, and a frame that keeps playing keeps the reader so. *)
Lemma loop_cruising (T : Z) (t0 t : Q) (r : Reader) :
  cruising T t0 r ->
  currentWPM (engine (loop book_id words settings t r)) = rampSpeed T t0 t
  /\ (isPlaying (engine (loop book_id words settings t r)) = true ->
      cruising T t0 (loop book_id words settings t r)).
Proof.
  unfold cruising. intros (Hp & Hs & Ht & Hd).
  open_reader r. subst. unfold rampSpeed, easeOutQuart. evaluate.
  destruct (JS.falsy lastFrameTime0); evaluate;
    unfold autoRevBlock; evaluate; rewrite Z.ltb_irrefl, andb_false_r;
    branches; split; try reflexivity; intros Hq; try discriminate;
    repeat split.
Qed.

Lemma trace_cruising (T : Z) (t0 : Q) (ts : list Q) (r : Reader) :
  cruising T t0 r ->
  all_playing (trace book_id words settings ts r) ->
  speeds (trace book_id words settings ts r) = map (rampSpeed T t0) ts.
Proof.
  revert r. induction ts as [|t ts IH]; intros r Hc Hall; [reflexivity|].
  simpl in *. inversion Hall as [|? ? Hp Hrest]; subst.
  destruct (loop_cruising T t0 t r Hc) as [Hv Hnext].
  unfold speeds in *. simpl. rewrite Hv. f_equal.
  apply IH; [apply Hnext; exact Hp | exact Hrest].
Qed.

Lemma sorted_map_rampSpeed (T : Z) (t0 : Q) (ts : list Q) :
  0 <= T -> StronglySorted Qle ts ->
  StronglySorted Z.le (map (rampSpeed T t0) ts).
Proof.
  intros HT Hs. induction Hs as [|t ts Hs IH Hall]; simpl; constructor.
  - exact IH.
  - rewrite Forall_map. eapply Forall_impl; [|exact Hall].
    intros u Hu. apply rampSpeed_le; assumption.
Qed.

End CruisingFacts.

(** C7. After a Start at time [now] with a fixed target [T] between
    [MIN_WPM] and [MAX_WPM], along frames with non-decreasing timestamps
    and no drag, while the reader keeps playing: [currentWPM] never
    decreases from one frame to the next, stays between 0 and [T], is 0 in
    a frame at the time of the Start, and is [T] in every frame from
    [RAMP_UP_DURATION_MS] after the Start on. *)
Theorem ramp_up_monotone
    (book_id : string) (words : list string) (settings : AppSettings)
    (now x y : Q) (r : Reader) (timestamps : list Q) :
  let T := targetWPM (engine r) in
  let started := startPlayback words now x y r in
  let run := trace book_id words settings timestamps started in
  MIN_WPM <= T <= MAX_WPM ->
  StronglySorted Qle (now :: timestamps) ->
  all_playing run ->
  StronglySorted Z.le (speeds run)
  /\ Forall (fun v => 0 <= v <= T) (speeds run)
  /\ (forall i t, nth_error timestamps i = Some t -> (t == now)%Q ->
        nth_error (speeds run) i = Some 0)
  /\ (forall i t, nth_error timestamps i = Some t ->
        (now + inject_Z RAMP_UP_DURATION_MS <= t)%Q ->
        nth_error (speeds run) i = Some T).
Proof.
  intros T started run [Hmin _] Hsorted Hall.
  assert (HT : 0 <= T) by (unfold MIN_WPM in Hmin; lia).
  assert (Hrun : speeds run = map (rampSpeed T now) timestamps).
  { apply trace_cruising; [apply startPlayback_cruising | exact Hall]. }
  rewrite Hrun. inversion Hsorted as [|? ? Hs Hge]; subst.
  split; [apply sorted_map_rampSpeed; assumption|].
  split.
  - rewrite Forall_map. eapply Forall_impl; [|exact Hge].
    intros t Ht. split; [apply rampSpeed_lower | apply rampSpeed_upper];
      assumption.
  - split; intros i t Hi Ht; rewrite nth_error_map, Hi; simpl; f_equal.
    + apply rampSpeed_start; assumption.
    + apply rampSpeed_full; assumption.
Qed.

Lemma ramp_up_monotone_witness :
  speeds (trace sample_book sample_words sample_settings
            [1000; 1016; 1500; 2500; 3000]%Q
            (startPlayback sample_words 1000 200 300 (initial_reader 0)))
  = [0; 16; 320; 400; 400]
  /\ StronglySorted Z.le
       (speeds (trace sample_book sample_words sample_settings
                  [1000; 1016; 1500; 2500; 3000]%Q
                  (startPlayback sample_words 1000 200 300 (initial_reader 0)))).
Proof.
  split; [vm_compute; reflexivity|].
  refine (proj1 (ramp_up_monotone sample_book sample_words sample_settings
                   1000 200 300 (initial_reader 0)
                   [1000; 1016; 1500; 2500; 3000]%Q _ _ _)).
  - vm_compute. split; discriminate.
  - repeat constructor; unfold Qle; simpl; lia.
  - unfold all_playing. repeat constructor.
Defined.

(** ** The auto-rev *)

Section AutoRevFacts.

Open Scope Q_scope.

Lemma cube_le (a b : Q) : 0 <= b -> b <= a -> b ^ 3 <= a ^ 3.
Proof.
  intros Hb Hab.
  assert (H2 : b * b <= a * a) by nra.
  assert (H0 : 0 <= b * b) by nra.
  change (b ^ 3) with (b * (b * b)).
  change (a ^ 3) with (a * (a * a)).
  nra.
Qed.

Lemma easeOutCubic_le (p q : Q) :
  p <= q -> q <= 1 -> easeOutCubic p <= easeOutCubic q.
Proof.
  intros Hpq Hq. unfold easeOutCubic.
  assert ((1 - q) ^ 3 <= (1 - p) ^ 3) by (apply cube_le; lra).
  lra.
Qed.

Lemma easeOutCubic_range (p : Q) :
  0 <= p -> p <= 1 -> 0 <= easeOutCubic p <= 1.
Proof.
  intros H0 H1. unfold easeOutCubic.
  assert (Hlo : 0 ^ 3 <= (1 - p) ^ 3) by (apply cube_le; lra).
  assert (Hhi : (1 - p) ^ 3 <= 1 ^ 3) by (apply cube_le; lra).
  change (0 ^ 3) with (0 * (0 * 0)) in Hlo.
  change (1 ^ 3) with (1 * (1 * 1)) in Hhi.
  lra.
Qed.

Lemma revProgressOf_le (s1 s2 : Q) :
  s1 <= s2 -> revProgressOf s1 <= revProgressOf s2.
Proof.
  intros H. unfold revProgressOf, JS.Math_min. apply Q.min_le_compat_r.
  unfold Qdiv, AUTO_REV_DELAY_MS, AUTO_REV_DURATION_MS, inject_Z.
  change (/ (3000 # 1)) with (1 # 3000). lra.
Qed.

Lemma revProgressOf_le_1 (s : Q) : revProgressOf s <= 1.
Proof. unfold revProgressOf, JS.Math_min. apply Q.le_min_r. Qed.

Lemma revProgressOf_pos (s : Q) :
  inject_Z AUTO_REV_DELAY_MS < s -> 0 < revProgressOf s.
Proof.
  intros H. unfold revProgressOf, JS.Math_min. apply Q.min_glb_lt; [|reflexivity].
  unfold Qdiv, AUTO_REV_DELAY_MS, AUTO_REV_DURATION_MS, inject_Z in *.
  change (/ (3000 # 1)) with (1 # 3000). lra.
Qed.

(** Past the delay the clamp at 0 of the specification changes nothing. *)
Lemma revProgressOf_spec (s : Q) :
  inject_Z AUTO_REV_DELAY_MS < s -> revProgressOf s == revProgress s.
Proof.
  intros H. unfold revProgressOf, revProgress, clamp01, JS.Math_min.
  rewrite Q.max_l; [reflexivity|].
  unfold Qdiv, AUTO_REV_DELAY_MS, AUTO_REV_DURATION_MS, inject_Z in *.
  change (/ (3000 # 1)) with (1 # 3000). lra.
Qed.

(** The specification's progress reaches 0.99 only past the delay. *)
Lemma revProgress_099 (s : Q) :
  0.99 <= revProgress s ->
  inject_Z AUTO_REV_DELAY_MS < s /\ 0.99 <= revProgressOf s.
Proof.
  intros H.
  assert (Hs : inject_Z AUTO_REV_DELAY_MS < s).
  { destruct (Qlt_le_dec (inject_Z AUTO_REV_DELAY_MS) s) as [Hlt | Hge];
      [exact Hlt | exfalso].
    unfold revProgress, clamp01 in H.
    rewrite Q.max_r in H.
    - rewrite Q.min_l in H; [|discriminate]. exact (H eq_refl).
    - unfold Qdiv, AUTO_REV_DELAY_MS, AUTO_REV_DURATION_MS, inject_Z in *.
      change (/ (3000 # 1)) with (1 # 3000). lra. }
  split; [exact Hs|]. rewrite revProgressOf_spec; assumption.
Qed.

Variable settings : AppSettings.
Hypothesis autoRev_on : autoRev settings = true.

(** The block on an engine braked from 500 to 300 and released. *)
Lemma autoRevBlock_braked (t : Q) (e : Engine) :
  isDragging e = false -> targetWPM e = 300%Z -> dragStartWPM e = 500%Z ->
  autoRevBlock settings t e
  = if JS.Qltb (inject_Z AUTO_REV_DELAY_MS) (t - lastDragTime e)
    then (300 + 200 * easeOutCubic (revProgressOf (t - lastDragTime e)),
          if Qle_bool 0.99 (revProgressOf (t - lastDragTime e))
          then set_targetWPM 500 e else e)
    else (300, e).
Proof.
  intros Hd Ht Hc. unfold autoRevBlock, revProgressOf, easeOutCubic.
  rewrite autoRev_on, Hd, Ht, Hc.
  change (true && negb false && (300 <? 500))%Z with true. cbv iota.
  destruct (JS.Qltb _ _); [|reflexivity].
  destruct (Qle_bool _ _); reflexivity.
Qed.

Lemma autoRevBlock_at_cruise (t : Q) (e : Engine) :
  targetWPM e = dragStartWPM e ->
  autoRevBlock settings t e = (inject_Z (targetWPM e), e).
Proof.
  intros H. unfold autoRevBlock.
  rewrite H, Z.ltb_irrefl, andb_false_r. reflexivity.
Qed.

Lemma Qltb_true (x y : Q) : x < y -> JS.Qltb x y = true.
Proof.
  intros H. unfold JS.Qltb. destruct (Qle_bool y x) eqn:E; [|reflexivity].
  apply Qle_bool_iff in E. lra.
Qed.

Lemma Qltb_false (x y : Q) : y <= x -> JS.Qltb x y = false.
Proof.
  intros H. unfold JS.Qltb. apply Qle_bool_iff in H. rewrite H. reflexivity.
Qed.

(** The effective target of a braked and released engine never decreases
    with the frame's timestamp and never exceeds the cruise setpoint. *)
Lemma effective_braked_le (t1 t2 : Q) (e : Engine) :
  isDragging e = false -> targetWPM e = 300%Z -> dragStartWPM e = 500%Z ->
  t1 <= t2 ->
  fst (autoRevBlock settings t1 e) <= fst (autoRevBlock settings t2 e)
  /\ fst (autoRevBlock settings t2 e) <= 500.
Proof.
  intros Hd Ht Hc H12.
  rewrite !autoRevBlock_braked by assumption.
  set (d := inject_Z AUTO_REV_DELAY_MS).
  destruct (Qlt_le_dec d (t2 - lastDragTime e)) as [H2 | H2].
  - rewrite (Qltb_true _ _ H2). cbn [fst].
    pose proof (revProgressOf_le_1 (t2 - lastDragTime e)) as Hp1.
    pose proof (revProgressOf_pos _ H2) as Hp0.
    destruct (easeOutCubic_range (revProgressOf (t2 - lastDragTime e)))
      as [Hlo Hhi]; [lra | lra |].
    destruct (Qlt_le_dec d (t1 - lastDragTime e)) as [H1 | H1].
    + rewrite (Qltb_true _ _ H1). cbn [fst].
      assert (Hm : easeOutCubic (revProgressOf (t1 - lastDragTime e))
                   <= easeOutCubic (revProgressOf (t2 - lastDragTime e))).
      { apply easeOutCubic_le; [apply revProgressOf_le; lra | exact Hp1]. }
      split; lra.
    + rewrite (Qltb_false _ _ H1). cbn [fst]. split; lra.
  - rewrite (Qltb_false _ _ H2).
    assert (H1 : t1 - lastDragTime e <= d) by lra.
    rewrite (Qltb_false _ _ H1). cbn [fst]. split; [lra | discriminate].
Qed.

End AutoRevFacts.

Section FrameSpeedFacts.

Variable book_id : string.
Variable words : list string.
Variable settings : AppSettings.

(** What a frame of a playing reader does to the speeds: the target is the
    one the auto-rev block leaves, the current speed is the effective
    target scaled by the ramp, the cruise setpoint and the drag state are
    kept. *)
Lemma loop_playing_speeds (t : Q) (r : Reader) :
  isPlaying (engine r) = true ->
  let r' := loop book_id words settings t r in
  targetWPM (engine r') = targetWPM (snd (autoRevBlock settings t (engine r)))
  /\ currentWPM (engine r')
     = JS.Math_floor (effectiveTarget settings t r * rampEase t (engine r))%Q
  /\ dragStartWPM (engine r') = dragStartWPM (engine r)
  /\ isDragging (engine r') = isDragging (engine r)
  /\ lastDragTime (engine r') = lastDragTime (engine r).
Proof.
  intros H r'. subst r'.
  open_reader r. subst. evaluate.
  destruct (JS.falsy lastFrameTime0); evaluate;
    unfold autoRevBlock; evaluate; branches;
    cbn [fst snd]; evaluate; repeat split.
Qed.

End FrameSpeedFacts.

(** ** The auto-rev along a run of frames *)

Section RevRunFacts.

Variable book_id : string.
Variable words : list string.
Variable settings : AppSettings.
Hypothesis autoRev_on : autoRev settings = true.

Lemma loop_playing_startTime (t : Q) (r : Reader) :
  isPlaying (engine r) = true ->
  startTime (engine (loop book_id words settings t r)) = startTime (engine r).
Proof.
  intros H.
  pose proof (autoRevBlock_frame settings t) as A.
  open_reader r. subst. evaluate.
  destruct (JS.falsy lastFrameTime0); evaluate; auto_rev_result A;
    branches; reflexivity.
Qed.

Lemma rampEase_startTime (t : Q) (e e' : Engine) :
  startTime e = startTime e' -> rampEase t e = rampEase t e'.
Proof. intros H. unfold rampEase. rewrite H. reflexivity. Qed.

Lemma Qle_bool_false (x y : Q) : (y < x)%Q -> Qle_bool x y = false.
Proof.
  intros H. destruct (Qle_bool x y) eqn:E; [|reflexivity].
  apply Qle_bool_iff in E. lra.
Qed.

(** Past the delay, the test of the code and that of the specification
    agree. *)
Lemma revDone_code (released t : Q) :
  (inject_Z AUTO_REV_DELAY_MS < t - released)%Q ->
  Qle_bool 0.99 (revProgressOf (t - released)) = revDone released t.
Proof.
  intros Hs. unfold revDone.
  pose proof (revProgressOf_spec _ Hs) as E.
  destruct (Qle_bool 0.99 (revProgress (t - released))) eqn:E1.
  - apply Qle_bool_iff in E1. apply Qle_bool_iff. rewrite E. exact E1.
  - destruct (Qle_bool 0.99 (revProgressOf (t - released))) eqn:E2;
      [|reflexivity].
    apply Qle_bool_iff in E2. rewrite E in E2. apply Qle_bool_iff in E2.
    congruence.
Qed.

Lemma revDone_past_delay (released t : Q) :
  revDone released t = true ->
  (inject_Z AUTO_REV_DELAY_MS < t - released)%Q.
Proof.
  unfold revDone. intros H. apply Qle_bool_iff in H.
  apply (revProgress_099 _ H).
Qed.

(** The block on an engine braked from 500 to 300 and released, in the
    words of the specification. *)
Lemma autoRevBlock_braked_spec (t : Q) (e : Engine) :
  isDragging e = false -> targetWPM e = 300 -> dragStartWPM e = 500 ->
  (fst (autoRevBlock settings t e) == revTarget (t - lastDragTime e))%Q
  /\ snd (autoRevBlock settings t e)
     = if revDone (lastDragTime e) t then set_targetWPM 500 e else e.
Proof.
  intros Hd Ht Hc.
  rewrite (autoRevBlock_braked settings autoRev_on t e Hd Ht Hc).
  unfold revTarget.
  destruct (Qlt_le_dec (inject_Z AUTO_REV_DELAY_MS) (t - lastDragTime e))
    as [Hs | Hs].
  - rewrite (Qltb_true _ _ Hs), (Qle_bool_false _ _ Hs). cbn [fst snd].
    rewrite (revDone_code _ _ Hs). split; [|reflexivity].
    unfold easeOutCubic. rewrite (revProgressOf_spec _ Hs). reflexivity.
  - rewrite (Qltb_false _ _ Hs). cbn [fst snd].
    apply Qle_bool_iff in Hs. rewrite Hs. split; [reflexivity|].
    destruct (revDone (lastDragTime e) t) eqn:E; [|reflexivity].
    apply revDone_past_delay in E. apply Qle_bool_iff in Hs. lra.
Qed.

(** One frame of a playing reader braked from 500 to 300 and released. *)
Lemma braked_frame (t : Q) (r : Reader) :
  isPlaying (engine r) = true -> isDragging (engine r) = false ->
  targetWPM (engine r) = 300 -> dragStartWPM (engine r) = 500 ->
  let r' := loop book_id words settings t r in
  startTime (engine r') = startTime (engine r)
  /\ isDragging (engine r') = false
  /\ dragStartWPM (engine r') = 500
  /\ lastDragTime (engine r') = lastDragTime (engine r)
  /\ targetWPM (engine r')
     = (if revDone (lastDragTime (engine r)) t then 500 else 300)
  /\ (effectiveTarget settings t r
      == revTarget (t - lastDragTime (engine r)))%Q
  /\ currentWPM (engine r')
     = scaledSpeed (engine r) (t, effectiveTarget settings t r).
Proof.
  intros Hp Hd Ht Hc r'.
  destruct (loop_playing_speeds book_id words settings t r Hp)
    as (H1 & H2 & H3 & H4 & H5). fold r' in H1, H2, H3, H4, H5.
  destruct (autoRevBlock_braked_spec t (engine r) Hd Ht Hc) as [Hf Hs].
  split; [apply loop_playing_startTime; exact Hp|].
  split; [congruence|]. split; [congruence|]. split; [exact H5|].
  split; [|split; [exact Hf | exact H2]].
  rewrite H1, Hs.
  destruct (revDone (lastDragTime (engine r)) t); [reflexivity | exact Ht].
Qed.

(** One frame of a playing reader whose target is the cruise setpoint. *)
Lemma cruise_frame (t : Q) (r : Reader) :
  isPlaying (engine r) = true ->
  targetWPM (engine r) = 500 -> dragStartWPM (engine r) = 500 ->
  let r' := loop book_id words settings t r in
  startTime (engine r') = startTime (engine r)
  /\ targetWPM (engine r') = 500
  /\ dragStartWPM (engine r') = 500
  /\ effectiveTarget settings t r = 500%Q
  /\ currentWPM (engine r')
     = scaledSpeed (engine r) (t, effectiveTarget settings t r).
Proof.
  intros Hp Ht Hc r'.
  destruct (loop_playing_speeds book_id words settings t r Hp)
    as (H1 & H2 & H3 & _). fold r' in H1, H2, H3.
  assert (Hb : autoRevBlock settings t (engine r) = (500%Q, engine r)).
  { rewrite autoRevBlock_at_cruise by congruence. rewrite Ht. reflexivity. }
  split; [apply loop_playing_startTime; exact Hp|].
  split; [rewrite H1, Hb; exact Ht|]. split; [congruence|].
  split; [unfold effectiveTarget; rewrite Hb; reflexivity | exact H2].
Qed.

Lemma scaledSpeed_startTime (e e' : Engine) (ps : list (Q * Q)) :
  startTime e = startTime e' ->
  map (scaledSpeed e) ps = map (scaledSpeed e') ps.
Proof.
  intros H. apply map_ext. intros p. unfold scaledSpeed.
  rewrite (rampEase_startTime (fst p) e e' H). reflexivity.
Qed.

Lemma Forall2_Qeq_refl (l : list Q) : Forall2 Qeq l l.
Proof. induction l; constructor; [reflexivity | assumption]. Qed.

(** At the cruise setpoint every frame of a run has the effective target
    500. *)
Lemma cruise_run (ts : list Q) (r : Reader) :
  isPlaying (engine r) = true ->
  targetWPM (engine r) = 500 -> dragStartWPM (engine r) = 500 ->
  all_playing (trace book_id words settings ts r) ->
  effectiveTargets book_id words settings ts r = map (fun _ => 500%Q) ts
  /\ targetWPM (engine (frames book_id words settings ts r)) = 500
  /\ speeds (trace book_id words settings ts r)
     = map (scaledSpeed (engine r))
         (combine ts (effectiveTargets book_id words settings ts r)).
Proof.
  revert r. induction ts as [|t ts IH]; intros r Hp Ht Hc Hall.
  - repeat split; assumption.
  - cbn [trace] in Hall. inversion Hall as [|? ? Hp' Hrest]; subst.
    destruct (cruise_frame t r Hp Ht Hc) as (Hst & Ht' & Hc' & Heff & Hv).
    destruct (IH _ Hp' Ht' Hc' Hrest) as (IH1 & IH2 & IH3).
    cbn [effectiveTargets frames trace map combine speeds].
    split; [rewrite Heff, IH1; reflexivity|]. split; [exact IH2|].
    unfold speeds in IH3. rewrite IH3, Hv.
    rewrite (scaledSpeed_startTime _ _ _ Hst). reflexivity.
Qed.

(** A run of frames of a playing reader braked from 500 to 300 and
    released: the effective targets are those of the specification. *)
Lemma braked_run (ts : list Q) (r : Reader) :
  isPlaying (engine r) = true -> isDragging (engine r) = false ->
  targetWPM (engine r) = 300 -> dragStartWPM (engine r) = 500 ->
  all_playing (trace book_id words settings ts r) ->
  Forall2 Qeq (effectiveTargets book_id words settings ts r)
    (revTargets (lastDragTime (engine r)) ts)
  /\ targetWPM (engine (frames book_id words settings ts r))
     = (if existsb (revDone (lastDragTime (engine r))) ts then 500 else 300)
  /\ speeds (trace book_id words settings ts r)
     = map (scaledSpeed (engine r))
         (combine ts (effectiveTargets book_id words settings ts r)).
Proof.
  revert r. induction ts as [|t ts IH]; intros r Hp Hd Ht Hc Hall.
  - repeat split; [constructor | exact Ht].
  - cbn [trace] in Hall. inversion Hall as [|? ? Hp' Hrest]; subst.
    destruct (braked_frame t r Hp Hd Ht Hc)
      as (Hst & Hd' & Hc' & Hl & Ht' & Heff & Hv).
    cbn [effectiveTargets frames trace map combine speeds revTargets existsb].
    destruct (revDone (lastDragTime (engine r)) t) eqn:Edone.
    + destruct (cruise_run ts _ Hp' Ht' Hc' Hrest) as (C1 & C2 & C3).
      split; [constructor; [exact Heff | rewrite C1; apply Forall2_Qeq_refl]|].
      split; [exact C2|].
      unfold speeds in C3. rewrite C3, Hv.
      rewrite (scaledSpeed_startTime _ _ _ Hst). reflexivity.
    + destruct (IH _ Hp' Hd' Ht' Hc' Hrest) as (IH1 & IH2 & IH3).
      rewrite Hl in IH1, IH2.
      split; [constructor; [exact Heff | exact IH1]|].
      split; [exact IH2|].
      unfold speeds in IH3. rewrite IH3, Hv.
      rewrite (scaledSpeed_startTime _ _ _ Hst). reflexivity.
Qed.

(** The effective target of the specification never decreases with the
    time since the drag, and lies between the braked target and the cruise
    setpoint. *)
Lemma revTarget_range (s : Q) : (300 <= revTarget s <= 500)%Q.
Proof.
  unfold revTarget.
  destruct (Qlt_le_dec (inject_Z AUTO_REV_DELAY_MS) s) as [Hs | Hs].
  - rewrite (Qle_bool_false _ _ Hs).
    rewrite <- (revProgressOf_spec _ Hs).
    pose proof (revProgressOf_le_1 s) as Hp1.
    pose proof (revProgressOf_pos _ Hs) as Hp0.
    destruct (easeOutCubic_range (revProgressOf s)) as [Hlo Hhi];
      [lra | lra |].
    unfold easeOutCubic in Hlo, Hhi. split; lra.
  - apply Qle_bool_iff in Hs. rewrite Hs. split; discriminate.
Qed.

Lemma revTarget_le (s1 s2 : Q) :
  (s1 <= s2)%Q -> (revTarget s1 <= revTarget s2)%Q.
Proof.
  intros H12.
  destruct (Qlt_le_dec (inject_Z AUTO_REV_DELAY_MS) s1) as [H1 | H1].
  - assert (H2 : (inject_Z AUTO_REV_DELAY_MS < s2)%Q) by lra.
    unfold revTarget.
    rewrite (Qle_bool_false _ _ H1), (Qle_bool_false _ _ H2).
    rewrite <- (revProgressOf_spec _ H1), <- (revProgressOf_spec _ H2).
    pose proof (easeOutCubic_le (revProgressOf s1) (revProgressOf s2)
                  (revProgressOf_le s1 s2 H12) (revProgressOf_le_1 s2)) as Hm.
    unfold easeOutCubic in Hm. lra.
  - pose proof (revTarget_range s2) as [Hlo _].
    unfold revTarget at 1. apply Qle_bool_iff in H1. rewrite H1. exact Hlo.
Qed.

Lemma revTargets_range (released : Q) (ts : list Q) :
  Forall (fun e => 300 <= e <= 500)%Q (revTargets released ts).
Proof.
  induction ts as [|t ts IH]; [constructor|].
  cbn [revTargets]. constructor; [apply revTarget_range|].
  destruct (revDone released t); [|exact IH].
  clear IH. induction ts; constructor; [split; discriminate | assumption].
Qed.

Lemma revTargets_above (released t0 : Q) (ts : list Q) :
  Forall (Qle t0) ts ->
  Forall (Qle (revTarget (t0 - released))) (revTargets released ts).
Proof.
  induction ts as [|t ts IH]; intros H; [constructor|].
  inversion H as [|? ? Ht Hrest]; subst. cbn [revTargets].
  constructor; [apply revTarget_le; lra|].
  destruct (revDone released t); [|apply IH; exact Hrest].
  clear IH H Hrest. induction ts; constructor;
    [apply revTarget_range | assumption].
Qed.

Lemma revTargets_sorted (released : Q) (ts : list Q) :
  StronglySorted Qle ts -> StronglySorted Qle (revTargets released ts).
Proof.
  induction ts as [|t ts IH]; intros H; [constructor|].
  inversion H as [|? ? Hs Hall]; subst.
  pose proof (revTargets_above released t (t :: ts)
                (Forall_cons t (Qle_refl t) Hall)) as Habove.
  cbn [revTargets] in *. inversion Habove as [|? ? _ Htail]; subst.
  constructor; [|exact Htail].
  destruct (revDone released t); [|apply IH; exact Hs].
  clear. induction ts; constructor; [assumption|].
  clear. induction ts; constructor; [discriminate | assumption].
Qed.

Lemma sorted_Qeq (l l' : list Q) :
  Forall2 Qeq l l' -> StronglySorted Qle l' -> StronglySorted Qle l.
Proof.
  intros H. induction H as [|x y l l' Hxy Hl IH]; intros Hs; [constructor|].
  inversion Hs as [|? ? Hs' Hall]; subst.
  constructor; [apply IH; exact Hs'|].
  clear IH Hs Hs'. induction Hl as [|a b l l' Hab Hl IH]; [constructor|].
  inversion Hall; subst. constructor; [|apply IH; assumption].
  rewrite Hxy, Hab. assumption.
Qed.

Lemma range_Qeq (l l' : list Q) :
  Forall2 Qeq l l' -> Forall (fun e => 300 <= e <= 500)%Q l' ->
  Forall (fun e => 300 <= e <= 500)%Q l.
Proof.
  intros H. induction H as [|x y l l' Hxy Hl IH]; intros Hr; [constructor|].
  inversion Hr as [|? ? Hy Hrest]; subst.
  constructor; [rewrite Hxy; exact Hy | apply IH; exact Hrest].
Qed.

End RevRunFacts.

(** C4. With [autoRev] on, the cruise setpoint at 500, the target braked to
    300 and the drag ended: a frame whose time since the drag is at most
    [AUTO_REV_DELAY_MS] has the effective target 300 and keeps the target;
    a later frame has the effective target
    [300 + 200 * (1 - (1 - revProgress)^3)], which never decreases from one
    timestamp to a later one and never exceeds 500; and a frame that sees
    [revProgress >= 0.99] sets [targetWPM] to the cruise setpoint, after
    which the effective target is exactly 500.  Each frame's [currentWPM]
    is that effective target scaled by the ramp.  Every frame keeps the
    cruise setpoint, the time of the drag and the start of the ramp, and
    keeps the target at 300 unless it sees [revProgress >= 0.99]; so along
    any run of frames that leaves the reader playing, the effective
    targets are those of the specification: 300 within the delay, the
    ease-out after it up to and including the first frame that sees
    [revProgress >= 0.99], and exactly 500 in every frame after that one;
    for timestamps that never decrease they never decrease, and they stay
    between 300 and 500. *)
Theorem autoRev_returns_to_cruise
    (book_id : string) (words : list string) (settings : AppSettings)
    (r : Reader) :
  autoRev settings = true ->
  isPlaying (engine r) = true ->
  isDragging (engine r) = false ->
  targetWPM (engine r) = 300 ->
  dragStartWPM (engine r) = 500 ->
  let released := lastDragTime (engine r) in
  let since := fun t : Q => (t - released)%Q in
  let frame := loop book_id words settings in
  (forall t,
     currentWPM (engine (frame t r))
     = JS.Math_floor (effectiveTarget settings t r * rampEase t (engine r))%Q)
  /\ (forall t, (since t <= inject_Z AUTO_REV_DELAY_MS)%Q ->
        effectiveTarget settings t r = 300%Q
        /\ targetWPM (engine (frame t r)) = 300)
  /\ (forall t, (inject_Z AUTO_REV_DELAY_MS < since t)%Q ->
        (effectiveTarget settings t r
         == 300 + 200 * (1 - (1 - revProgress (since t)) ^ 3))%Q)
  /\ (forall t1 t2, (t1 <= t2)%Q ->
        (effectiveTarget settings t1 r <= effectiveTarget settings t2 r)%Q
        /\ (effectiveTarget settings t2 r <= 500)%Q)
  /\ (forall t, (0.99 <= revProgress (since t))%Q ->
        targetWPM (engine (frame t r)) = 500
        /\ forall t', effectiveTarget settings t' (frame t r) = 500%Q)
  /\ (forall t,
        startTime (engine (frame t r)) = startTime (engine r)
        /\ isDragging (engine (frame t r)) = false
        /\ dragStartWPM (engine (frame t r)) = 500
        /\ lastDragTime (engine (frame t r)) = released
        /\ (~ (0.99 <= revProgress (since t))%Q ->
            targetWPM (engine (frame t r)) = 300
            /\ forall t',
                 effectiveTarget settings t' (frame t r)
                 = effectiveTarget settings t' r))
  /\ (forall ts,
        all_playing (trace book_id words settings ts r) ->
        Forall2 Qeq (effectiveTargets book_id words settings ts r)
          (revTargets released ts)
        /\ targetWPM (engine (frames book_id words settings ts r))
           = (if existsb (revDone released) ts then 500 else 300)
        /\ speeds (trace book_id words settings ts r)
           = map (scaledSpeed (engine r))
               (combine ts (effectiveTargets book_id words settings ts r))
        /\ Forall (fun e => 300 <= e <= 500)%Q
             (effectiveTargets book_id words settings ts r)
        /\ (StronglySorted Qle ts ->
            StronglySorted Qle
              (effectiveTargets book_id words settings ts r))).
Proof.
  intros Hrev Hp Hd Ht Hc released since frame. subst released since frame.
  cbv beta.
  assert (Hframe : forall t,
             targetWPM (engine (loop book_id words settings t r))
             = targetWPM (snd (autoRevBlock settings t (engine r)))
             /\ dragStartWPM (engine (loop book_id words settings t r)) = 500).
  { intros t.
    destruct (loop_playing_speeds book_id words settings t r Hp)
      as (H1 & _ & H3 & _). split; [exact H1 | congruence]. }
  split; [|split; [|split; [|split; [|split; [|split]]]]].
  - intros t. apply (loop_playing_speeds book_id words settings t r Hp).
  - intros t Hs. destruct (Hframe t) as [Hf _]. rewrite Hf.
    unfold effectiveTarget.
    rewrite (autoRevBlock_braked settings Hrev t (engine r) Hd Ht Hc).
    rewrite (Qltb_false _ _ Hs). split; [reflexivity | exact Ht].
  - intros t Hs. unfold effectiveTarget.
    rewrite (autoRevBlock_braked settings Hrev t (engine r) Hd Ht Hc).
    rewrite (Qltb_true _ _ Hs). cbn [fst]. unfold easeOutCubic.
    rewrite (revProgressOf_spec _ Hs). reflexivity.
  - intros t1 t2 H12. unfold effectiveTarget.
    apply effective_braked_le; assumption.
  - intros t H99.
    destruct (revProgress_099 _ H99) as [Hs Hcode].
    destruct (Hframe t) as [Hf Hcr].
    assert (Htarget :
              targetWPM (engine (loop book_id words settings t r)) = 500).
    { rewrite Hf.
      rewrite (autoRevBlock_braked settings Hrev t (engine r) Hd Ht Hc).
      rewrite (Qltb_true _ _ Hs).
      apply Qle_bool_iff in Hcode. rewrite Hcode.
      reflexivity. }
    split; [exact Htarget|].
    intros t'. unfold effectiveTarget.
    rewrite autoRevBlock_at_cruise by congruence.
    cbn [fst]. rewrite Htarget. reflexivity.
  - intros t.
    destruct (braked_frame book_id words settings Hrev t r Hp Hd Ht Hc)
      as (Hst & Hd' & Hc' & Hl & Ht' & _).
    split; [exact Hst|]. split; [exact Hd'|]. split; [exact Hc'|].
    split; [exact Hl|]. intros Hnot.
    assert (Hkept : targetWPM (engine (loop book_id words settings t r)) = 300).
    { rewrite Ht'.
      destruct (revDone (lastDragTime (engine r)) t) eqn:E; [|reflexivity].
      exfalso. apply Hnot. apply Qle_bool_iff. exact E. }
    split; [exact Hkept|]. intros t'. unfold effectiveTarget.
    rewrite (autoRevBlock_braked settings Hrev t' _ Hd' Hkept Hc').
    rewrite (autoRevBlock_braked settings Hrev t' (engine r) Hd Ht Hc).
    rewrite Hl.
    destruct (JS.Qltb _ _); reflexivity.
  - intros ts Hall.
    destruct (braked_run book_id words settings Hrev ts r Hp Hd Ht Hc Hall)
      as (Heq & Htarget & Hspeeds).
    split; [exact Heq|]. split; [exact Htarget|]. split; [exact Hspeeds|].
    split.
    + apply (range_Qeq _ _ Heq). apply revTargets_range.
    + intros Hsorted. apply (sorted_Qeq _ _ Heq).
      apply revTargets_sorted. exact Hsorted.
Qed.

Lemma autoRev_returns_to_cruise_witness :
  let ts := [11500; 13500; 14000; 14980; 14996; 15100]%Q in
  effectiveTarget sample_settings 11500 sample_braked = 300%Q
  /\ (effectiveTarget sample_settings 13500 sample_braked
      == 300 + 200 * (1 - (1 - revProgress (13500 - 10000)) ^ 3))%Q
  /\ (effectiveTarget sample_settings 13500 sample_braked == 475)%Q
  /\ targetWPM
       (engine (loop sample_book sample_words sample_settings 14980
                  sample_braked)) = 500
  /\ effectiveTarget sample_settings 14996
       (loop sample_book sample_words sample_settings 14980 sample_braked)
     = 500%Q
  /\ targetWPM
       (engine (loop sample_book sample_words sample_settings 13500
                  sample_braked)) = 300
  /\ Forall2 Qeq
       (effectiveTargets sample_book sample_words sample_settings ts
          sample_braked)
       (revTargets 10000 ts)
  /\ Forall2 Qeq (revTargets 10000 ts)
       [300; 475; 13300 # 27; 8437499 # 16875; 500; 500]%Q
  /\ targetWPM
       (engine (frames sample_book sample_words sample_settings ts
                  sample_braked)) = 500
  /\ speeds (trace sample_book sample_words sample_settings ts sample_braked)
     = [300; 475; 492; 499; 500; 500].
Proof.
  intros ts.
  pose proof (autoRev_returns_to_cruise sample_book sample_words
                sample_settings sample_braked
                eq_refl eq_refl eq_refl eq_refl eq_refl)
    as (_ & Hdelay & Hrise & _ & Hsnap & Hkeep & Hrun).
  split; [apply (Hdelay 11500%Q); vm_compute; discriminate|].
  split; [apply (Hrise 13500%Q); vm_compute; reflexivity|].
  split; [vm_compute; reflexivity|].
  assert (H99 : (0.99 <= revProgress (14980 - lastDragTime (engine sample_braked)))%Q)
    by (vm_compute; discriminate).
  destruct (Hsnap 14980%Q H99) as [Ht Heff].
  split; [exact Ht|]. split; [exact (Heff 14996%Q)|].
  destruct (Hkeep 13500%Q) as (_ & _ & _ & _ & Hkept).
  destruct Hkept as [Hkept _]; [vm_compute; intros H; exact (H eq_refl)|].
  split; [exact Hkept|].
  destruct (Hrun ts) as (Heq & Htarget & Hspeeds & _).
  { unfold all_playing. repeat constructor. }
  split; [exact Heq|].
  split; [vm_compute; repeat constructor|].
  split; [exact Htarget|].
  rewrite Hspeeds. vm_compute. reflexivity.
Defined.

(** ** Limits kept by every operation *)

Section LimitFacts.

Lemma Math_round_le (x y : Q) :
  (x <= y)%Q -> JS.Math_round x <= JS.Math_round y.
Proof.
  intros H. unfold JS.Math_round. apply Qfloor_resp_le. lra.
Qed.

Lemma Math_round_inject (z : Z) : JS.Math_round (inject_Z z) = z.
Proof. apply Math_round_Z. reflexivity. Qed.

(** Rounding a value clamped between two whole bounds stays between them. *)
Lemma Math_round_clamp (x : Q) (lo hi : Z) :
  lo <= hi ->
  lo <= JS.Math_round
          (JS.Math_min (JS.Math_max x (inject_Z lo)) (inject_Z hi)) <= hi.
Proof.
  intros Hlh. rewrite Zle_Qle in Hlh. unfold JS.Math_min, JS.Math_max.
  split.
  - rewrite <- (Math_round_inject lo) at 1. apply Math_round_le.
    apply Q.min_glb; [apply Q.le_max_r | exact Hlh].
  - rewrite <- (Math_round_inject hi) at 2. apply Math_round_le.
    apply Q.le_min_r.
Qed.

Lemma Qltb_lt (x y : Q) : JS.Qltb x y = true -> (x < y)%Q.
Proof.
  unfold JS.Qltb. intros H. destruct (Qle_bool y x) eqn:E; [discriminate|].
  destruct (Qlt_le_dec x y) as [Hlt | Hge]; [exact Hlt|].
  apply Qle_bool_iff in Hge. congruence.
Qed.

Lemma Qltb_ge (x y : Q) : JS.Qltb x y = false -> (y <= x)%Q.
Proof.
  unfold JS.Qltb. intros H. destruct (Qle_bool y x) eqn:E; [|discriminate].
  apply Qle_bool_iff. exact E.
Qed.

Variable book_id : string.
Variable words : list string.
Variable settings : AppSettings.

(** What a drag-move writes besides the speeds. *)
Lemma handlePointerMove_font (now x y : Q) (r : Reader) (d : DragSession) :
  dragRef r = Some d -> isPlaying (engine r) = true ->
  fontSize (handlePointerMove now x y r)
  = JS.Math_round
      (JS.Math_min
         (JS.Math_max (inject_Z (startFontSize d) - (y - startY d) * 0.5)%Q
            (inject_Z MIN_FONT_SIZE)) (inject_Z MAX_FONT_SIZE))
  /\ progressCalls (handlePointerMove now x y r) = progressCalls r
  /\ wordIndex (engine (handlePointerMove now x y r)) = wordIndex (engine r)
  /\ ui_wordIndex (handlePointerMove now x y r) = ui_wordIndex r
  /\ ui_isPlaying (handlePointerMove now x y r) = ui_isPlaying r.
Proof.
  intros Hd Hp. unfold handlePointerMove. rewrite Hd, Hp. cbn [negb].
  destruct (JS.Qltb _ _); fields; repeat split.
Qed.

(** A drag-move without an open session, or on a stopped reader. *)
Lemma handlePointerMove_ignored (now x y : Q) (r : Reader) :
  dragRef r = None \/ isPlaying (engine r) = false ->
  handlePointerMove now x y r = r.
Proof.
  intros [H | H]; unfold handlePointerMove; rewrite H;
    [reflexivity | destruct (dragRef r); reflexivity].
Qed.

(** What a Stop keeps. *)
Lemma stopPlayback_keeps (r : Reader) :
  let r' := stopPlayback book_id r in
  targetWPM (engine r') = targetWPM (engine r)
  /\ dragStartWPM (engine r') = dragStartWPM (engine r)
  /\ currentWPM (engine r') = currentWPM (engine r)
  /\ dragRef r' = dragRef r
  /\ fontSize r' = fontSize r
  /\ showSettings r' = showSettings r.
Proof.
  destruct (isPlaying (engine r)) eqn:Hp; cbv zeta.
  - rewrite stopPlayback_playing by assumption. fields. repeat split.
  - rewrite stopPlayback_stopped by assumption. repeat split.
Qed.

(** What a frame keeps, and that it never starts playback. *)
Lemma loop_keeps (t : Q) (r : Reader) :
  let r' := loop book_id words settings t r in
  dragRef r' = dragRef r
  /\ fontSize r' = fontSize r
  /\ showSettings r' = showSettings r
  /\ (isPlaying (engine r') = true -> isPlaying (engine r) = true).
Proof.
  pose proof (autoRevBlock_frame settings t) as A.
  open_reader r. evaluate.
  destruct isPlaying0; destruct (JS.falsy lastFrameTime0); evaluate;
    try (repeat split; auto; fail);
    auto_rev_result A; branches; repeat split; auto.
Qed.

(** The effective target lies between the target and the cruise setpoint. *)
Lemma autoRevBlock_bounds (t : Q) (e : Engine) :
  targetWPM e <= dragStartWPM e ->
  (inject_Z (targetWPM e) <= fst (autoRevBlock settings t e)
   <= inject_Z (dragStartWPM e))%Q.
Proof.
  intros Hle. rewrite Zle_Qle in Hle. unfold autoRevBlock.
  destruct (autoRev settings && negb (isDragging e)
            && (targetWPM e <? dragStartWPM e));
    [|cbn [fst]; split; [apply Qle_refl | exact Hle]].
  destruct (JS.Qltb _ _) eqn:Hs;
    [|cbn [fst]; split; [apply Qle_refl | exact Hle]].
  apply Qltb_lt in Hs.
  fold (revProgressOf (t - lastDragTime e)).
  fold (easeOutCubic (revProgressOf (t - lastDragTime e))).
  pose proof (revProgressOf_pos _ Hs) as H0.
  pose proof (revProgressOf_le_1 (t - lastDragTime e)) as H1.
  destruct (easeOutCubic_range (revProgressOf (t - lastDragTime e)))
    as [Hlo Hhi]; [lra | exact H1 |].
  unfold Z.sub. rewrite inject_Z_plus, inject_Z_opp.
  set (T := inject_Z (targetWPM e)) in *.
  set (C := inject_Z (dragStartWPM e)) in *.
  set (g := easeOutCubic _) in *.
  destruct (Qle_bool _ _); cbn [fst]; split; nra.
Qed.

Lemma rampEase_le_1 (t : Q) (e : Engine) : (rampEase t e <= 1)%Q.
Proof. unfold rampEase. apply easeOutQuart_le_1. Qed.

(** The speed of a playing frame never exceeds the cruise setpoint. *)
Lemma loop_currentWPM_le (t : Q) (r : Reader) :
  isPlaying (engine r) = true ->
  0 <= targetWPM (engine r) <= dragStartWPM (engine r) ->
  currentWPM (engine (loop book_id words settings t r))
  <= dragStartWPM (engine r).
Proof.
  intros Hp [H0 Hle].
  destruct (loop_playing_speeds book_id words settings t r Hp)
    as (_ & Hc & _).
  rewrite Hc. unfold JS.Math_floor, effectiveTarget.
  apply Z.le_trans with (Qfloor (inject_Z (dragStartWPM (engine r))));
    [apply Qfloor_resp_le | rewrite Qfloor_Z; apply Z.le_refl].
  destruct (autoRevBlock_bounds t (engine r) Hle) as [Hlo Hhi].
  pose proof (rampEase_le_1 t (engine r)) as He.
  assert (HT : (0 <= inject_Z (targetWPM (engine r)))%Q)
    by (change 0%Q with (inject_Z 0); rewrite <- Zle_Qle; exact H0).
  set (eff := fst _) in *. set (ease := rampEase _ _) in *. nra.
Qed.

End LimitFacts.

(** ** Invariants of the engine along any sequence of events *)

Section InvariantFacts.

Variable book_id : string.
Variable words : list string.
Variable settings : AppSettings.

(** An invariant of every operation is an invariant of every run. *)
Lemma run_invariant (P : Reader -> Prop) :
  (forall ev r, P r -> P (step book_id words settings ev r)) ->
  forall evs r, P r -> P (run book_id words settings evs r).
Proof.
  intros Hstep evs. unfold run.
  induction evs as [|ev evs IH]; intros r Hr; simpl; [exact Hr|].
  apply IH, Hstep, Hr.
Qed.

(** What a Start keeps. *)
Lemma startPlayback_keeps (now x y : Q) (r : Reader) :
  let r' := startPlayback words now x y r in
  currentWPM (engine r') = currentWPM (engine r)
  /\ fontSize r' = fontSize r
  /\ showSettings r' = showSettings r
  /\ progressCalls r' = progressCalls r
  /\ ui_isPlaying r' = true
  /\ (ui_wordIndex r = wordIndex (engine r) ->
      ui_wordIndex r' = wordIndex (engine r')).
Proof.
  open_reader r. evaluate.
  destruct (words_length words - 1 <=? wordIndex0); repeat split; auto.
Qed.

Lemma startPlayback_speeds_ok (now x y : Q) (r : Reader) :
  speeds_ok r -> speeds_ok (startPlayback words now x y r).
Proof.
  intros [Ht _].
  destruct (startPlayback_fields words now x y r)
    as (_ & _ & _ & _ & Htarget & Hcruise & _ & Hdrag).
  unfold speeds_ok. rewrite Htarget, Hcruise, Hdrag.
  split; [exact Ht|]. intros _. split; [lia|].
  intros d Hd. injection Hd as <-. cbn [startWPM]. lia.
Qed.

Lemma stopPlayback_speeds_ok (r : Reader) :
  speeds_ok r -> speeds_ok (stopPlayback book_id r).
Proof.
  intros [Ht _].
  destruct (stopPlayback_keeps book_id r) as (Htarget & _).
  unfold speeds_ok. rewrite Htarget. split; [exact Ht|].
  rewrite stopPlayback_not_playing. discriminate.
Qed.

Lemma loop_speeds_ok (t : Q) (r : Reader) :
  speeds_ok r -> speeds_ok (loop book_id words settings t r).
Proof.
  intros [Ht Hplay].
  destruct (loop_keeps book_id words settings t r) as (Hdrag & _ & _ & Hwas).
  destruct (isPlaying (engine r)) eqn:Hp.
  - destruct (Hplay eq_refl) as [Hc Hd].
    destruct (loop_playing_speeds book_id words settings t r Hp)
      as (Htarget & _ & Hcruise & _).
    destruct (autoRevBlock_frame settings t (engine r))
      as (_ & _ & _ & _ & _ & _ & _ & _ & _ & Hsnap).
    unfold speeds_ok. rewrite Htarget, Hcruise, Hdrag.
    split; [destruct Hsnap as [-> | ->]; lia|].
    intros _. split; [destruct Hsnap as [-> | ->]; lia | exact Hd].
  - rewrite loop_stopped by assumption. unfold speeds_ok. fields.
    split; [exact Ht|]. rewrite Hp. discriminate.
Qed.

Lemma handlePointerMove_speeds_ok (now x y : Q) (r : Reader) :
  speeds_ok r -> speeds_ok (handlePointerMove now x y r).
Proof.
  intros Hok.
  destruct (dragRef r) as [d|] eqn:Hd;
    [|rewrite handlePointerMove_ignored by (left; exact Hd); exact Hok].
  destruct (isPlaying (engine r)) eqn:Hp;
    [|rewrite handlePointerMove_ignored by (right; exact Hp); exact Hok].
  destruct Hok as [Ht Hplay]. destruct (Hplay Hp) as [Hc Hs].
  specialize (Hs d Hd).
  destruct (handlePointerMove_speeds now x y r d Hd Hp)
    as (Htarget & Hcruise & Hdrag & _).
  cbv zeta in Htarget, Hcruise.
  set (newWPM := JS.Math_min _ _) in *.
  assert (Hround : MIN_WPM <= JS.Math_round newWPM <= MAX_WPM)
    by (apply Math_round_clamp; unfold MIN_WPM, MAX_WPM; lia).
  unfold speeds_ok. rewrite Htarget, Hcruise, Hdrag.
  split; [exact Hround|]. intros _.
  destruct (JS.Qltb (inject_Z (startWPM d)) newWPM) eqn:Hcmp.
  - apply Qltb_lt in Hcmp.
    assert (startWPM d <= JS.Math_round newWPM).
    { rewrite <- (Math_round_inject (startWPM d)).
      apply Math_round_le, Qlt_le_weak, Hcmp. }
    split; [lia|]. intros d' Hd'. injection Hd' as <-. assumption.
  - apply Qltb_ge in Hcmp.
    assert (JS.Math_round newWPM <= startWPM d).
    { rewrite <- (Math_round_inject (startWPM d)).
      apply Math_round_le, Hcmp. }
    split; [lia|]. intros d' Hd'. injection Hd' as <-. assumption.
Qed.

Lemma handlePointerUp_fields (now : Q) (r : Reader) :
  let stopped := if deadman settings then stopPlayback book_id r else r in
  let r' := handlePointerUp book_id settings now r in
  isPlaying (engine r') = isPlaying (engine stopped)
  /\ targetWPM (engine r') = targetWPM (engine stopped)
  /\ dragStartWPM (engine r') = dragStartWPM (engine stopped)
  /\ currentWPM (engine r') = currentWPM (engine stopped)
  /\ wordIndex (engine r') = wordIndex (engine stopped)
  /\ isDragging (engine r') = false
  /\ lastDragTime (engine r') = now
  /\ dragRef r' = None
  /\ fontSize r' = fontSize stopped
  /\ progressCalls r' = progressCalls stopped
  /\ ui_wordIndex r' = ui_wordIndex stopped
  /\ ui_isPlaying r' = ui_isPlaying stopped.
Proof.
  unfold handlePointerUp. destruct (deadman settings); fields; repeat split.
Qed.

Lemma step_speeds_ok (ev : event) (r : Reader) :
  speeds_ok r -> speeds_ok (step book_id words settings ev r).
Proof.
  intros Hok. destruct ev as [now x y| |t|now x y|now|now x y]; simpl.
  - apply startPlayback_speeds_ok, Hok.
  - apply stopPlayback_speeds_ok, Hok.
  - apply loop_speeds_ok, Hok.
  - unfold handlePointerDown.
    destruct (showSettings r); [exact Hok|].
    destruct (deadman settings); [apply startPlayback_speeds_ok, Hok|].
    destruct (isPlaying (engine r));
      [apply stopPlayback_speeds_ok | apply startPlayback_speeds_ok]; exact Hok.
  - destruct (handlePointerUp_fields now r)
      as (Hp & Ht & Hc & _ & _ & _ & _ & Hd & _).
    cbv zeta in Hp, Ht, Hc.
    assert (Hs : speeds_ok (if deadman settings
                            then stopPlayback book_id r else r))
      by (destruct (deadman settings);
          [apply stopPlayback_speeds_ok|]; exact Hok).
    destruct Hs as [Hlim Hplay].
    unfold speeds_ok. rewrite Hp, Ht, Hc, Hd.
    split; [exact Hlim|]. intros Hq. destruct (Hplay Hq) as [Hle _].
    split; [exact Hle | discriminate].
  - apply handlePointerMove_speeds_ok, Hok.
Qed.

Lemma initial_speeds_ok (progressIndex : Z) :
  speeds_ok (initial_reader progressIndex).
Proof.
  unfold speeds_ok. cbn. split; [unfold MIN_WPM, MAX_WPM, INITIAL_wpm; lia|].
  discriminate.
Qed.

End InvariantFacts.

Section MirrorFacts.

Variable book_id : string.
Variable words : list string.
Variable settings : AppSettings.

Lemma handlePointerMove_playing (now x y : Q) (r : Reader) :
  isPlaying (engine (handlePointerMove now x y r)) = isPlaying (engine r)
  /\ currentWPM (engine (handlePointerMove now x y r)) = currentWPM (engine r)
  /\ progressCalls (handlePointerMove now x y r) = progressCalls r
  /\ ui_wordIndex (handlePointerMove now x y r) = ui_wordIndex r
  /\ ui_isPlaying (handlePointerMove now x y r) = ui_isPlaying r.
Proof.
  unfold handlePointerMove.
  destruct (dragRef r); [|repeat split].
  destruct (isPlaying (engine r)) eqn:Hp; cbn [negb]; [|repeat split; auto].
  destruct (JS.Qltb _ _); fields; repeat split; auto.
Qed.

Lemma stopPlayback_mirror (r : Reader) :
  ui_mirrors_engine r -> ui_mirrors_engine (stopPlayback book_id r).
Proof.
  intros H. destruct (isPlaying (engine r)) eqn:Hp.
  - rewrite stopPlayback_playing by assumption.
    unfold ui_mirrors_engine. fields. split; reflexivity.
  - rewrite stopPlayback_stopped by assumption. exact H.
Qed.

Lemma startPlayback_mirror (now x y : Q) (r : Reader) :
  ui_mirrors_engine r -> ui_mirrors_engine (startPlayback words now x y r).
Proof.
  intros [Hw _].
  destruct (startPlayback_keeps words now x y r) as (_ & _ & _ & _ & Hp & Hi).
  destruct (startPlayback_fields words now x y r) as (Hq & _).
  split; [apply Hi, Hw | congruence].
Qed.

Lemma loop_mirror (t : Q) (r : Reader) :
  ui_mirrors_engine r -> ui_mirrors_engine (loop book_id words settings t r).
Proof.
  pose proof (autoRevBlock_frame settings t) as A.
  unfold ui_mirrors_engine. open_reader r.
  cbn [ui_wordIndex ui_isPlaying]. intros [-> ->]. evaluate.
  destruct isPlaying0; destruct (JS.falsy lastFrameTime0); evaluate;
    try (split; reflexivity);
    auto_rev_result A; branches; split; reflexivity.
Qed.

Lemma step_mirror (ev : event) (r : Reader) :
  ui_mirrors_engine r ->
  ui_mirrors_engine (step book_id words settings ev r).
Proof.
  intros H. destruct ev as [now x y| |t|now x y|now|now x y]; simpl.
  - apply startPlayback_mirror, H.
  - apply stopPlayback_mirror, H.
  - apply loop_mirror, H.
  - unfold handlePointerDown.
    destruct (showSettings r); [exact H|].
    destruct (deadman settings); [apply startPlayback_mirror, H|].
    destruct (isPlaying (engine r));
      [apply stopPlayback_mirror | apply startPlayback_mirror]; exact H.
  - destruct (handlePointerUp_fields book_id settings now r)
      as (Hp & _ & _ & _ & Hw & _ & _ & _ & _ & _ & Huw & Hup).
    cbv zeta in Hp, Hw, Huw, Hup.
    assert (Hs : ui_mirrors_engine (if deadman settings
                                    then stopPlayback book_id r else r))
      by (destruct (deadman settings); [apply stopPlayback_mirror|]; exact H).
    destruct Hs as [Hs1 Hs2]. split; congruence.
  - destruct (handlePointerMove_playing now x y r) as (Hp & _ & _ & Huw & Hup).
    destruct H as [H1 H2]. split.
    + rewrite Huw, handlePointerMove_index. exact H1.
    + congruence.
Qed.

(** The font size is written by a drag-move only, clamped and rounded. *)
Lemma step_font_ok (ev : event) (r : Reader) :
  font_ok r -> font_ok (step book_id words settings ev r).
Proof.
  unfold font_ok. intros H.
  assert (Hstart : forall now x y,
             fontSize (startPlayback words now x y r) = fontSize r)
    by (intros; apply (startPlayback_keeps words now x y r)).
  assert (Hstop : fontSize (stopPlayback book_id r) = fontSize r)
    by apply (stopPlayback_keeps book_id r).
  destruct ev as [now x y| |t|now x y|now|now x y]; cbn [step].
  - rewrite Hstart. exact H.
  - rewrite Hstop. exact H.
  - destruct (loop_keeps book_id words settings t r) as (_ & -> & _). exact H.
  - unfold handlePointerDown.
    destruct (showSettings r); [exact H|].
    destruct (deadman settings); [rewrite Hstart; exact H|].
    destruct (isPlaying (engine r)); [rewrite Hstop | rewrite Hstart]; exact H.
  - destruct (handlePointerUp_fields book_id settings now r)
      as (_ & _ & _ & _ & _ & _ & _ & _ & Hf & _).
    cbv zeta in Hf. rewrite Hf.
    destruct (deadman settings); [rewrite Hstop|]; exact H.
  - destruct (dragRef r) as [d|] eqn:Hd;
      [|rewrite handlePointerMove_ignored by (left; exact Hd); exact H].
    destruct (isPlaying (engine r)) eqn:Hp;
      [|rewrite handlePointerMove_ignored by (right; exact Hp); exact H].
    destruct (handlePointerMove_font now x y r d Hd Hp) as (-> & _).
    apply Math_round_clamp. unfold MIN_FONT_SIZE, MAX_FONT_SIZE. lia.
Qed.

(** The current speed stays at or below the upper speed limit. *)
Lemma step_currentWPM (ev : event) (r : Reader) :
  speeds_ok r -> currentWPM (engine r) <= MAX_WPM ->
  currentWPM (engine (step book_id words settings ev r)) <= MAX_WPM.
Proof.
  intros Hok H.
  assert (Hstart : forall now x y,
             currentWPM (engine (startPlayback words now x y r))
             = currentWPM (engine r))
    by (intros; apply (startPlayback_keeps words now x y r)).
  assert (Hstop : currentWPM (engine (stopPlayback book_id r))
                  = currentWPM (engine r))
    by apply (stopPlayback_keeps book_id r).
  destruct ev as [now x y| |t|now x y|now|now x y]; cbn [step].
  - rewrite Hstart. exact H.
  - rewrite Hstop. exact H.
  - destruct (isPlaying (engine r)) eqn:Hp.
    + destruct Hok as [Ht Hplay]. destruct (Hplay Hp) as [Hc _].
      apply Z.le_trans with (dragStartWPM (engine r)); [|lia].
      apply loop_currentWPM_le; [exact Hp|]. unfold MIN_WPM in Ht. lia.
    + rewrite loop_stopped by assumption. fields. unfold MAX_WPM. lia.
  - unfold handlePointerDown.
    destruct (showSettings r); [exact H|].
    destruct (deadman settings); [rewrite Hstart; exact H|].
    destruct (isPlaying (engine r)); [rewrite Hstop | rewrite Hstart]; exact H.
  - destruct (handlePointerUp_fields book_id settings now r)
      as (_ & _ & _ & Hc & _).
    cbv zeta in Hc. rewrite Hc.
    destruct (deadman settings); [rewrite Hstop|]; exact H.
  - destruct (handlePointerMove_playing now x y r) as (_ & -> & _). exact H.
Qed.

End MirrorFacts.

(** ** When the progress callback is called *)

Section ProgressFacts.

Variable book_id : string.
Variable words : list string.
Variable settings : AppSettings.

Lemma reports_nothing (before after : Reader) :
  progressCalls after = progressCalls before ->
  isPlaying (engine after) = true \/ isPlaying (engine before) = false ->
  reports book_id before after.
Proof.
  intros Hc H. unfold reports, owed_call.
  destruct H as [H | H]; rewrite H;
    rewrite ?andb_false_r; cbn [andb negb]; rewrite app_nil_r;
    (split; [exact Hc | congruence]).
Qed.

Lemma stopPlayback_reports (r : Reader) : reports book_id r (stopPlayback book_id r).
Proof.
  destruct (isPlaying (engine r)) eqn:Hp.
  - unfold reports, owed_call. rewrite stopPlayback_not_playing, Hp.
    rewrite stopPlayback_playing by assumption. fields. split; reflexivity.
  - rewrite stopPlayback_stopped by assumption.
    apply reports_nothing; [reflexivity | right; exact Hp].
Qed.

Lemma startPlayback_reports (now x y : Q) (r : Reader) :
  reports book_id r (startPlayback words now x y r).
Proof.
  apply reports_nothing.
  - apply (startPlayback_keeps words now x y r).
  - left. apply (startPlayback_fields words now x y r).
Qed.

Lemma loop_reports (t : Q) (r : Reader) :
  reports book_id r (loop book_id words settings t r).
Proof.
  destruct (isPlaying (engine r)) eqn:Hp.
  - destruct (loop_playing_cases book_id words settings t r Hp)
      as [(Hq & Hc & _) | (Hq & _ & Hw & Hc)].
    + apply reports_nothing; [exact Hc | left; exact Hq].
    + unfold reports, owed_call. rewrite Hp, Hq, Hw. cbn [andb negb].
      split; [exact Hc | reflexivity].
  - rewrite loop_stopped by assumption.
    apply reports_nothing; [reflexivity | right; exact Hp].
Qed.

Lemma step_reports (ev : event) (r : Reader) :
  reports book_id r (step book_id words settings ev r).
Proof.
  destruct ev as [now x y| |t|now x y|now|now x y]; cbn [step].
  - apply startPlayback_reports.
  - apply stopPlayback_reports.
  - apply loop_reports.
  - unfold handlePointerDown.
    destruct (showSettings r).
    { apply reports_nothing; [reflexivity|].
      destruct (isPlaying (engine r)); auto. }
    destruct (deadman settings); [apply startPlayback_reports|].
    destruct (isPlaying (engine r));
      [apply stopPlayback_reports | apply startPlayback_reports].
  - destruct (handlePointerUp_fields book_id settings now r)
      as (Hp & _ & _ & _ & Hw & _ & _ & _ & _ & Hc & _).
    cbv zeta in Hp, Hw, Hc.
    assert (Hs : reports book_id r (if deadman settings
                            then stopPlayback book_id r else r)).
    { destruct (deadman settings); [apply stopPlayback_reports|].
      apply reports_nothing; [reflexivity|].
      destruct (isPlaying (engine r)); auto. }
    unfold reports, owed_call in *. rewrite Hp, Hw, Hc. exact Hs.
  - destruct (handlePointerMove_playing now x y r) as (Hp & _ & Hc & _).
    apply reports_nothing; [exact Hc|]. rewrite Hp.
    destruct (isPlaying (engine r)); auto.
Qed.

End ProgressFacts.

(** ** The engine in every reachable state *)

(** X1. Whatever the sequence of pointer events, frames, Starts and Stops
    applied to a freshly opened reader, [targetWPM] stays between [MIN_WPM]
    and [MAX_WPM], [currentWPM] never exceeds [MAX_WPM], and while playing
    the target is at most the cruise setpoint, itself at most [MAX_WPM]. *)
Theorem speeds_within_limits
    (book_id : string) (words : list string) (settings : AppSettings)
    (evs : list event) (progressIndex : Z) :
  let r := run book_id words settings evs (initial_reader progressIndex) in
  MIN_WPM <= targetWPM (engine r) <= MAX_WPM
  /\ currentWPM (engine r) <= MAX_WPM
  /\ (isPlaying (engine r) = true ->
      targetWPM (engine r) <= dragStartWPM (engine r) <= MAX_WPM).
Proof.
  cbv zeta.
  assert (H : speeds_ok (run book_id words settings evs
                           (initial_reader progressIndex))
              /\ currentWPM (engine (run book_id words settings evs
                                       (initial_reader progressIndex)))
                 <= MAX_WPM).
  { apply (run_invariant book_id words settings
             (fun r => speeds_ok r /\ currentWPM (engine r) <= MAX_WPM)).
    - intros ev r [Hok Hc]. split.
      + apply step_speeds_ok, Hok.
      + apply step_currentWPM; assumption.
    - split; [apply initial_speeds_ok | cbn; unfold MAX_WPM; lia]. }
  destruct H as [[Ht Hplay] Hc].
  split; [exact Ht|]. split; [exact Hc|].
  intros Hp. apply (Hplay Hp).
Qed.

(** X2. Whatever the sequence of events, the font size stays between
    [MIN_FONT_SIZE] and [MAX_FONT_SIZE]. *)
Theorem fontSize_within_limits
    (book_id : string) (words : list string) (settings : AppSettings)
    (evs : list event) (progressIndex : Z) :
  font_ok (run book_id words settings evs (initial_reader progressIndex)).
Proof.
  apply (run_invariant book_id words settings font_ok).
  - intros ev r. apply step_font_ok.
  - unfold font_ok, MIN_FONT_SIZE, MAX_FONT_SIZE. cbn.
    unfold INITIAL_fontSize. lia.
Qed.

(** X3. Whatever the sequence of events, the displayed word index and the
    displayed playing flag are the engine's: no operation writes one
    without the other. *)
Theorem ui_cells_mirror_engine
    (book_id : string) (words : list string) (settings : AppSettings)
    (evs : list event) (progressIndex : Z) :
  ui_mirrors_engine
    (run book_id words settings evs (initial_reader progressIndex)).
Proof.
  apply (run_invariant book_id words settings ui_mirrors_engine).
  - intros ev r. apply step_mirror.
  - split; reflexivity.
Qed.

(** X4. Every operation calls the progress callback exactly when it takes
    the reader from playing to stopped, once, with the book id and the
    engine's word index, which is then the index before the operation
    rewound by [REWIND_COUNT] and clamped at 0; no other operation calls
    it, and no recorded call is ever dropped. *)
Theorem progress_reported_exactly_on_stop
    (book_id : string) (words : list string) (settings : AppSettings)
    (ev : event) (r : Reader) :
  let r' := step book_id words settings ev r in
  progressCalls r'
  = progressCalls r
      ++ (if isPlaying (engine r) && negb (isPlaying (engine r'))
          then [(book_id, wordIndex (engine r'))] else [])
  /\ (isPlaying (engine r) && negb (isPlaying (engine r')) = true ->
      wordIndex (engine r')
      = Z.max 0 (wordIndex (engine r) - REWIND_COUNT)).
Proof.
  destruct (step_reports book_id words settings ev r) as [Hc Hw].
  split; [exact Hc|]. intros H.
  apply andb_prop in H. destruct H as [Hp Hq].
  apply Hw; [exact Hp|]. apply negb_true_iff. exact Hq.
Qed.

Lemma progress_reported_exactly_on_stop_witness :
  progressCalls
    (step sample_book sample_words sample_settings (PointerDown 6000 10 10)
       sample_playing)
  = [(sample_book, 4)]
  /\ wordIndex
       (engine (step sample_book sample_words sample_settings
                  (PointerDown 6000 10 10) sample_playing)) = 4.
Proof.
  destruct (progress_reported_exactly_on_stop sample_book sample_words
              sample_settings (PointerDown 6000 10 10) sample_playing)
    as [Hc Hw].
  split; [exact Hc | exact (Hw eq_refl)].
Defined.

(** X5. For a reader opened at a position inside the word sequence, every
    call of the progress callback carries the book id and an index between
    0 and [max 0 (wordCount - 1 - REWIND_COUNT)]: the saved position never
    lies in the last three words. *)
Theorem saved_progress_bound
    (book_id : string) (words : list string) (settings : AppSettings)
    (evs : list event) (progressIndex : Z) :
  0 <= progressIndex < words_length words ->
  Forall (fun call => fst call = book_id
                      /\ 0 <= snd call <= last_saved_index (words_length words))
    (progressCalls
       (run book_id words settings evs (initial_reader progressIndex))).
Proof.
  intros Hidx.
  assert (Hne : words <> []).
  { intros ->. unfold words_length in Hidx. cbn in Hidx. lia. }
  set (Q := fun call : string * Z =>
              fst call = book_id
              /\ 0 <= snd call <= last_saved_index (words_length words)).
  assert (H : wordIndex_in_range words
                (run book_id words settings evs (initial_reader progressIndex))
              /\ Forall Q (progressCalls
                   (run book_id words settings evs
                      (initial_reader progressIndex)))).
  { apply (run_invariant book_id words settings
             (fun r => wordIndex_in_range words r
                       /\ Forall Q (progressCalls r))).
    - intros ev r [Hr Hq].
      pose proof (step_index book_id words settings ev r Hne Hr) as Hr'.
      split; [exact Hr'|].
      destruct (step_reports book_id words settings ev r) as [Hc Hw].
      rewrite Hc. apply Forall_app. split; [exact Hq|].
      unfold owed_call.
      destruct (isPlaying (engine r)) eqn:Hp; cbn [andb]; [|constructor].
      destruct (isPlaying (engine (step book_id words settings ev r))) eqn:Hp';
        cbn [negb]; constructor; [|constructor].
      unfold Q, last_saved_index. cbn [fst snd]. split; [reflexivity|].
      rewrite (Hw eq_refl eq_refl).
      unfold wordIndex_in_range, REWIND_COUNT in *. lia.
    - split; [exact Hidx | constructor]. }
  exact (proj2 H).
Qed.

Lemma saved_progress_bound_witness :
  Forall (fun call => fst call = sample_book
                      /\ 0 <= snd call
                         <= last_saved_index (words_length sample_words))
    (progressCalls
       (run sample_book sample_words sample_settings
          [Start 1000 10 10; Frame 1016; Frame 3000; Stop;
           Start 9000 10 10; Stop]
          (initial_reader 14)))
  /\ last_saved_index (words_length sample_words) = 11.
Proof.
  split; [|reflexivity].
  apply (saved_progress_bound sample_book sample_words sample_settings).
  vm_compute. split; [discriminate | reflexivity].
Defined.

(** ** The two interaction policies *)

(** X6. With the deadman switch on and the settings panel closed, a
    pointer-down starts playback and the pointer-up that follows stops it:
    a tap without a frame in between leaves the reader stopped, with the
    drag session closed, three words before the word it started from
    (clamped at 0), and saves that position with one call. *)
Theorem deadman_tap_rewinds
    (book_id : string) (words : list string) (settings : AppSettings)
    (now x y now' : Q) (r : Reader) :
  deadman settings = true ->
  showSettings r = false ->
  let down := handlePointerDown book_id words settings now x y r in
  let up := handlePointerUp book_id settings now' down in
  let from :=
    if words_length words - 1 <=? wordIndex (engine r)
    then 0 else wordIndex (engine r) in
  isPlaying (engine down) = true
  /\ wordIndex (engine down) = from
  /\ isPlaying (engine up) = false
  /\ dragRef up = None
  /\ wordIndex (engine up) = Z.max 0 (from - REWIND_COUNT)
  /\ progressCalls up
     = progressCalls r ++ [(book_id, Z.max 0 (from - REWIND_COUNT))].
Proof.
  intros Hdead Hset. cbv zeta.
  unfold handlePointerDown. rewrite Hset, Hdead.
  destruct (startPlayback_fields words now x y r)
    as (Hp & _ & _ & _ & _ & _ & Hw & _).
  destruct (startPlayback_keeps words now x y r) as (_ & _ & _ & Hc & _).
  destruct (handlePointerUp_fields book_id settings now'
              (startPlayback words now x y r))
    as (Hp' & _ & _ & _ & Hw' & _ & _ & Hd' & _ & Hc' & _).
  cbv zeta in Hp', Hw', Hc'. rewrite Hdead in Hp', Hw', Hc'.
  rewrite stopPlayback_playing in Hp', Hw', Hc' by exact Hp.
  revert Hp' Hw' Hc'. fields. intros Hp' Hw' Hc'.
  rewrite Hw in Hw', Hc'. rewrite Hc in Hc'.
  repeat split; assumption.
Qed.

Lemma deadman_tap_rewinds_witness :
  let settings := mkSettings true true true true false in
  let up :=
    handlePointerUp sample_book settings 2100
      (handlePointerDown sample_book sample_words settings 2000 10 10
         sample_stopped) in
  isPlaying (engine up) = false
  /\ wordIndex (engine sample_stopped) = 4
  /\ wordIndex (engine up) = 1
  /\ progressCalls up = progressCalls sample_stopped ++ [(sample_book, 1)].
Proof.
  intros settings up.
  destruct (deadman_tap_rewinds sample_book sample_words settings
              2000 10 10 2100 sample_stopped eq_refl eq_refl)
    as (_ & _ & Hp & _ & Hw & Hc).
  split; [exact Hp|]. split; [reflexivity|]. split; [exact Hw | exact Hc].
Defined.

(** X7. With the deadman switch off, a pointer-down toggles playback when
    the settings panel is closed and does nothing when it is open, and a
    pointer-up neither stops playback nor saves progress: it only ends the
    drag. *)
Theorem toggle_policy
    (book_id : string) (words : list string) (settings : AppSettings)
    (now x y : Q) (r : Reader) :
  deadman settings = false ->
  (showSettings r = true ->
   handlePointerDown book_id words settings now x y r = r)
  /\ (showSettings r = false ->
      isPlaying (engine (handlePointerDown book_id words settings now x y r))
      = negb (isPlaying (engine r)))
  /\ isPlaying (engine (handlePointerUp book_id settings now r))
     = isPlaying (engine r)
  /\ wordIndex (engine (handlePointerUp book_id settings now r))
     = wordIndex (engine r)
  /\ progressCalls (handlePointerUp book_id settings now r) = progressCalls r
  /\ isDragging (engine (handlePointerUp book_id settings now r)) = false
  /\ dragRef (handlePointerUp book_id settings now r) = None.
Proof.
  intros Htoggle.
  destruct (handlePointerUp_fields book_id settings now r)
    as (Hp & _ & _ & _ & Hw & Hdr & _ & Hd & _ & Hc & _).
  cbv zeta in Hp, Hw, Hc. rewrite Htoggle in Hp, Hw, Hc.
  split; [|split; [|repeat split; assumption]].
  - intros Hset. unfold handlePointerDown. rewrite Hset. reflexivity.
  - intros Hset. unfold handlePointerDown. rewrite Hset, Htoggle.
    destruct (isPlaying (engine r)) eqn:Hq; cbn [negb].
    + apply stopPlayback_not_playing.
    + apply (startPlayback_fields words now x y r).
Qed.

Lemma toggle_policy_witness :
  isPlaying
    (engine (handlePointerDown sample_book sample_words sample_settings
               6000 10 10 sample_playing)) = false
  /\ isPlaying
       (engine (handlePointerDown sample_book sample_words sample_settings
                  6000 10 10 sample_stopped)) = true
  /\ isPlaying (engine (handlePointerUp sample_book sample_settings 6000
                          sample_playing)) = true.
Proof.
  destruct (toggle_policy sample_book sample_words sample_settings
              6000 10 10 sample_playing eq_refl) as (_ & H1 & H2 & _).
  destruct (toggle_policy sample_book sample_words sample_settings
              6000 10 10 sample_stopped eq_refl) as (_ & H3 & _).
  split; [exact (H1 eq_refl)|]. split; [exact (H3 eq_refl) | exact H2].
Defined.

(** X8. A drag-move changes the speed only inside an open drag session of a
    playing reader: after a pointer-up, and after any Stop, every drag-move
    leaves the reader as it is, until the next Start. *)
Theorem drag_needs_open_session
    (book_id : string) (settings : AppSettings)
    (now t x y : Q) (r : Reader) :
  handlePointerMove t x y (handlePointerUp book_id settings now r)
  = handlePointerUp book_id settings now r
  /\ handlePointerMove t x y (stopPlayback book_id r) = stopPlayback book_id r.
Proof.
  split; apply handlePointerMove_ignored.
  - left. apply (handlePointerUp_fields book_id settings now r).
  - right. apply stopPlayback_not_playing.
Qed.

(** X9. With an empty word sequence no operation ever moves the word index
    off 0: a Start resets it, a frame whose dwell has elapsed stops
    playback instead of advancing, and a Stop rewinds to 0. *)
Theorem empty_book_stays_at_zero
    (book_id : string) (settings : AppSettings) (evs : list event) :
  wordIndex (engine (run book_id [] settings evs (initial_reader 0))) = 0.
Proof.
  apply (run_invariant book_id [] settings
           (fun r => wordIndex (engine r) = 0)); [|reflexivity].
  intros ev r Hr.
  assert (Hstart : forall now x y,
             wordIndex (engine (startPlayback [] now x y r)) = 0).
  { intros now x y.
    destruct (startPlayback_fields [] now x y r)
      as (_ & _ & _ & _ & _ & _ & Hw & _).
    rewrite Hw, Hr. reflexivity. }
  assert (Hstop : wordIndex (engine (stopPlayback book_id r)) = 0).
  { destruct (isPlaying (engine r)) eqn:Hp.
    - rewrite stopPlayback_playing by assumption. fields. rewrite Hr.
      reflexivity.
    - rewrite stopPlayback_stopped by assumption. exact Hr. }
  destruct ev as [now x y| |t|now x y|now|now x y]; cbn [step].
  - apply Hstart.
  - exact Hstop.
  - destruct (isPlaying (engine r)) eqn:Hp.
    + destruct (loop_playing_cases book_id [] settings t r Hp)
        as [(_ & _ & [Hw | [_ Hlt]]) | (_ & _ & Hw & _)].
      * congruence.
      * unfold words_length in Hlt. cbn in Hlt. lia.
      * rewrite Hw, Hr. reflexivity.
    + rewrite loop_stopped by assumption. fields. exact Hr.
  - unfold handlePointerDown.
    destruct (showSettings r); [exact Hr|].
    destruct (deadman settings); [apply Hstart|].
    destruct (isPlaying (engine r)); [exact Hstop | apply Hstart].
  - destruct (handlePointerUp_fields book_id settings now r)
      as (_ & _ & _ & _ & Hw & _).
    cbv zeta in Hw. rewrite Hw.
    destruct (deadman settings); [exact Hstop | exact Hr].
  - rewrite handlePointerMove_index. exact Hr.
Qed.

(** ** The key-value store and the library *)

Section StoreFacts.

Import Controller.

Lemma db_get_set_same (key : string) (v : Value) (store : Store) :
  db_get key (db_set key v store) = Some v.
Proof. unfold db_get, db_set. cbn. rewrite String.eqb_refl. reflexivity. Qed.

Lemma db_get_del_other (key key' : string) (store : Store) :
  key' <> key -> db_get key' (db_del key store) = db_get key' store.
Proof.
  intros Hne. unfold db_get, db_del.
  induction store as [|[k v] rest IH]; [reflexivity|]. cbn.
  destruct (String.eqb_spec k key) as [-> | Hk]; cbn.
  - destruct (String.eqb_spec key key') as [E | _]; [congruence | exact IH].
  - destruct (String.eqb k key'); [reflexivity | exact IH].
Qed.

Lemma db_get_del_same (key : string) (store : Store) :
  db_get key (db_del key store) = None.
Proof.
  unfold db_get, db_del.
  induction store as [|[k v] rest IH]; [reflexivity|]. cbn.
  destruct (String.eqb_spec k key) as [-> | Hk]; cbn; [exact IH|].
  destruct (String.eqb_spec k key) as [E | _]; [contradiction | exact IH].
Qed.

Lemma db_get_set_other (key key' : string) (v : Value) (store : Store) :
  key' <> key -> db_get key' (db_set key v store) = db_get key' store.
Proof.
  intros Hne. unfold db_set.
  rewrite <- (db_get_del_other key key' store Hne).
  unfold db_get at 1. cbn.
  destruct (String.eqb_spec key key') as [E | _]; [congruence | reflexivity].
Qed.

Lemma db_del_del (key : string) (store : Store) :
  db_del key (db_del key store) = db_del key store.
Proof.
  unfold db_del. induction store as [|[k v] rest IH]; [reflexivity|]. cbn.
  destruct (String.eqb k key) eqn:E; cbn; [exact IH|].
  rewrite E. cbn. f_equal. exact IH.
Qed.

Lemma db_set_set (key : string) (v v' : Value) (store : Store) :
  db_set key v' (db_set key v store) = db_set key v' store.
Proof.
  unfold db_set. f_equal. unfold db_del at 1. cbn.
  rewrite String.eqb_refl. cbn. apply db_del_del.
Qed.

Lemma content_key_inj (i j : string) : content_key i = content_key j -> i = j.
Proof. unfold content_key. cbn. intros H. injection H as H. exact H. Qed.

Lemma content_key_not_library (i : string) : content_key i <> "library"%string.
Proof. unfold content_key. cbn. discriminate. Qed.

Lemma with_progress_id (i : string) (index : Z) (b : BookMeta) :
  id (with_progress i index b) = id b.
Proof. unfold with_progress. destruct (String.eqb (id b) i); reflexivity. Qed.

Lemma find_book_update_same (i : string) (index : Z) (books : list BookMeta) :
  find_book i (map (with_progress i index) books)
  = option_map (with_progressIndex index) (find_book i books).
Proof.
  unfold find_book.
  induction books as [|b rest IH]; [reflexivity|]. cbn.
  rewrite with_progress_id. unfold with_progress at 1.
  destruct (String.eqb (id b) i); [reflexivity | exact IH].
Qed.

Lemma find_book_update_other (i j : string) (index : Z)
    (books : list BookMeta) :
  j <> i ->
  find_book j (map (with_progress i index) books) = find_book j books.
Proof.
  intros Hne. unfold find_book.
  induction books as [|b rest IH]; [reflexivity|]. cbn.
  rewrite with_progress_id.
  destruct (String.eqb_spec (id b) j) as [E | _]; [|exact IH].
  unfold with_progress.
  destruct (String.eqb_spec (id b) i) as [E' | _]; [congruence | reflexivity].
Qed.

Lemma handleUpdateProgress_eq (i : string) (index : Z) (a : App) :
  handleUpdateProgress i index a
  = setLibrary (map (with_progress i index) (library a))
      (with_db (db_set "library"
                  (VLibrary (map (with_progress i index) (library a))) (db a))
         a).
Proof. reflexivity. Qed.

End StoreFacts.

Section ControllerFacts.

Import Controller.

Lemma find_book_id (i : string) (books : list BookMeta) (b : BookMeta) :
  find_book i books = Some b -> id b = i.
Proof.
  unfold find_book. intros H. apply find_some in H. destruct H as [_ H].
  apply String.eqb_eq. exact H.
Qed.

Lemma with_progressIndex_same (b : BookMeta) :
  with_progressIndex (progressIndex b) b = b.
Proof. destruct b. reflexivity. Qed.

(** Delivering calls that all name the book [i] leaves that book with the
    index of the last call. *)
Lemma deliver_find_book (i : string) (calls : list (string * Z)) (a : App) :
  Forall (fun call => fst call = i) calls ->
  find_book i (library (deliver calls a))
  = option_map
      (fun b => with_progressIndex (last_index calls (progressIndex b)) b)
      (find_book i (library a)).
Proof.
  unfold deliver, last_index. revert a.
  induction calls as [|[j n] rest IH]; intros a Hall.
  - cbn. destruct (find_book i (library a)) as [b|]; [|reflexivity].
    cbn. rewrite with_progressIndex_same. reflexivity.
  - inversion Hall as [|? ? Hj Hrest]; subst. cbn [fst] in *.
    cbn [fold_left fst snd]. rewrite (IH _ Hrest).
    rewrite handleUpdateProgress_eq. cbn [library setLibrary with_db].
    fold (with_progress j n). rewrite find_book_update_same.
    destruct (find_book j (library a)) as [b|]; reflexivity.
Qed.

Lemma deliver_keeps (calls : list (string * Z)) (a : App) :
  view (deliver calls a) = view a
  /\ activeBookId (deliver calls a) = activeBookId a
  /\ activeWords (deliver calls a) = activeWords a.
Proof.
  unfold deliver. revert a.
  induction calls as [|c rest IH]; intros a; [repeat split|].
  cbn [fold_left]. destruct (IH (handleUpdateProgress (fst c) (snd c) a))
    as (H1 & H2 & H3).
  rewrite H1, H2, H3. repeat split.
Qed.

End ControllerFacts.

Section ResumeFacts.

Variable book_id : string.
Variable words : list string.
Variable settings : AppSettings.

(** An operation that finds the reader stopped and leaves it stopped does
    not move the word index. *)
Lemma step_stopped_index (ev : event) (r : Reader) :
  isPlaying (engine r) = false ->
  isPlaying (engine (step book_id words settings ev r)) = false ->
  wordIndex (engine (step book_id words settings ev r)) = wordIndex (engine r).
Proof.
  intros Hp.
  assert (Hstart : forall now x y,
             isPlaying (engine (startPlayback words now x y r)) = true)
    by (intros; apply (startPlayback_fields words now x y r)).
  destruct ev as [now x y| |t|now x y|now|now x y]; cbn [step].
  - rewrite Hstart. discriminate.
  - rewrite stopPlayback_stopped by assumption. reflexivity.
  - rewrite loop_stopped by assumption. reflexivity.
  - unfold handlePointerDown.
    destruct (showSettings r); [reflexivity|].
    destruct (deadman settings); [rewrite Hstart; discriminate|].
    rewrite Hp, Hstart. discriminate.
  - intros _.
    destruct (handlePointerUp_fields book_id settings now r)
      as (_ & _ & _ & _ & Hw & _).
    cbv zeta in Hw. rewrite Hw.
    destruct (deadman settings); [|reflexivity].
    rewrite stopPlayback_stopped by assumption. reflexivity.
  - intros _. apply handlePointerMove_index.
Qed.

(** Along any run from a freshly opened reader: the calls all name the
    book, and a stopped reader stands where the last call said, or where
    it was opened if there was none. *)
Lemma run_last_call (evs : list event) (start : Z) :
  let r := run book_id words settings evs (initial_reader start) in
  Forall (fun call => fst call = book_id) (progressCalls r)
  /\ (isPlaying (engine r) = false ->
      Controller.last_index (progressCalls r) start = wordIndex (engine r)).
Proof.
  apply (run_invariant book_id words settings
           (fun r => Forall (fun call => fst call = book_id) (progressCalls r)
                     /\ (isPlaying (engine r) = false ->
                         Controller.last_index (progressCalls r) start
                         = wordIndex (engine r)))).
  - intros ev r [Hall Hlast].
    destruct (step_reports book_id words settings ev r) as [Hc _].
    rewrite Hc. unfold owed_call, Controller.last_index in *.
    destruct (isPlaying (engine r)) eqn:Hp; cbn [andb].
    + destruct (isPlaying (engine (step book_id words settings ev r))) eqn:Hq;
        cbn [negb].
      * rewrite app_nil_r. split; [exact Hall | discriminate].
      * split; [apply Forall_app; split; [exact Hall | repeat constructor]|].
        intros _. rewrite fold_left_app. reflexivity.
    + rewrite app_nil_r. split; [exact Hall|]. intros Hq.
      rewrite (step_stopped_index ev r Hp Hq). apply Hlast. reflexivity.
  - split; [constructor | reflexivity].
Qed.

End ResumeFacts.

(** ** The library under the controller's handlers *)

(** X10. A progress update sets the saved position of the book with the
    given id and of no other: the book looked up by that id afterwards has
    the new index and is otherwise as before, every other lookup is
    unchanged, no book is added, dropped or moved, the stored copy of the
    library is the new library, and the stored contents are untouched. *)
Theorem update_progress_lookup
    (i : string) (index : Z) (a : Controller.App) :
  let a' := Controller.handleUpdateProgress i index a in
  Controller.find_book i (Controller.library a')
  = option_map (Controller.with_progressIndex index)
      (Controller.find_book i (Controller.library a))
  /\ (forall j, j <> i ->
        Controller.find_book j (Controller.library a')
        = Controller.find_book j (Controller.library a))
  /\ map Controller.id (Controller.library a')
     = map Controller.id (Controller.library a)
  /\ Controller.library_saved a'
  /\ (forall j,
        Controller.db_get (Controller.content_key j) (Controller.db a')
        = Controller.db_get (Controller.content_key j) (Controller.db a)).
Proof.
  cbv zeta. rewrite handleUpdateProgress_eq.
  cbn [Controller.library Controller.setLibrary Controller.with_db
       Controller.db].
  split; [apply find_book_update_same|].
  split; [intros j Hj; apply find_book_update_other, Hj|].
  split.
  { rewrite map_map. apply map_ext. intros b. apply with_progress_id. }
  split.
  { unfold Controller.library_saved.
    cbn [Controller.library Controller.setLibrary Controller.with_db
         Controller.db].
    apply db_get_set_same. }
  intros j. apply db_get_set_other, content_key_not_library.
Qed.

Lemma update_progress_lookup_witness :
  let a' := Controller.handleUpdateProgress "demo" 7 Controller.sample_app in
  option_map Controller.progressIndex
    (Controller.find_book "demo" (Controller.library a')) = Some 7
  /\ Controller.find_book "book_1_0" (Controller.library a')
     = Controller.find_book "book_1_0"
         (Controller.library Controller.sample_app).
Proof.
  destruct (update_progress_lookup "demo" 7 Controller.sample_app)
    as (H1 & H2 & _).
  intros a'. split.
  - unfold a'. rewrite H1. reflexivity.
  - apply H2. discriminate.
Defined.

(** X11. Progress updates overwrite and commute: of two updates of one
    book the later one alone counts, and updates of two different books
    give the same library and store in either order. *)
Theorem update_progress_last_write_wins
    (i j : string) (n m : Z) (a : Controller.App) :
  Controller.handleUpdateProgress i n (Controller.handleUpdateProgress i m a)
  = Controller.handleUpdateProgress i n a
  /\ (i <> j ->
      Controller.handleUpdateProgress i n
        (Controller.handleUpdateProgress j m a)
      = Controller.handleUpdateProgress j m
          (Controller.handleUpdateProgress i n a)).
Proof.
  assert (Hsame : forall books,
             map (Controller.with_progress i n)
               (map (Controller.with_progress i m) books)
             = map (Controller.with_progress i n) books).
  { intros books. rewrite map_map. apply map_ext. intros b.
    unfold Controller.with_progress.
    destruct (String.eqb (Controller.id b) i) eqn:E; cbn; rewrite E;
      reflexivity. }
  split.
  - rewrite !handleUpdateProgress_eq.
    cbn [Controller.library Controller.setLibrary Controller.with_db
         Controller.db].
    rewrite Hsame, db_set_set. reflexivity.
  - intros Hij.
    assert (Hcomm : map (Controller.with_progress i n)
                      (map (Controller.with_progress j m)
                         (Controller.library a))
                    = map (Controller.with_progress j m)
                        (map (Controller.with_progress i n)
                           (Controller.library a))).
    { rewrite !map_map. apply map_ext. intros b.
      unfold Controller.with_progress.
      destruct (String.eqb_spec (Controller.id b) i) as [Ei | Ei];
        destruct (String.eqb_spec (Controller.id b) j) as [Ej | Ej];
        cbn; try congruence.
      - destruct (String.eqb_spec (Controller.id b) i); [|contradiction].
        destruct (String.eqb_spec (Controller.id b) j);
          [contradiction | reflexivity].
      - destruct (String.eqb_spec (Controller.id b) i); [contradiction|].
        destruct (String.eqb_spec (Controller.id b) j);
          [reflexivity | contradiction].
      - destruct (String.eqb_spec (Controller.id b) i); [contradiction|].
        destruct (String.eqb_spec (Controller.id b) j);
          [contradiction | reflexivity]. }
    rewrite !handleUpdateProgress_eq.
    cbn [Controller.library Controller.setLibrary Controller.with_db
         Controller.db].
    rewrite Hcomm, !db_set_set. reflexivity.
Qed.

Lemma update_progress_last_write_wins_witness :
  Controller.handleUpdateProgress "demo" 7
    (Controller.handleUpdateProgress "book_1_0" 1 Controller.sample_app)
  = Controller.handleUpdateProgress "book_1_0" 1
      (Controller.handleUpdateProgress "demo" 7 Controller.sample_app).
Proof.
  apply (update_progress_last_write_wins "demo" "book_1_0" 7 1
           Controller.sample_app).
  discriminate.
Defined.

(** X12. The position saved in the library is the position a stopped
    reader shows.  For a reader opened on a book of the library, after any
    sequence of events that leaves it stopped, handing its progress calls
    to [handleUpdateProgress] leaves that book with the engine's word
    index, so the reader rendered next resumes exactly there. *)
Theorem saved_position_is_shown_position
    (settings : AppSettings) (a : Controller.App)
    (book : Controller.BookMeta) (words : list string) (evs : list event) :
  Controller.reader_props a = Some (book, words) ->
  let r := run (Controller.id book) words settings evs
             (initial_reader (Controller.progressIndex book)) in
  isPlaying (engine r) = false ->
  let a' := Controller.deliver (progressCalls r) a in
  Controller.reader_props a'
  = Some (Controller.with_progressIndex (wordIndex (engine r)) book, words)
  /\ Controller.open_reader a' = Some (initial_reader (wordIndex (engine r))).
Proof.
  intros Hprops r Hstopped a'.
  unfold Controller.reader_props in Hprops.
  destruct (Controller.view a) eqn:Hview; try discriminate.
  destruct (Controller.activeBookId a) as [i|] eqn:Hactive; [|discriminate].
  destruct (String.length i =? 0)%nat eqn:Hlen; [discriminate|].
  destruct (find (fun b => String.eqb (Controller.id b) i)
              (Controller.library a)) as [b|] eqn:Hfind; [|discriminate].
  injection Hprops as -> <-.
  pose proof (find_book_id i _ _ Hfind) as Hid.
  destruct (run_last_call (Controller.id book) (Controller.activeWords a)
              settings evs (Controller.progressIndex book)) as [Hall Hlast].
  fold r in Hall, Hlast. specialize (Hlast Hstopped).
  destruct (deliver_keeps (progressCalls r) a) as (Hv & Hb & Hw).
  fold a' in Hv, Hb, Hw.
  pose proof (deliver_find_book (Controller.id book) (progressCalls r) a Hall)
    as Hbook.
  fold a' in Hbook. rewrite Hid in Hbook.
  unfold Controller.find_book in Hbook. rewrite Hfind in Hbook.
  cbn [option_map] in Hbook. rewrite Hlast in Hbook.
  assert (Hp : Controller.reader_props a'
               = Some (Controller.with_progressIndex (wordIndex (engine r)) book,
                       Controller.activeWords a)).
  { unfold Controller.reader_props.
    rewrite Hv, Hb, Hw, Hview, Hactive, Hlen, Hbook. reflexivity. }
  split; [exact Hp|].
  unfold Controller.open_reader. rewrite Hp. reflexivity.
Qed.

Lemma saved_position_is_shown_position_witness :
  let r := run "demo" sample_words sample_settings
             [Start 1000 10 10; Frame 1016; Frame 3000; Frame 3200; Stop]
             (initial_reader 0) in
  let a' := Controller.deliver (progressCalls r) Controller.sample_app in
  Controller.open_reader a' = Some (initial_reader (wordIndex (engine r))).
Proof.
  intros r a'.
  apply (saved_position_is_shown_position sample_settings
           Controller.sample_app
           (Controller.mkBook "demo" "Neuromancer (Excerpt)" 15 0 0
              (Some "from-cyan-900 to-slate-900"%string))
           sample_words
           [Start 1000 10 10; Frame 1016; Frame 3000; Frame 3200; Stop]).
  - reflexivity.
  - vm_compute. reflexivity.
Defined.

Section DeleteFacts.

Import Controller.

Lemma find_book_filter_same (i : string) (books : list BookMeta) :
  find_book i (filter (fun b => negb (String.eqb (id b) i)) books) = None.
Proof.
  unfold find_book. induction books as [|b rest IH]; [reflexivity|]. cbn.
  destruct (String.eqb (id b) i) eqn:E; cbn; [exact IH|].
  rewrite E. exact IH.
Qed.

Lemma find_book_filter_other (i j : string) (books : list BookMeta) :
  j <> i ->
  find_book j (filter (fun b => negb (String.eqb (id b) i)) books)
  = find_book j books.
Proof.
  intros Hne. unfold find_book.
  induction books as [|b rest IH]; [reflexivity|]. cbn.
  destruct (String.eqb_spec (id b) i) as [Ei | Ei]; cbn.
  - destruct (String.eqb_spec (id b) j) as [Ej | _]; [congruence | exact IH].
  - destruct (String.eqb (id b) j); [reflexivity | exact IH].
Qed.

End DeleteFacts.

(** X13. A confirmed delete removes the book and its stored content and
    nothing else: no book with that id is left, the content key is gone,
    so that selecting the deleted book changes nothing; every other book
    and every other content is as before, and the stored copy of the
    library is the new library.  A delete that is not confirmed leaves the
    whole state as it is. *)
Theorem delete_removes_book_and_content
    (i : string) (a : Controller.App) :
  let a' := Controller.handleDelete true i a in
  Controller.find_book i (Controller.library a') = None
  /\ Controller.db_get (Controller.content_key i) (Controller.db a') = None
  /\ (forall book, Controller.id book = i ->
        Controller.handleSelectBook book a' = a')
  /\ (forall j, j <> i ->
        Controller.find_book j (Controller.library a')
        = Controller.find_book j (Controller.library a)
        /\ Controller.db_get (Controller.content_key j) (Controller.db a')
           = Controller.db_get (Controller.content_key j) (Controller.db a))
  /\ Controller.library_saved a'
  /\ Controller.handleDelete false i a = a.
Proof.
  cbv zeta. unfold Controller.handleDelete. cbn [negb].
  cbn [Controller.library Controller.setLibrary Controller.with_db
       Controller.db].
  assert (Hgone : Controller.db_get (Controller.content_key i)
                    (Controller.db_del (Controller.content_key i)
                       (Controller.db_set "library"
                          (Controller.VLibrary
                             (filter (fun b => negb (String.eqb
                                                       (Controller.id b) i))
                                (Controller.library a)))
                          (Controller.db a))) = None)
    by apply db_get_del_same.
  split; [apply find_book_filter_same|].
  split; [exact Hgone|].
  split.
  { intros book Hid. unfold Controller.handleSelectBook.
    cbn [Controller.db Controller.with_db]. rewrite Hid, Hgone. reflexivity. }
  split.
  { intros j Hj. split; [apply find_book_filter_other, Hj|].
    rewrite db_get_del_other
      by (intros E; apply content_key_inj in E; congruence).
    apply db_get_set_other, content_key_not_library. }
  split; [|reflexivity].
  unfold Controller.library_saved.
  cbn [Controller.library Controller.setLibrary Controller.with_db
       Controller.db].
  rewrite db_get_del_other
    by (intros E; symmetry in E; revert E; apply content_key_not_library).
  apply db_get_set_same.
Qed.

Lemma delete_removes_book_and_content_witness :
  let a' := Controller.handleDelete true "demo" Controller.sample_app in
  Controller.handleSelectBook
    (Controller.mkBook "demo" "Neuromancer (Excerpt)" 15 0 0 None) a' = a'
  /\ Controller.db_get (Controller.content_key "book_1_0") (Controller.db a')
     = Some (Controller.VWords ["a"; "b"; "c"]%string).
Proof.
  destruct (delete_removes_book_and_content "demo" Controller.sample_app)
    as (_ & _ & Hsel & Hother & _).
  intros a'. split.
  - apply Hsel. reflexivity.
  - destruct (Hother "book_1_0"%string) as [_ Hc]; [discriminate|].
    unfold a'. rewrite Hc. reflexivity.
Defined.

(** X14. Selecting a book opens the reader only if its content is in the
    store: then the reader gets the stored words and starts at the
    progress the library holds for that id, also when the book handed to
    the handler is a stale copy; with no stored content the state is
    unchanged. *)
Theorem select_opens_stored_book
    (book : Controller.BookMeta) (a : Controller.App) :
  (forall words current,
     Controller.db_get (Controller.content_key (Controller.id book))
       (Controller.db a) = Some (Controller.VWords words) ->
     Controller.find_book (Controller.id book) (Controller.library a)
     = Some current ->
     Controller.id book <> ""%string ->
     Controller.reader_props (Controller.handleSelectBook book a)
     = Some (current, words)
     /\ Controller.open_reader (Controller.handleSelectBook book a)
        = Some (initial_reader (Controller.progressIndex current)))
  /\ (Controller.db_get (Controller.content_key (Controller.id book))
        (Controller.db a) = None ->
      Controller.handleSelectBook book a = a).
Proof.
  split.
  - intros words current Hget Hfind Hne.
    assert (Hp : Controller.reader_props (Controller.handleSelectBook book a)
                 = Some (current, words)).
    { unfold Controller.handleSelectBook. rewrite Hget.
      unfold Controller.reader_props.
      cbn [Controller.view Controller.setView Controller.activeBookId
           Controller.setActiveBookId Controller.library
           Controller.setActiveWords Controller.activeWords].
      destruct (Controller.id book) as [|c rest] eqn:E; [contradiction|].
      cbn [String.length Nat.eqb].
      unfold Controller.find_book in Hfind. rewrite Hfind. reflexivity. }
    split; [exact Hp|].
    unfold Controller.open_reader. rewrite Hp. reflexivity.
  - intros Hget. unfold Controller.handleSelectBook. rewrite Hget.
    reflexivity.
Qed.

Lemma select_opens_stored_book_witness :
  let stale := Controller.mkBook "book_1_0" "Notes" 3 0 5 None in
  Controller.open_reader
    (Controller.handleSelectBook stale
       (Controller.onBack Controller.sample_app))
  = Some (initial_reader 2).
Proof.
  intros stale.
  destruct (select_opens_stored_book stale
              (Controller.onBack Controller.sample_app)) as [H _].
  apply (H ["a"; "b"; "c"]%string
           (Controller.mkBook "book_1_0" "Notes" 3 2 5 None));
    [reflexivity | reflexivity | discriminate].
Defined.

(** ** The gradient of a book *)

Section GradientFacts.

Lemma ToInt32_range (x : Z) : - 2 ^ 31 <= ToInt32 x < 2 ^ 31.
Proof.
  unfold ToInt32.
  pose proof (Z.mod_pos_bound (x + 2 ^ 31) (2 ^ 32) eq_refl). lia.
Qed.

Lemma charCodes_range (s : string) :
  Forall (fun code => 0 <= code <= 255) (charCodes s).
Proof.
  unfold charCodes. rewrite Forall_map.
  apply Forall_forall. intros c _.
  pose proof (nat_ascii_bounded c). lia.
Qed.

(** Each turn of the loop moves the hash by less than [2^31 + 2^8]. *)
Lemma hash_step_bound (hash code : Z) :
  0 <= code <= 255 ->
  Z.abs (hash_step hash code) <= Z.abs hash + (2 ^ 31 + 255).
Proof.
  intros Hc. unfold hash_step, shiftLeft.
  pose proof (ToInt32_range (ToInt32 hash * 2 ^ 5)). lia.
Qed.

Lemma hash_loop_bound (codes : list Z) (hash : Z) :
  Forall (fun code => 0 <= code <= 255) codes ->
  Z.abs (fold_left hash_step codes hash)
  <= Z.abs hash + Z.of_nat (List.length codes) * (2 ^ 31 + 255).
Proof.
  revert hash. induction codes as [|c rest IH]; intros hash Hall.
  - cbn. lia.
  - inversion Hall as [|? ? Hc Hrest]; subst.
    cbn [fold_left]. specialize (IH (hash_step hash c) Hrest).
    pose proof (hash_step_bound hash c Hc).
    change (List.length (c :: rest)) with (S (List.length rest)).
    rewrite Nat2Z.inj_succ. lia.
Qed.

End GradientFacts.

Lemma getRandomGradient_defined_helper (id : string) :
  exists gradient,
    getRandomGradient id = Some gradient /\ In gradient colors.
Proof.
  unfold getRandomGradient.
  set (h := Z.abs (hash_of id)).
  assert (Hh : 0 <= h) by apply Z.abs_nonneg.
  change (Z.of_nat (List.length colors)) with 6.
  assert (Hr : 0 <= Z.rem h 6 < 6).
  { rewrite Z.rem_mod_nonneg by lia. apply Z.mod_pos_bound. lia. }
  unfold JS.index.
  destruct (Z.ltb_spec (Z.rem h 6) 0) as [Hneg | _]; [lia|].
  destruct (nth_error colors (Z.to_nat (Z.rem h 6))) as [g|] eqn:E.
  - exists g. split; [reflexivity|]. eapply nth_error_In, E.
  - apply nth_error_None in E. cbn [List.length colors] in E. lia.
Qed.

(** X15. Every id, the empty one too, gets one of the six gradients:
    the index derived from the hash is always inside the table. *)
Theorem getRandomGradient_defined (id : string) :
  exists gradient,
    getRandomGradient id = Some gradient /\ In gradient colors.
Proof.
  unfold getRandomGradient.
  set (h := Z.abs (hash_of id)).
  assert (Hh : 0 <= h) by apply Z.abs_nonneg.
  change (Z.of_nat (List.length colors)) with 6.
  assert (Hr : 0 <= Z.rem h 6 < 6).
  { rewrite Z.rem_mod_nonneg by lia. apply Z.mod_pos_bound. lia. }
  unfold JS.index.
  destruct (Z.ltb_spec (Z.rem h 6) 0) as [Hneg | _]; [lia|].
  destruct (nth_error colors (Z.to_nat (Z.rem h 6))) as [g|] eqn:E.
  - exists g. split; [reflexivity|]. eapply nth_error_In, E.
  - apply nth_error_None in E. cbn [List.length colors] in E. lia.
Qed.

(** X16. For an id of at most four million characters the hash, and the
    difference [(hash << 5) - hash] computed from it, stay below [2^53] in
    absolute value after every turn of the loop, so the integer arithmetic
    of the model is the arithmetic the code carries out on doubles. *)
Theorem hash_stays_exact (id : string) (seen rest : list Z) :
  Z.of_nat (String.length id) <= 4000000 ->
  charCodes id = seen ++ rest ->
  let hash := fold_left hash_step seen 0 in
  Z.abs hash < 2 ^ 53 /\ Z.abs (shiftLeft hash 5 - hash) < 2 ^ 53.
Proof.
  intros Hlen Hsplit.
  pose proof (charCodes_range id) as Hall. rewrite Hsplit in Hall.
  apply Forall_app in Hall. destruct Hall as [Hseen _].
  pose proof (hash_loop_bound seen 0 Hseen) as Hb.
  assert (Hn : Z.of_nat (List.length seen) <= 4000000).
  { assert (E : List.length (charCodes id) = String.length id).
    { unfold charCodes. rewrite length_map.
      clear. induction id as [|c s IH]; cbn; [reflexivity | now rewrite IH]. }
    rewrite Hsplit, length_app in E. lia. }
  cbn [Z.abs] in Hb. cbv zeta.
  pose proof (ToInt32_range (ToInt32 (fold_left hash_step seen 0) * 2 ^ 5)).
  unfold shiftLeft. lia.
Qed.

Lemma hash_stays_exact_witness :
  Z.abs (fold_left hash_step (charCodes "book_17"%string) 0) < 2 ^ 53
  /\ hash_of "demo"%string = 3079651
  /\ getRandomGradient "demo"%string
     = Some "from-emerald-900 to-slate-900"%string.
Proof.
  split.
  - refine (proj1 (hash_stays_exact "book_1700000000000_0"%string
             (charCodes "book_17"%string)
             (charCodes "00000000000_0"%string) _ _)).
    + cbn. lia.
    + reflexivity.
  - split; reflexivity.
Defined.


(** ** The words of a text *)

Section CleanTextFacts.

Lemma visible_cons (c : ascii) (s : string) :
  visible (String c s) = if is_space c then visible s else c :: visible s.
Proof. unfold visible. cbn. destruct (is_space c); reflexivity. Qed.

Lemma list_of_string_of_list (l : list ascii) :
  list_ascii_of_string (string_of_list_ascii l) = l.
Proof. apply list_ascii_of_string_of_list_ascii. Qed.

(** The pieces hold no white space, as long as the piece being read holds
    none. *)
Lemma split_from_no_space (s : string) :
  forall piece in_run,
    Forall (fun c => is_space c = false) piece ->
    Forall (fun w => Forall (fun c => is_space c = false)
                       (list_ascii_of_string w))
      (split_from piece in_run s).
Proof.
  induction s as [|c rest IH]; intros piece in_run Hpiece; cbn.
  - constructor; [|constructor]. rewrite list_of_string_of_list.
    apply Forall_rev, Hpiece.
  - destruct (is_space c) eqn:Hc.
    + destruct in_run.
      * apply IH. constructor.
      * constructor; [|apply IH; constructor].
        rewrite list_of_string_of_list. apply Forall_rev, Hpiece.
    + apply IH. constructor; assumption.
Qed.

Lemma flat_map_nonempty (ws : list string) :
  flat_map list_ascii_of_string
    (filter (fun w => (0 <? String.length w)%nat) ws)
  = flat_map list_ascii_of_string ws.
Proof.
  induction ws as [|w rest IH]; [reflexivity|].
  destruct w as [|c w'].
  - cbn [filter String.length Nat.ltb Nat.leb flat_map list_ascii_of_string
         app]. exact IH.
  - change (filter (fun w => (0 <? String.length w)%nat) (String c w' :: rest))
      with (String c w'
            :: filter (fun w => (0 <? String.length w)%nat) rest).
    cbn [flat_map]. rewrite IH. reflexivity.
Qed.

(** The pieces, put end to end, are the piece being read followed by the
    visible characters of what is left to read. *)
Lemma split_from_letters (s : string) :
  forall piece in_run,
    (in_run = true -> piece = []) ->
    flat_map list_ascii_of_string (split_from piece in_run s)
    = rev piece ++ visible s.
Proof.
  induction s as [|c rest IH]; intros piece in_run Hrun.
  - cbn. rewrite list_of_string_of_list. reflexivity.
  - cbn [split_from]. rewrite visible_cons.
    destruct (is_space c) eqn:Hc.
    + destruct in_run.
      * rewrite (Hrun eq_refl). apply IH. reflexivity.
      * cbn [flat_map]. rewrite list_of_string_of_list.
        rewrite IH by reflexivity. reflexivity.
    + rewrite IH by discriminate. cbn [rev]. rewrite <- app_assoc.
      reflexivity.
Qed.

Lemma line_feed_is_space : is_space line_feed = true.
Proof. reflexivity. Qed.

Lemma visible_replace_newlines (s : string) :
  visible (replace_newlines s) = visible s.
Proof.
  induction s as [|c rest IH]; [reflexivity|]. cbn [replace_newlines].
  destruct (Ascii.eqb_spec c line_feed) as [-> | _].
  - rewrite !visible_cons. rewrite line_feed_is_space.
    change (is_space " ") with true. cbv iota. exact IH.
  - rewrite !visible_cons, IH. reflexivity.
Qed.

Lemma cleanText_letters (text : string) :
  flat_map list_ascii_of_string (cleanText text)
  = visible (replace_tags text).
Proof.
  unfold cleanText, split_spaces. rewrite flat_map_nonempty.
  rewrite split_from_letters by discriminate.
  apply visible_replace_newlines.
Qed.

Lemma cleanText_words (text : string) :
  Forall (fun w => w <> EmptyString
                   /\ Forall (fun c => is_space c = false)
                        (list_ascii_of_string w))
    (cleanText text).
Proof.
  unfold cleanText, split_spaces.
  apply Forall_forall. intros w Hin. apply filter_In in Hin.
  destruct Hin as [Hin Hlen]. split.
  - intros ->. discriminate.
  - pose proof (split_from_no_space
                  (replace_newlines (replace_tags text)) [] false
                  (Forall_nil _)) as Hall.
    rewrite Forall_forall in Hall. apply Hall, Hin.
Qed.

(** A text without a tag is left as it is. *)
Lemma replace_tags_none (s : string) :
  has_tag s = false -> replace_tags s = s.
Proof.
  unfold replace_tags. induction s as [|c rest IH]; [reflexivity|].
  cbn. intros H. apply orb_false_iff in H. destruct H as [H1 H2].
  rewrite H1, (IH H2). reflexivity.
Qed.

(** A [>] in the result was in the text. *)
Lemma replace_tags_from_gt (s : string) :
  forall in_tag,
    has_gt (replace_tags_from in_tag s) = true -> has_gt s = true.
Proof.
  induction s as [|c rest IH]; intros in_tag; cbn; [trivial|].
  destruct in_tag.
  - destruct (Ascii.eqb c gt_sign) eqn:E; cbn; [reflexivity|].
    apply IH.
  - destruct (Ascii.eqb c lt_sign && has_gt rest) eqn:E.
    + intros H. apply IH in H. rewrite H. apply orb_true_r.
    + cbn. destruct (Ascii.eqb c gt_sign); cbn; [reflexivity | apply IH].
Qed.

Lemma replace_tags_from_no_tag (s : string) :
  forall in_tag, has_tag (replace_tags_from in_tag s) = false.
Proof.
  induction s as [|c rest IH]; intros in_tag; cbn; [reflexivity|].
  destruct in_tag.
  - destruct (Ascii.eqb c gt_sign); cbn; apply IH.
  - destruct (Ascii.eqb c lt_sign && has_gt rest) eqn:E; [apply IH|].
    cbn. rewrite IH, orb_false_r.
    apply andb_false_iff in E. destruct E as [E | E].
    + rewrite E. reflexivity.
    + destruct (has_gt (replace_tags_from false rest)) eqn:G;
        [|apply andb_false_r].
      apply replace_tags_from_gt in G. congruence.
Qed.

(** Dropping characters makes no tag. *)
Lemma filter_has_gt (p : ascii -> bool) (s : string) :
  has_gt (string_of_list_ascii (filter p (list_ascii_of_string s))) = true ->
  has_gt s = true.
Proof.
  induction s as [|c rest IH]; cbn; [trivial|].
  destruct (p c); cbn.
  - destruct (Ascii.eqb c gt_sign); cbn; [reflexivity | exact IH].
  - intros H. rewrite (IH H). apply orb_true_r.
Qed.

Lemma filter_no_tag (p : ascii -> bool) (s : string) :
  has_tag s = false ->
  has_tag (string_of_list_ascii (filter p (list_ascii_of_string s))) = false.
Proof.
  induction s as [|c rest IH]; cbn; [trivial|].
  intros H. apply orb_false_iff in H. destruct H as [H1 H2].
  destruct (p c); cbn; [|exact (IH H2)].
  rewrite (IH H2), orb_false_r.
  apply andb_false_iff in H1. destruct H1 as [E | E].
  - rewrite E. reflexivity.
  - destruct (has_gt (string_of_list_ascii
                        (filter p (list_ascii_of_string rest)))) eqn:G;
      [|apply andb_false_r].
    apply filter_has_gt in G. congruence.
Qed.

Lemma list_of_concat (ws : list string) :
  list_ascii_of_string (String.concat EmptyString ws)
  = flat_map list_ascii_of_string ws.
Proof.
  assert (Happ : forall a b,
             list_ascii_of_string (a ++ b)
             = list_ascii_of_string a ++ list_ascii_of_string b).
  { intros a b. induction a as [|c a IH]; cbn; [reflexivity | now rewrite IH]. }
  induction ws as [|w rest IH]; [reflexivity|].
  destruct rest as [|w' rest'].
  - cbn. rewrite app_nil_r. reflexivity.
  - change (String.concat EmptyString (w :: w' :: rest'))
      with (w ++ EmptyString ++ String.concat EmptyString (w' :: rest'))%string.
    rewrite Happ. cbn [String.append]. rewrite IH. reflexivity.
Qed.

End CleanTextFacts.

(** X17. Every word [cleanText] returns is non-empty and free of white
    space (tab, line feed, vertical tab, form feed, carriage return, space,
    no-break space), whatever the text. *)
Theorem cleanText_words_are_clean (text : string) :
  Forall (fun w => w <> EmptyString
                   /\ (0 < String.length w)%nat
                   /\ forall c, In c (list_ascii_of_string w) ->
                                is_space c = false)
    (cleanText text).
Proof.
  pose proof (cleanText_words text) as H.
  eapply Forall_impl; [|exact H].
  intros w [Hne Hall]. split; [exact Hne|]. split.
  - destruct w; [contradiction | cbn; lia].
  - apply Forall_forall. exact Hall.
Qed.

(** X18. [cleanText] loses and invents nothing but white space and tags:
    its words, put end to end, are the characters of the text with the
    tags replaced that are not white space, in their order; and a text in
    which no [<] is followed by a [>] has no tag to replace, so its words
    are its own visible characters. *)
Theorem cleanText_keeps_the_text (text : string) :
  list_ascii_of_string (String.concat EmptyString (cleanText text))
  = visible (replace_tags text)
  /\ (has_tag text = false ->
      list_ascii_of_string (String.concat EmptyString (cleanText text))
      = visible text).
Proof.
  rewrite list_of_concat, cleanText_letters. split; [reflexivity|].
  intros H. rewrite (replace_tags_none text H). reflexivity.
Qed.

Lemma cleanText_keeps_the_text_witness :
  cleanText "The sky  above <the port"%string
  = ["The"; "sky"; "above"; "<the"; "port"]%string
  /\ list_ascii_of_string
       (String.concat EmptyString (cleanText "The sky  above <the port"%string))
     = visible "The sky  above <the port"%string.
Proof.
  split; [reflexivity|].
  apply (cleanText_keeps_the_text "The sky  above <the port"%string).
  reflexivity.
Defined.

(** X19. No tag survives: in the words [cleanText] returns, put end to
    end, no [<] is followed by a [>]. *)
Theorem cleanText_leaves_no_tag (text : string) :
  has_tag (String.concat EmptyString (cleanText text)) = false.
Proof.
  rewrite <- (string_of_list_ascii_of_string
                (String.concat EmptyString (cleanText text))).
  rewrite list_of_concat, cleanText_letters. unfold visible.
  apply filter_no_tag. apply replace_tags_from_no_tag.
Qed.

(** X20. [cleanText] returns no word exactly when the text, its tags
    replaced, is white space throughout; so the empty text, a blank text
    and a text of tags only all give the empty list. *)
Theorem cleanText_empty_iff (text : string) :
  cleanText text = []
  <-> Forall (fun c => is_space c = true)
        (list_ascii_of_string (replace_tags text)).
Proof.
  pose proof (cleanText_letters text) as Hl.
  pose proof (cleanText_words text) as Hw.
  assert (Hvis : forall l,
             filter (fun c => negb (is_space c)) l = []
             <-> Forall (fun c => is_space c = true) l).
  { induction l as [|c l IH]; cbn.
    - split; [constructor | reflexivity].
    - destruct (is_space c) eqn:Hc; cbn.
      + rewrite IH. split; [intros H; constructor; assumption|].
        intros H. inversion H. assumption.
      + split; [discriminate|]. intros H. inversion H. congruence. }
  unfold visible in Hl. rewrite <- Hvis, <- Hl. split.
  - intros ->. reflexivity.
  - intros H. destruct (cleanText text) as [|w rest]; [reflexivity|].
    inversion Hw as [|? ? [Hne _] _]; subst.
    destruct w as [|c w]; [contradiction|]. cbn in H. discriminate.
Qed.

(** ** The rendered word *)

Section RenderFacts.

Lemma string_length_list (s : string) :
  String.length s = List.length (list_ascii_of_string s).
Proof. induction s as [|c s IH]; cbn; [reflexivity | now rewrite IH]. Qed.

Lemma string_of_list_app (l1 l2 : list ascii) :
  string_of_list_ascii (l1 ++ l2)
  = (string_of_list_ascii l1 ++ string_of_list_ascii l2)%string.
Proof. induction l1 as [|c l1 IH]; cbn; [reflexivity | now rewrite IH]. Qed.

Lemma slices_join (k : nat) (s : string) :
  (slice_to k s ++ slice_from k s)%string = s.
Proof.
  unfold slice_to, slice_from. rewrite <- string_of_list_app, firstn_skipn.
  apply string_of_list_ascii_of_string.
Qed.

Lemma half_up_bounds (n : nat) : (half_up n <= n <= 2 * half_up n)%nat
                                 /\ (2 * half_up n <= n + 1)%nat.
Proof.
  unfold half_up.
  destruct (Nat.Even_Odd_dec (S n)) as [He | Ho].
  - pose proof (Nat.Even_double _ He) as E. unfold Nat.double in E. lia.
  - pose proof (Nat.Odd_double _ Ho) as E. unfold Nat.double in E. lia.
Qed.

Lemma slice_lengths (k : nat) (s : string) :
  (k <= String.length s)%nat ->
  String.length (slice_to k s) = k
  /\ String.length (slice_from k s) = (String.length s - k)%nat.
Proof.
  intros H. unfold slice_to, slice_from.
  rewrite !string_length_list, !list_of_string_of_list in *.
  rewrite firstn_length_le by exact H. rewrite length_skipn. split; reflexivity.
Qed.

End RenderFacts.

(** X21. [renderWord] returns nothing for the empty or undefined word, and
    for every other word an element that shows exactly that word: with the
    fixation anchor, the bold part followed by the light part is the word,
    the bold part is its first half, rounded up, so it is as long as the
    light part or one character longer. *)
Theorem renderWord_shows_the_word
    (settings : AppSettings) (words : list string)
    (word : string) (index : Z) (isFocused : bool) :
  renderWord settings words None index isFocused = None
  /\ renderWord settings words (Some EmptyString) index isFocused = None
  /\ (word <> EmptyString ->
      exists e,
        renderWord settings words (Some word) index isFocused = Some e
        /\ shown e = word
        /\ forall color boldPart lightPart,
             e = Anchored color boldPart lightPart ->
             fixation settings = true /\ isFocused = true
             /\ (String.length lightPart <= String.length boldPart
                 <= String.length lightPart + 1)%nat).
Proof.
  split; [reflexivity|]. split; [reflexivity|].
  intros Hne. destruct word as [|c rest]; [contradiction|].
  unfold renderWord.
  destruct (negb (fixation settings) || negb isFocused) eqn:Hplain.
  - eexists. split; [reflexivity|]. split; [reflexivity|].
    intros color b l H. discriminate.
  - eexists. split; [reflexivity|]. split; [apply slices_join|].
    intros color b l H. injection H as _ <- <-.
    apply orb_false_iff in Hplain. destruct Hplain as [Hf Hi].
    apply negb_false_iff in Hf, Hi.
    split; [exact Hf|]. split; [exact Hi|].
    destruct (half_up_bounds (String.length (String c rest)))
      as [[H1 H2] H3].
    destruct (slice_lengths _ (String c rest) H1) as [E1 E2].
    change (S (String.length rest)) with (String.length (String c rest)).
    rewrite E1, E2. lia.
Qed.

Lemma renderWord_shows_the_word_witness :
  renderWord (mkSettings true true true true false)
    ["the"; "Chatsubo"]%string (Some "Chatsubo"%string) 1 true
  = Some (Anchored "text-cyan-600" "Chat" "subo")
  /\ renderWord (mkSettings true true true true false)
       ["end."; "Ratz"; "tends"]%string (Some "tends"%string) 2 true
     = Some (Anchored "text-stone-900" "ten" "ds").
Proof.
  destruct (renderWord_shows_the_word (mkSettings true true true true false)
              ["the"; "Chatsubo"]%string "Chatsubo"%string 1 true)
    as (_ & _ & H).
  destruct H as (e & He & _); [discriminate|].
  split; [rewrite He; vm_compute in He; congruence | reflexivity].
Defined.

(** ** When the auto-rev engages *)

Section RevFacts.

Variable book_id : string.
Variable words : list string.
Variable settings : AppSettings.

(** The block does nothing when the auto-rev is off, during a drag, when
    the target is not below the cruise setpoint, and within the delay. *)
Lemma autoRevBlock_inert (t : Q) (e : Engine) :
  autoRev settings = false \/ isDragging e = true
  \/ dragStartWPM e <= targetWPM e
  \/ (t - lastDragTime e <= inject_Z AUTO_REV_DELAY_MS)%Q ->
  autoRevBlock settings t e = (inject_Z (targetWPM e), e).
Proof.
  intros H. unfold autoRevBlock.
  destruct H as [H | [H | [H | H]]].
  - rewrite H. reflexivity.
  - rewrite H. cbn [negb]. rewrite andb_false_r. reflexivity.
  - apply Z.ltb_ge in H. rewrite H, andb_false_r. reflexivity.
  - rewrite (Qltb_false _ _ H).
    destruct (autoRev settings && negb (isDragging e)
              && (targetWPM e <? dragStartWPM e)); reflexivity.
Qed.

(** Released, braked and long enough after the drag, the block restores
    the cruise setpoint. *)
Lemma autoRevBlock_snaps (t : Q) (e : Engine) :
  autoRev settings = true -> isDragging e = false ->
  targetWPM e < dragStartWPM e ->
  (rev_complete_after <= t - lastDragTime e)%Q ->
  targetWPM (snd (autoRevBlock settings t e)) = dragStartWPM e.
Proof.
  intros Hon Hd Hlt Hs. unfold autoRevBlock.
  apply Z.ltb_lt in Hlt. rewrite Hon, Hd, Hlt. cbn [andb negb].
  unfold rev_complete_after, AUTO_REV_DELAY_MS, AUTO_REV_DURATION_MS,
    inject_Z in *.
  rewrite Qltb_true by lra.
  assert (Hp : Qle_bool 0.99
                 (JS.Math_min ((t - lastDragTime e - (2000 # 1)) / (3000 # 1))
                    1) = true).
  { apply Qle_bool_iff. unfold JS.Math_min. apply Q.min_glb; [|discriminate].
    unfold Qdiv. change (/ (3000 # 1))%Q with (1 # 3000)%Q. lra. }
  rewrite Hp. reflexivity.
Qed.

Lemma startPlayback_twice (now x y : Q) (r : Reader) :
  startPlayback words now x y (startPlayback words now x y r)
  = startPlayback words now x y r.
Proof.
  open_reader r. evaluate.
  destruct (Z.leb_spec (words_length words - 1) wordIndex0) as [H | H];
    evaluate.
  - destruct (Z.leb_spec (words_length words - 1) 0) as [H0 | H0];
      evaluate; reflexivity.
  - destruct (Z.leb_spec (words_length words - 1) wordIndex0) as [H' | H'];
      [lia|]. evaluate. reflexivity.
Qed.

(** With the deadman switch on, every operation keeps [no_rev_pending]. *)
Lemma step_no_rev_pending (ev : event) (r : Reader) :
  deadman settings = true ->
  no_rev_pending r -> no_rev_pending (step book_id words settings ev r).
Proof.
  intros Hdead Hr. unfold no_rev_pending in *.
  assert (Hstart : forall now x y,
             targetWPM (engine (startPlayback words now x y r))
             = dragStartWPM (engine (startPlayback words now x y r))).
  { intros now x y.
    destruct (startPlayback_fields words now x y r)
      as (_ & _ & _ & _ & Ht & Hc & _). congruence. }
  destruct ev as [now x y| |t|now x y|now|now x y]; cbn [step].
  - intros _. right. apply Hstart.
  - rewrite stopPlayback_not_playing. discriminate.
  - intros Hq.
    destruct (loop_keeps book_id words settings t r) as (_ & _ & _ & Hwas).
    specialize (Hwas Hq). specialize (Hr Hwas).
    destruct (loop_playing_speeds book_id words settings t r Hwas)
      as (Ht & _ & Hc & Hd & _).
    rewrite Ht, Hc, Hd.
    rewrite autoRevBlock_inert; [exact Hr|].
    destruct Hr as [Hr | Hr]; [auto | right; right; left; lia].
  - unfold handlePointerDown.
    destruct (showSettings r); [exact Hr|].
    rewrite Hdead. intros _. right. apply Hstart.
  - destruct (handlePointerUp_fields book_id settings now r) as (Hp & _).
    cbv zeta in Hp. rewrite Hp, Hdead, stopPlayback_not_playing.
    discriminate.
  - destruct (dragRef r) as [d|] eqn:Hd;
      [|rewrite handlePointerMove_ignored by (left; exact Hd); exact Hr].
    destruct (isPlaying (engine r)) eqn:Hp;
      [|rewrite handlePointerMove_ignored by (right; exact Hp);
        rewrite Hp; discriminate].
    intros _. left. unfold handlePointerMove. rewrite Hd, Hp. cbn [negb].
    destruct (JS.Qltb _ _); reflexivity.
Qed.

End RevFacts.

(** X22. The auto-rev leaves a frame alone when it is switched off, during
    a drag, and until [AUTO_REV_DELAY_MS] have passed since the last drag:
    the frame keeps [targetWPM] and runs at the target scaled by the ramp,
    however far below the cruise setpoint the target is. *)
Theorem autoRev_waits
    (book_id : string) (words : list string) (settings : AppSettings)
    (t : Q) (r : Reader) :
  isPlaying (engine r) = true ->
  autoRev settings = false \/ isDragging (engine r) = true
  \/ (t - lastDragTime (engine r) <= inject_Z AUTO_REV_DELAY_MS)%Q ->
  let r' := loop book_id words settings t r in
  targetWPM (engine r') = targetWPM (engine r)
  /\ effectiveTarget settings t r = inject_Z (targetWPM (engine r))
  /\ currentWPM (engine r')
     = JS.Math_floor (inject_Z (targetWPM (engine r)) * rampEase t (engine r))%Q.
Proof.
  intros Hp H r'.
  assert (Hblock : autoRevBlock settings t (engine r)
                   = (inject_Z (targetWPM (engine r)), engine r)).
  { apply autoRevBlock_inert. destruct H as [H | [H | H]]; auto. }
  destruct (loop_playing_speeds book_id words settings t r Hp)
    as (Ht & Hc & _).
  fold r' in Ht, Hc. unfold effectiveTarget in *. rewrite Hblock in *.
  cbn [fst snd] in *. repeat split; assumption.
Qed.

Lemma autoRev_waits_witness :
  targetWPM
    (engine (loop sample_book sample_words sample_settings 11900 sample_braked))
  = 300
  /\ currentWPM
       (engine (loop sample_book sample_words sample_settings 11900
                  sample_braked)) = 300.
Proof.
  destruct (autoRev_waits sample_book sample_words sample_settings 11900
              sample_braked eq_refl) as (Ht & _ & Hc).
  - right. right. vm_compute. discriminate.
  - split; [exact Ht|]. rewrite Hc. vm_compute. reflexivity.
Defined.

(** X23. With the auto-rev on, a playing reader braked below its cruise
    setpoint and released gets its target back: any frame at least
    [AUTO_REV_DELAY_MS + 0.99 * AUTO_REV_DURATION_MS] (4970 ms) after the
    last drag sets [targetWPM] to the cruise setpoint, whatever the two
    speeds, and from then on the effective target is the cruise setpoint. *)
Theorem autoRev_completes
    (book_id : string) (words : list string) (settings : AppSettings)
    (t : Q) (r : Reader) :
  isPlaying (engine r) = true ->
  autoRev settings = true ->
  isDragging (engine r) = false ->
  targetWPM (engine r) < dragStartWPM (engine r) ->
  (rev_complete_after <= t - lastDragTime (engine r))%Q ->
  let r' := loop book_id words settings t r in
  targetWPM (engine r') = dragStartWPM (engine r)
  /\ dragStartWPM (engine r') = dragStartWPM (engine r)
  /\ forall t', effectiveTarget settings t' r'
                = inject_Z (dragStartWPM (engine r)).
Proof.
  intros Hp Hon Hd Hlt Hs r'.
  destruct (loop_playing_speeds book_id words settings t r Hp)
    as (Ht & _ & Hc & _).
  fold r' in Ht, Hc.
  rewrite (autoRevBlock_snaps settings t (engine r) Hon Hd Hlt Hs) in Ht.
  split; [exact Ht|]. split; [exact Hc|].
  intros t'. unfold effectiveTarget.
  rewrite autoRevBlock_inert by (right; right; left; lia).
  cbn [fst]. rewrite Ht. reflexivity.
Qed.

Lemma autoRev_completes_witness :
  targetWPM
    (engine (loop sample_book sample_words sample_settings 14970 sample_braked))
  = 500
  /\ effectiveTarget sample_settings 20000
       (loop sample_book sample_words sample_settings 14970 sample_braked)
     = 500%Q.
Proof.
  destruct (autoRev_completes sample_book sample_words sample_settings 14970
              sample_braked eq_refl eq_refl eq_refl) as (Ht & _ & He).
  - vm_compute. reflexivity.
  - vm_compute. discriminate.
  - split; [exact Ht | exact (He 20000%Q)].
Defined.

(** X24. A Start is idempotent, and it takes the current target as the
    cruise setpoint: a second Start with the same clock reading and
    pointer position changes nothing, and after a Start no brake is
    pending, so the effective target of every later frame is the target
    until the next drag. *)
Theorem startPlayback_idempotent
    (words : list string) (settings : AppSettings)
    (now x y : Q) (r : Reader) :
  let started := startPlayback words now x y r in
  startPlayback words now x y started = started
  /\ dragStartWPM (engine started) = targetWPM (engine r)
  /\ targetWPM (engine started) = targetWPM (engine r)
  /\ forall t, effectiveTarget settings t started
               = inject_Z (targetWPM (engine r)).
Proof.
  cbv zeta. split; [apply startPlayback_twice|].
  destruct (startPlayback_fields words now x y r)
    as (_ & _ & _ & _ & Ht & Hc & _).
  split; [exact Hc|]. split; [exact Ht|].
  intros t. unfold effectiveTarget.
  rewrite autoRevBlock_inert by (right; right; left; lia).
  cbn [fst]. rewrite Ht. reflexivity.
Qed.

(** X25. With the deadman switch on the auto-rev never engages.  Along any
    sequence of events from a freshly opened reader, a playing reader is
    either in a drag or at its cruise setpoint, because the pointer-up that
    ends a drag also stops playback and a Start takes the target as the
    cruise setpoint; so no frame ever changes [targetWPM], and the
    effective target of every frame of a playing reader is the target. *)
Theorem deadman_never_revs
    (book_id : string) (words : list string) (settings : AppSettings)
    (evs : list event) (progressIndex : Z) :
  deadman settings = true ->
  let r := run book_id words settings evs (initial_reader progressIndex) in
  no_rev_pending r
  /\ (forall t,
        targetWPM (engine (loop book_id words settings t r))
        = targetWPM (engine r))
  /\ (isPlaying (engine r) = true ->
      forall t, effectiveTarget settings t r
                = inject_Z (targetWPM (engine r))).
Proof.
  intros Hdead r.
  assert (Hr : no_rev_pending r).
  { apply (run_invariant book_id words settings no_rev_pending).
    - intros ev r0. apply step_no_rev_pending, Hdead.
    - unfold no_rev_pending. cbn. discriminate. }
  assert (Hinert : isPlaying (engine r) = true ->
                   forall t, autoRevBlock settings t (engine r)
                             = (inject_Z (targetWPM (engine r)), engine r)).
  { intros Hp t. apply autoRevBlock_inert.
    destruct (Hr Hp) as [H | H]; [auto | right; right; left; lia]. }
  split; [exact Hr|]. split.
  - intros t. destruct (isPlaying (engine r)) eqn:Hp.
    + destruct (loop_playing_speeds book_id words settings t r Hp)
        as (Ht & _).
      rewrite Ht, (Hinert eq_refl t). reflexivity.
    + rewrite loop_stopped by assumption. reflexivity.
  - intros Hp t. unfold effectiveTarget. rewrite (Hinert Hp t). reflexivity.
Qed.

Lemma deadman_never_revs_witness :
  let settings := mkSettings true true true true false in
  let r := run sample_book sample_words settings
             [PointerDown 1000 200 300; Frame 1016; PointerMove 1100 150 300;
              Frame 3000] (initial_reader 0) in
  targetWPM (engine r) = 300
  /\ dragStartWPM (engine r) = 400
  /\ targetWPM (engine (loop sample_book sample_words settings 60000 r)) = 300.
Proof.
  intros settings r.
  destruct (deadman_never_revs sample_book sample_words settings
              [PointerDown 1000 200 300; Frame 1016; PointerMove 1100 150 300;
               Frame 3000] 0 eq_refl) as (_ & Ht & _).
  fold r in Ht.
  assert (E : targetWPM (engine r) = 300) by (vm_compute; reflexivity).
  split; [exact E|]. split; [vm_compute; reflexivity|].
  rewrite (Ht 60000%Q). exact E.
Defined.

(** ** Importing files *)

Section ImportFacts.

Import Controller. Import Vault.

(** The characters of a printed number: digits, and a sign in front. *)
Lemma digits_no_underscore (d : Decimal.uint) :
  ~ In "_"%char
      (list_ascii_of_string (DecimalString.NilEmpty.string_of_uint d)).
Proof.
  induction d; cbn; intros H; try (destruct H as [H | H]; [discriminate|]);
    auto.
Qed.

Lemma number_no_underscore (n : Z) :
  ~ In "_"%char (list_ascii_of_string (number_to_string n)).
Proof.
  unfold number_to_string, DecimalString.NilZero.string_of_int,
    DecimalString.NilZero.string_of_uint.
  destruct (Z.to_int n) as [d | d]; destruct d;
    try (cbn; intros [H | H]; [discriminate | exact H]);
    try (cbn; intros [H | [H | H]]; [discriminate | discriminate | exact H]);
    try (intros H; cbn in H; destruct H as [H | H]; [discriminate|];
         try (destruct H as [H | H]; [discriminate|]);
         revert H; apply digits_no_underscore).
Qed.

(** A string read up to its first underscore, and after it. *)
Lemma split_at_underscore (a c b d : string) :
  ~ In "_"%char (list_ascii_of_string a) ->
  ~ In "_"%char (list_ascii_of_string c) ->
  (a ++ String "_" b)%string = (c ++ String "_" d)%string ->
  a = c /\ b = d.
Proof.
  revert c. induction a as [|x a IH]; intros c Ha Hc H.
  - destruct c as [|y c]; cbn in H.
    + injection H as H. split; [reflexivity | exact H].
    + injection H as Hy _. exfalso. apply Hc. left. congruence.
  - destruct c as [|y c]; cbn in H.
    + injection H as Hx _. exfalso. apply Ha. left. exact Hx.
    + injection H as Hxy H.
      destruct (IH c) as [E1 E2]; [|  | exact H |].
      * intros Hin. apply Ha. right. exact Hin.
      * intros Hin. apply Hc. right. exact Hin.
      * split; [congruence | exact E2].
Qed.

Lemma to_uint_not_nil (i : nat) : Nat.to_uint i <> Decimal.Nil.
Proof.
  intros H. pose proof (DecimalNat.Unsigned.of_to i) as E.
  rewrite H in E. cbn in E. subst i. discriminate.
Qed.

(** Two files of one batch never get the same id. *)
Lemma new_book_id_index (n1 n2 : Z) (i1 i2 : nat) :
  new_book_id n1 i1 = new_book_id n2 i2 -> i1 = i2.
Proof.
  unfold new_book_id. intros H. cbn in H. injection H as H.
  apply split_at_underscore in H;
    [|apply number_no_underscore | apply number_no_underscore].
  destruct H as [_ H].
  apply DecimalNat.Unsigned.to_uint_inj.
  pose proof (DecimalString.NilZero.usu (Nat.to_uint i1) (to_uint_not_nil i1))
    as E1.
  pose proof (DecimalString.NilZero.usu (Nat.to_uint i2) (to_uint_not_nil i2))
    as E2.
  rewrite H in E1. congruence.
Qed.

Lemma new_book_id_not_empty (n : Z) (i : nat) : new_book_id n i <> EmptyString.
Proof. unfold new_book_id. cbn. discriminate. Qed.

(** The loop appends the new books to the library it started from. *)
Lemma import_from_books (files : list ImportedFile) :
  forall i books store,
    fst (import_from i files books store) = books ++ imported_from i files.
Proof.
  induction files as [|f rest IH]; intros i books store; cbn.
  - rewrite app_nil_r. reflexivity.
  - destruct (parsed f) as [[t words]|]; [|apply IH].
    rewrite IH, <- app_assoc. reflexivity.
Qed.

(** A key that is not the content key of an id given from index [i] on is
    left alone by the loop. *)
Lemma import_from_other_key (files : list ImportedFile) (key : string) :
  forall i books store,
    (forall n j, (i <= j)%nat -> content_key (new_book_id n j) <> key) ->
    db_get key (snd (import_from i files books store)) = db_get key store.
Proof.
  induction files as [|f rest IH]; intros i books store Hkey; cbn;
    [reflexivity|].
  destruct (parsed f) as [[t words]|].
  - rewrite IH by (intros n j Hj; apply Hkey; lia).
    apply db_get_set_other. intros E. symmetry in E. revert E.
    apply Hkey. lia.
  - apply IH. intros n j Hj. apply Hkey. lia.
Qed.

Lemma import_from_content (files : list ImportedFile) :
  forall k i books store f t words,
    nth_error files k = Some f -> parsed f = Some (t, words) ->
    db_get (content_key (new_book_id (id_clock f) (i + k)))
      (snd (import_from i files books store))
    = Some (VWords words).
Proof.
  induction files as [|g rest IH]; intros k i books store f t words Hnth Hp;
    [destruct k; discriminate|].
  destruct k as [|k]; cbn in Hnth.
  - injection Hnth as ->. cbn [import_from]. rewrite Hp.
    rewrite import_from_other_key.
    + cbn [id new_book]. rewrite Nat.add_0_r. apply db_get_set_same.
    + intros n j Hj E. apply content_key_inj, new_book_id_index in E. lia.
  - cbn [import_from].
    replace (i + S k)%nat with (S i + k)%nat by lia.
    destruct (parsed g) as [[t' words']|]; eapply IH; eassumption.
Qed.

Lemma find_book_app (i : string) (l1 l2 : list BookMeta) :
  find_book i (l1 ++ l2)
  = match find_book i l1 with
    | Some b => Some b
    | None => find_book i l2
    end.
Proof.
  unfold find_book. induction l1 as [|b l1 IH]; [reflexivity|]. cbn.
  destruct (String.eqb (id b) i); [reflexivity | exact IH].
Qed.

Lemma imported_from_find (files : list ImportedFile) :
  forall k i f t words,
    nth_error files k = Some f -> parsed f = Some (t, words) ->
    find_book (new_book_id (id_clock f) (i + k)) (imported_from i files)
    = Some (new_book f (i + k) t words).
Proof.
  induction files as [|g rest IH]; intros k i f t words Hnth Hp;
    [destruct k; discriminate|].
  destruct k as [|k]; cbn in Hnth.
  - injection Hnth as ->. cbn [imported_from]. rewrite Hp.
    rewrite Nat.add_0_r. unfold find_book. cbn [find id new_book].
    rewrite String.eqb_refl. reflexivity.
  - cbn [imported_from].
    replace (i + S k)%nat with (S i + k)%nat by lia.
    destruct (parsed g) as [[t' words']|]; [|eapply IH; eassumption].
    unfold find_book. cbn [find id new_book].
    destruct (String.eqb_spec (new_book_id (id_clock g) i)
                (new_book_id (id_clock f) (S i + k))) as [E | _].
    + apply new_book_id_index in E. lia.
    + eapply IH; eassumption.
Qed.

Lemma imported_from_books (files : list ImportedFile) :
  forall i,
    (List.length (imported_from i files) <= List.length files)%nat
    /\ Forall (fun b => progressIndex b = 0
                        /\ title b <> EmptyString
                        /\ 0 <= wordCount b
                        /\ exists g, themeColor b = Some g /\ In g colors)
         (imported_from i files).
Proof.
  induction files as [|f rest IH]; intros i; cbn; [split; [lia | constructor]|].
  destruct (IH (S i)) as [Hlen Hall].
  destruct (parsed f) as [[t words]|]; cbn; [|split; [lia | exact Hall]].
  split; [lia|]. constructor; [|exact Hall].
  cbn [progressIndex title wordCount themeColor new_book].
  split; [reflexivity|]. split; [destruct t; discriminate|].
  split; [lia|]. apply getRandomGradient_defined_helper.
Qed.

End ImportFacts.

Lemma import_only_adds_helper
    (files : list Vault.ImportedFile) (a : Controller.App) :
  Controller.library (Vault.handleImport files a)
  = Controller.library a ++ Vault.imported_from 0 files.
Proof.
  unfold Vault.handleImport.
  pose proof (import_from_books files 0 (Controller.library a)
                (Controller.db a)) as Hbooks.
  destruct (Vault.import_from 0 files (Controller.library a)
              (Controller.db a)) as [newBooks store].
  cbn [fst] in Hbooks. subst newBooks. reflexivity.
Qed.

(** X26. An import only adds: the library afterwards is the library before
    followed by one new book for each file that [parseFile] could read, in
    the order of the files; every lookup that found a book still finds the
    same book; each new book starts at progress 0 with a non-empty title,
    a word count that is not negative and one of the six gradients; and the
    stored copy of the library is the new library. *)
Theorem import_only_adds
    (files : list Vault.ImportedFile) (a : Controller.App) :
  let a' := Vault.handleImport files a in
  Controller.library a'
  = Controller.library a ++ Vault.imported_from 0 files
  /\ (List.length (Vault.imported_from 0 files) <= List.length files)%nat
  /\ (forall i book,
        Controller.find_book i (Controller.library a) = Some book ->
        Controller.find_book i (Controller.library a') = Some book)
  /\ Forall (fun b => Controller.progressIndex b = 0
                      /\ Controller.title b <> EmptyString
                      /\ 0 <= Controller.wordCount b
                      /\ exists g, Controller.themeColor b = Some g
                                   /\ In g colors)
       (Vault.imported_from 0 files)
  /\ Controller.library_saved a'.
Proof.
  cbv zeta. unfold Vault.handleImport.
  pose proof (import_from_books files 0 (Controller.library a)
                (Controller.db a)) as Hbooks.
  destruct (Vault.import_from 0 files (Controller.library a)
              (Controller.db a)) as [newBooks store].
  cbn [fst] in Hbooks. subst newBooks.
  cbn [Controller.library Controller.setLibrary Controller.with_db].
  destruct (imported_from_books files 0) as [Hlen Hall].
  split; [reflexivity|]. split; [exact Hlen|]. split.
  - intros i book Hfind. rewrite find_book_app, Hfind. reflexivity.
  - split; [exact Hall|]. unfold Controller.library_saved.
    cbn [Controller.library Controller.setLibrary Controller.with_db
         Controller.db].
    apply db_get_set_same.
Qed.

Lemma import_only_adds_witness :
  let files :=
    [Vault.mkFile (Some ("notes"%string, ["one"; "two"]%string)) 17 18;
     Vault.mkFile None 19 20;
     Vault.mkFile (Some (EmptyString, ["x"]%string)) 21 22] in
  map Controller.id
    (Controller.library (Vault.handleImport files Controller.sample_app))
  = ["demo"; "book_1_0"; "book_17_0"; "book_21_2"]%string
  /\ Controller.find_book "demo"
       (Controller.library (Vault.handleImport files Controller.sample_app))
     = Controller.find_book "demo" (Controller.library Controller.sample_app).
Proof.
  intros files.
  destruct (import_only_adds files Controller.sample_app)
    as (Hlib & _ & Hkeep & _).
  split; [rewrite Hlib; reflexivity|].
  apply Hkeep. reflexivity.
Defined.

(** X27. A book just imported can be opened: if no book of the library had
    the id given to the file of index [k], then after the import the store
    holds the words of that file under the id's content key, the library
    finds the new book by its id, its word count is the number of those
    words, and selecting it renders the reader on exactly those words at
    position 0, whatever other files were imported with it. *)
Theorem imported_book_opens
    (files : list Vault.ImportedFile) (a : Controller.App)
    (k : nat) (f : Vault.ImportedFile) (t : string) (words : list string) :
  nth_error files k = Some f ->
  Vault.parsed f = Some (t, words) ->
  Controller.find_book (Vault.new_book_id (Vault.id_clock f) k)
    (Controller.library a) = None ->
  let a' := Vault.handleImport files a in
  let book := Vault.new_book f k t words in
  Controller.db_get (Controller.content_key (Controller.id book))
    (Controller.db a') = Some (Controller.VWords words)
  /\ Controller.find_book (Controller.id book) (Controller.library a')
     = Some book
  /\ Controller.wordCount book = Z.of_nat (List.length words)
  /\ Controller.reader_props (Controller.handleSelectBook book a')
     = Some (book, words)
  /\ Controller.open_reader (Controller.handleSelectBook book a')
     = Some (initial_reader 0).
Proof.
  intros Hnth Hp Hnew a' book.
  assert (Hget : Controller.db_get
                   (Controller.content_key (Controller.id book))
                   (Controller.db a') = Some (Controller.VWords words)).
  { unfold a', Vault.handleImport.
    pose proof (import_from_content files k 0 (Controller.library a)
                  (Controller.db a) f t words Hnth Hp) as Hc.
    destruct (Vault.import_from 0 files (Controller.library a)
                (Controller.db a)) as [newBooks store].
    cbn [snd] in Hc.
    cbn [Controller.db Controller.setLibrary Controller.with_db].
    rewrite db_get_set_other by apply content_key_not_library.
    exact Hc. }
  assert (Hfind : Controller.find_book (Controller.id book)
                    (Controller.library a') = Some book).
  { pose proof (import_only_adds_helper files a) as Hlib.
    fold a' in Hlib. rewrite Hlib, find_book_app.
    cbn [Controller.id book Vault.new_book]. rewrite Hnew.
    apply (imported_from_find files k 0 f t words Hnth Hp). }
  split; [exact Hget|]. split; [exact Hfind|]. split; [reflexivity|].
  assert (Hprops : Controller.reader_props
                     (Controller.handleSelectBook book a')
                   = Some (book, words)).
  { unfold Controller.handleSelectBook. rewrite Hget.
    unfold Controller.reader_props.
    cbn [Controller.view Controller.setView Controller.activeBookId
         Controller.setActiveBookId Controller.library
         Controller.setActiveWords Controller.activeWords].
    pose proof (new_book_id_not_empty (Vault.id_clock f) k) as Hne.
    cbn [Controller.id book Vault.new_book] in *.
    destruct (Vault.new_book_id (Vault.id_clock f) k) as [|c rest] eqn:E;
      [contradiction|].
    cbn [String.length Nat.eqb].
    unfold Controller.find_book in Hfind. rewrite Hfind. reflexivity. }
  split; [exact Hprops|].
  unfold Controller.open_reader. rewrite Hprops. reflexivity.
Qed.

Lemma imported_book_opens_witness :
  let files :=
    [Vault.mkFile (Some ("notes"%string, ["one"; "two"]%string)) 17 18;
     Vault.mkFile (Some ("more"%string, ["x"; "y"; "z"]%string)) 17 18] in
  let book :=
    Vault.new_book
      (Vault.mkFile (Some ("more"%string, ["x"; "y"; "z"]%string)) 17 18)
      1 "more" ["x"; "y"; "z"]%string in
  Controller.id book = "book_17_1"%string
  /\ Controller.reader_props
       (Controller.handleSelectBook book
          (Vault.handleImport files Controller.sample_app))
     = Some (book, ["x"; "y"; "z"]%string).
Proof.
  intros files book. split; [reflexivity|].
  apply (imported_book_opens files Controller.sample_app 1
           (Vault.mkFile (Some ("more"%string, ["x"; "y"; "z"]%string)) 17 18)
           "more" ["x"; "y"; "z"]%string); reflexivity.
Defined.

Section InitFacts.

Import Controller.

Lemma demo_opens (demoWords : list string) (now : Z) (a : App) :
  library a = [Vault.demo_book demoWords now] ->
  db_get "content_demo" (db a) = Some (VWords demoWords) ->
  reader_props (handleSelectBook (Vault.demo_book demoWords now) a)
  = Some (Vault.demo_book demoWords now, demoWords).
Proof.
  intros Hlib Hget. unfold handleSelectBook.
  change (content_key (id (Vault.demo_book demoWords now)))
    with "content_demo"%string.
  rewrite Hget. unfold reader_props.
  cbn [view setView activeBookId setActiveBookId library setActiveWords
       activeWords].
  rewrite Hlib. reflexivity.
Qed.

Lemma init_fields (DEMO_TEXT : string) (now : Z) (store : Store) :
  let a := Vault.init DEMO_TEXT now (Vault.initial_app store) in
  loading a = false
  /\ (view a = LIBRARY <-> db_get "has_visited" store = Some (VBool true))
  /\ (view a = LIBRARY \/ view a = ONBOARDING)
  /\ activeBookId a = None
  /\ match db_get "library" store with
     | Some (VLibrary (b :: bs)) => library a = b :: bs /\ db a = store
     | _ =>
         library a = [Vault.demo_book (cleanText DEMO_TEXT) now]
         /\ db a
            = db_set "content_demo" (VWords (cleanText DEMO_TEXT))
                (db_set "library"
                   (VLibrary [Vault.demo_book (cleanText DEMO_TEXT) now])
                   store)
     end.
Proof.
  unfold Vault.init, Vault.initial_app.
  cbn [db view library activeBookId activeWords loading settings].
  destruct (db_get "user_settings" store) as [[? | ? | ? | ?] | ];
    cbn [db view library activeBookId activeWords loading settings];
    (destruct (db_get "has_visited" store) as [[? | [ | ] | ? | ?] | ];
     cbn [db view library activeBookId activeWords loading settings setView];
     (destruct (db_get "library" store) as [[? | ? | [ | ? ?] | ?] | ];
      cbn [db view library activeBookId activeWords loading settings setView
           setLibrary with_db];
      repeat split; auto; try discriminate; try congruence)).
Qed.

End InitFacts.

(** X28. After the loading effect has run on a store whose library entry,
    if there is one, is a list of books, the loading flag is off, no book
    is active, the library view is shown exactly when the store records a
    previous visit (the onboarding view otherwise), the library on screen
    is not empty and is the one the store holds. A stored library with a
    book in it is shown as stored and the store is left alone; when there
    is none or it is empty, the library is the single demo book at
    progress 0, counting the words of the cleaned demo text, and selecting
    it renders the reader on those words at position 0. *)
Theorem init_loads_a_library
    (DEMO_TEXT : string) (now : Z) (store : Controller.Store) :
  (forall v, Controller.db_get "library" store = Some v ->
             exists books, v = Controller.VLibrary books) ->
  let a := Vault.init DEMO_TEXT now (Vault.initial_app store) in
  let demoWords := cleanText DEMO_TEXT in
  let demo := Vault.demo_book demoWords now in
  Controller.loading a = false
  /\ Controller.activeBookId a = None
  /\ (Controller.view a = Controller.LIBRARY
      <-> Controller.db_get "has_visited" store
          = Some (Controller.VBool true))
  /\ (Controller.view a <> Controller.LIBRARY ->
      Controller.view a = Controller.ONBOARDING)
  /\ Controller.library a <> []
  /\ Controller.library_saved a
  /\ (forall b bs,
        Controller.db_get "library" store
        = Some (Controller.VLibrary (b :: bs)) ->
        Controller.library a = b :: bs /\ Controller.db a = store)
  /\ (Controller.db_get "library" store = None
      \/ Controller.db_get "library" store = Some (Controller.VLibrary []) ->
      Controller.library a = [demo]
      /\ Controller.wordCount demo = Z.of_nat (List.length demoWords)
      /\ Controller.reader_props (Controller.handleSelectBook demo a)
         = Some (demo, demoWords)
      /\ Controller.open_reader (Controller.handleSelectBook demo a)
         = Some (initial_reader 0)).
Proof.
  intros Htyped a demoWords demo.
  destruct (init_fields DEMO_TEXT now store)
    as (Hload & Hview & Hviews & Hactive & Hlib).
  fold a in Hload, Hview, Hviews, Hactive, Hlib.
  fold demoWords in Hlib. fold demo in Hlib.
  assert (Hdemo : Controller.library a = [demo] ->
                  Controller.db a
                  = Controller.db_set "content_demo"
                      (Controller.VWords demoWords)
                      (Controller.db_set "library"
                         (Controller.VLibrary [demo]) store) ->
                  Controller.library_saved a
                  /\ Controller.reader_props
                       (Controller.handleSelectBook demo a)
                     = Some (demo, demoWords)).
  { intros Hl Hdb. split.
    - unfold Controller.library_saved. rewrite Hl, Hdb.
      rewrite db_get_set_other by discriminate. apply db_get_set_same.
    - apply demo_opens; [exact Hl|]. rewrite Hdb. apply db_get_set_same. }
  split; [exact Hload|]. split; [exact Hactive|]. split; [exact Hview|].
  split; [destruct Hviews; [contradiction | auto]|].
  destruct (Controller.db_get "library" store) as [v|] eqn:Estored.
  - destruct (Htyped v eq_refl) as [books ->].
    destruct books as [|b bs].
    + destruct Hlib as [Hl Hdb]. destruct (Hdemo Hl Hdb) as [Hsaved Hprops].
      split; [rewrite Hl; discriminate|]. split; [exact Hsaved|].
      split; [intros b bs; discriminate|].
      intros _. split; [exact Hl|]. split; [reflexivity|].
      split; [exact Hprops|].
      unfold Controller.open_reader. rewrite Hprops. reflexivity.
    + destruct Hlib as [Hl Hdb].
      split; [rewrite Hl; discriminate|].
      split; [unfold Controller.library_saved; rewrite Hl, Hdb; exact Estored|].
      split; [intros b' bs' E; injection E as <- <-; auto|].
      intros [E | E]; discriminate.
  - destruct Hlib as [Hl Hdb]. destruct (Hdemo Hl Hdb) as [Hsaved Hprops].
    split; [rewrite Hl; discriminate|]. split; [exact Hsaved|].
    split; [intros b bs; discriminate|].
    intros _. split; [exact Hl|]. split; [reflexivity|].
    split; [exact Hprops|].
    unfold Controller.open_reader. rewrite Hprops. reflexivity.
Qed.

Lemma init_loads_a_library_witness :
  let a := Vault.init "Hello  <b>new</b> world" 7 (Vault.initial_app []) in
  Controller.view a = Controller.ONBOARDING
  /\ Controller.library a
     = [Vault.demo_book ["Hello"; "new"; "world"]%string 7].
Proof.
  intros a.
  destruct (init_loads_a_library "Hello  <b>new</b> world" 7 [])
    as (_ & _ & Hview & Honb & _ & _ & _ & Hdemo).
  - intros v E. discriminate E.
  - fold a in Hview, Honb, Hdemo. split.
    + apply Honb. intros E. apply Hview in E. discriminate E.
    + destruct Hdemo as [Hl _]; [left; reflexivity|]. exact Hl.
Defined.
